(** * folium.raster_layers: TileLayer, WmsTileLayer, ImageOverlay, VideoOverlay

    A shallow embedding of [folium/raster_layers.py] and of the pieces of the
    Python runtime it leans on ([str] methods, the UTF-8 codec, [json.dumps]
    and [json.loads]), followed by the properties of the layer configuration
    and rendering contract. *)

From Stdlib Require Import ZArith Ascii String List Lia Bool.
From Stdlib Require Import Strings.Byte.
From Stdlib Require Import Decimal DecimalString DecimalZ DecimalPos DecimalN DecimalFacts.
From stdpp Require Import base tactics option list strings sorting gmap.

Local Open Scope Z_scope.

(** ** Text and byte strings *)

(** A Python text string ([six.text_type]) is a sequence of code points; a
    byte string ([six.binary_type]) is a sequence of bytes. *)
Abbreviation text := (list Z).
Abbreviation bytes := (list byte).

Definition cp (a : ascii) : Z := Z.of_N (N_of_ascii a).

(** [txt "abc"] is the text of an ASCII literal of the source. *)
Fixpoint txt (s : string) : text :=
  match s with
  | EmptyString => []
  | String a s' => cp a :: txt s'
  end.

(** The two interpreters the module is written for (it imports [six] and
    [__future__]). *)
Inductive interpreter := Python2 | Python3.

(** What the interpreter's text type knows beyond ASCII: the lower-case
    mapping of a code point above 127, the white space other than
    [" \t\n\r\x0b\x0c"], and whether its UTF-8 codec lets lone surrogates
    through (CPython 2 does, CPython 3 does not). *)
Record runtime := {
  rt_version : interpreter;
  rt_lower : Z → text;
  rt_space : Z → bool;
  rt_surrogates : bool;
}.

(** The extra white space of Python 3's [str.isspace]. *)
Definition unicode_space (c : Z) : bool :=
  ((28 <=? c) && (c <=? 31)) || (c =? 133) || (c =? 160) || (c =? 5760)
  || ((8192 <=? c) && (c <=? 8202)) || (c =? 8232) || (c =? 8233)
  || (c =? 8239) || (c =? 8287) || (c =? 12288).

Section Str.
Variable rt : runtime.

Definition lower_cp (c : Z) : text :=
  if (65 <=? c) && (c <=? 90) then [c + 32]
  else if c <? 128 then [c]
  else rt_lower rt c.

(** [s.lower()] *)
Definition str_lower (s : text) : text := flat_map lower_cp s.

Definition is_space (c : Z) : bool :=
  ((9 <=? c) && (c <=? 13)) || (c =? 32) || rt_space rt c.

Fixpoint str_lstrip (s : text) : text :=
  match s with
  | c :: s' => if is_space c then str_lstrip s' else s
  | [] => []
  end.

Definition str_rstrip (s : text) : text := rev (str_lstrip (rev s)).

(** [s.strip()] *)
Definition str_strip (s : text) : text := str_rstrip (str_lstrip s).

Definition flush_word (word : text) : list text :=
  match word with [] => [] | _ => [word] end.

Fixpoint str_split_go (word : text) (s : text) : list text :=
  match s with
  | [] => flush_word word
  | c :: s' =>
      if is_space c then flush_word word ++ str_split_go [] s'
      else str_split_go (word ++ [c]) s'
  end.

(** [s.split()]: the maximal runs of non-space characters. *)
Definition str_split (s : text) : list text := str_split_go [] s.

(** ['sep'.join(parts)] *)
Fixpoint str_join (sep : text) (parts : list text) : text :=
  match parts with
  | [] => []
  | [p] => p
  | p :: ps => p ++ sep ++ str_join sep ps
  end.

(** [''.join(tiles.lower().strip().split())], lines 68 and 84. *)
Definition normalize (tiles : text) : text :=
  str_join [] (str_split (str_strip (str_lower tiles))).

Definition no_space (s : text) : text :=
  List.filter (λ c, negb (is_space c)) s.

Lemma str_join_nil parts : str_join [] parts = concat parts.
Proof.
  induction parts as [|p [|q ps] IH]; simpl in *.
  - reflexivity.
  - by rewrite app_nil_r.
  - by rewrite IH.
Qed.

Lemma concat_flush_word w : concat (flush_word w) = w.
Proof. destruct w; simpl; [done|]. by rewrite app_nil_r. Qed.

Lemma str_split_go_concat s : ∀ w, concat (str_split_go w s) = w ++ no_space s.
Proof.
  induction s as [|c s IH]; intros w; simpl.
  - by rewrite concat_flush_word, app_nil_r.
  - destruct (is_space c); simpl.
    + by rewrite concat_app, concat_flush_word, IH.
    + by rewrite IH, <- app_assoc.
Qed.

Lemma no_space_lstrip s : no_space (str_lstrip s) = no_space s.
Proof.
  induction s as [|c s IH]; simpl; [done|].
  destruct (is_space c) eqn:E; simpl; [done|]. by rewrite E.
Qed.

Lemma no_space_rev s : no_space (rev s) = rev (no_space s).
Proof.
  unfold no_space. induction s as [|c s IH]; simpl; [done|].
  rewrite List.filter_app, IH. simpl. destruct (is_space c); simpl.
  - by rewrite app_nil_r.
  - done.
Qed.

Lemma no_space_strip s : no_space (str_strip s) = no_space s.
Proof.
  unfold str_strip, str_rstrip.
  by rewrite no_space_rev, no_space_lstrip, no_space_rev, rev_involutive,
    no_space_lstrip.
Qed.

(** The normal form of a tiles string is its lower-cased text with every
    white-space character removed. *)
Lemma normalize_no_space tiles : normalize tiles = no_space (str_lower tiles).
Proof.
  unfold normalize, str_split.
  by rewrite str_join_nil, str_split_go_concat, no_space_strip.
Qed.
End Str.

(** CPython 3 with the ASCII-only case mapping (enough for every name of the
    registry). *)
Definition py3 : runtime :=
  {| rt_version := Python3; rt_lower := λ c, [c]; rt_space := unicode_space;
     rt_surrogates := false |}.

(** CPython 2 on byte strings. *)
Definition py2 : runtime :=
  {| rt_version := Python2; rt_lower := λ c, [c]; rt_space := λ _, false;
     rt_surrogates := true |}.

Example normalize_mapbox_bright :
  normalize py3 (txt " Mapbox  Bright ") = txt "mapboxbright".
Proof. reflexivity. Qed.

(** ** The UTF-8 codec *)

Definition byte_val (b : byte) : Z := Z.of_N (Byte.to_N b).

Definition byte_of (z : Z) : byte := default x00 (Byte.of_N (Z.to_N z)).

(** A continuation byte [10xxxxxx]. *)
Definition is_cont (b : byte) : bool := (128 <=? byte_val b) && (byte_val b <? 192).

Definition is_surrogate (c : Z) : bool := (55296 <=? c) && (c <=? 57343).

(** [text_type(bs, 'utf8')] with the strict error handler: [None] stands for
    [UnicodeDecodeError].  Overlong forms, stray continuation bytes, truncated
    sequences and code points above U+10FFFF are refused. *)
Fixpoint utf8_decode (surrogates : bool) (bs : bytes) : option text :=
  match bs with
  | [] => Some []
  | b0 :: r0 =>
      let v0 := byte_val b0 in
      if v0 <? 128 then cons v0 <$> utf8_decode surrogates r0
      else if v0 <? 194 then None
      else if v0 <? 224 then
        match r0 with
        | b1 :: r1 =>
            if is_cont b1
            then cons ((v0 - 192) * 64 + (byte_val b1 - 128))
                   <$> utf8_decode surrogates r1
            else None
        | _ => None
        end
      else if v0 <? 240 then
        match r0 with
        | b1 :: b2 :: r2 =>
            let c := (v0 - 224) * 4096 + (byte_val b1 - 128) * 64
                     + (byte_val b2 - 128) in
            if is_cont b1 && is_cont b2 && (2048 <=? c)
               && (surrogates || negb (is_surrogate c))
            then cons c <$> utf8_decode surrogates r2
            else None
        | _ => None
        end
      else if v0 <? 245 then
        match r0 with
        | b1 :: b2 :: b3 :: r3 =>
            let c := (v0 - 240) * 262144 + (byte_val b1 - 128) * 4096
                     + (byte_val b2 - 128) * 64 + (byte_val b3 - 128) in
            if is_cont b1 && is_cont b2 && is_cont b3
               && (65536 <=? c) && (c <=? 1114111)
            then cons c <$> utf8_decode surrogates r3
            else None
        | _ => None
        end
      else None
  end.

Definition utf8_encode_cp (c : Z) : bytes :=
  if c <? 128 then [byte_of c]
  else if c <? 2048 then [byte_of (192 + c / 64); byte_of (128 + c mod 64)]
  else if c <? 65536 then
    [byte_of (224 + c / 4096); byte_of (128 + (c / 64) mod 64);
     byte_of (128 + c mod 64)]
  else
    [byte_of (240 + c / 262144); byte_of (128 + (c / 4096) mod 64);
     byte_of (128 + (c / 64) mod 64); byte_of (128 + c mod 64)].

(** [t.encode('utf8')] *)
Definition utf8_encode (t : text) : bytes := flat_map utf8_encode_cp t.

Lemma byte_of_val b : byte_of (byte_val b) = b.
Proof.
  unfold byte_of, byte_val. by rewrite N2Z.id, Byte.of_to_N.
Qed.

Lemma byte_val_range b : 0 ≤ byte_val b < 256.
Proof.
  unfold byte_val. pose proof (Byte.to_N_bounded b). lia.
Qed.

Lemma is_cont_range b : is_cont b = true → 128 ≤ byte_val b < 192.
Proof. unfold is_cont. lia. Qed.

(** Decoding loses nothing: the decoded text encodes back to the very bytes
    it came from. *)
Lemma utf8_encode_decode surrogates : ∀ bs t,
  utf8_decode surrogates bs = Some t → utf8_encode t = bs.
Proof.
  intros bs. remember (length bs) as n eqn:Hn.
  revert bs Hn. induction n as [n IH] using lt_wf_ind. intros bs Hn t.
  assert (Hrec : ∀ r u, (length r < length bs)%nat →
            utf8_decode surrogates r = Some u → utf8_encode u = r).
  { intros r u Hlt. apply (IH (length r)); [lia|done]. }
  clear IH Hn.
  destruct bs as [|b0 r0]; simpl.
  { intros [= <-]. done. }
  pose proof (byte_val_range b0) as R0.
  destruct (byte_val b0 <? 128) eqn:E1.
  { destruct (utf8_decode surrogates r0) as [u|] eqn:Hu; simpl; [|done].
    intros [= <-]. simpl. unfold utf8_encode_cp. rewrite E1. simpl.
    rewrite byte_of_val. f_equal. apply Hrec; [simpl; lia|done]. }
  destruct (byte_val b0 <? 194) eqn:E2; [done|].
  destruct (byte_val b0 <? 224) eqn:E3.
  { destruct r0 as [|b1 r1]; [done|].
    destruct (is_cont b1) eqn:C1; [|done]. apply is_cont_range in C1.
    destruct (utf8_decode surrogates r1) as [u|] eqn:Hu; simpl; [|done].
    intros [= <-]. simpl. unfold utf8_encode_cp.
    set (c := (byte_val b0 - 192) * 64 + (byte_val b1 - 128)).
    assert (c / 64 = byte_val b0 - 192 ∧ c mod 64 = byte_val b1 - 128) as [Hq Hr].
    { subst c. Z.div_mod_to_equations. lia. }
    assert (128 ≤ c < 2048) by (subst c; lia).
    replace (c <? 128) with false by lia. replace (c <? 2048) with true by lia.
    rewrite Hq, Hr. simpl.
    replace (192 + (byte_val b0 - 192)) with (byte_val b0) by lia.
    replace (128 + (byte_val b1 - 128)) with (byte_val b1) by lia.
    rewrite !byte_of_val. do 2 f_equal. apply Hrec; [simpl; lia|done]. }
  destruct (byte_val b0 <? 240) eqn:E4.
  { destruct r0 as [|b1 [|b2 r2]]; [done..|].
    set (c := (byte_val b0 - 224) * 4096 + (byte_val b1 - 128) * 64
              + (byte_val b2 - 128)).
    destruct (is_cont b1) eqn:C1; [|done]. apply is_cont_range in C1.
    destruct (is_cont b2) eqn:C2; [|done]. apply is_cont_range in C2.
    destruct (2048 <=? c) eqn:L; [|done]. simpl.
    destruct (surrogates || negb (is_surrogate c)); [|done].
    destruct (utf8_decode surrogates r2) as [u|] eqn:Hu; simpl; [|done].
    intros [= <-]. simpl. unfold utf8_encode_cp.
    assert (c / 4096 = byte_val b0 - 224 ∧ (c / 64) mod 64 = byte_val b1 - 128
            ∧ c mod 64 = byte_val b2 - 128) as (Hq & Hm & Hr).
    { subst c. Z.div_mod_to_equations. lia. }
    assert (2048 ≤ c < 65536) by (subst c; lia).
    replace (c <? 128) with false by lia. replace (c <? 2048) with false by lia.
    replace (c <? 65536) with true by lia.
    rewrite Hq, Hm, Hr. simpl.
    replace (224 + (byte_val b0 - 224)) with (byte_val b0) by lia.
    replace (128 + (byte_val b1 - 128)) with (byte_val b1) by lia.
    replace (128 + (byte_val b2 - 128)) with (byte_val b2) by lia.
    rewrite !byte_of_val. do 3 f_equal. apply Hrec; [simpl; lia|done]. }
  destruct (byte_val b0 <? 245) eqn:E5; [|done].
  destruct r0 as [|b1 [|b2 [|b3 r3]]]; [done..|].
  set (c := (byte_val b0 - 240) * 262144 + (byte_val b1 - 128) * 4096
            + (byte_val b2 - 128) * 64 + (byte_val b3 - 128)).
  destruct (is_cont b1) eqn:C1; [|done]. apply is_cont_range in C1.
  destruct (is_cont b2) eqn:C2; [|done]. apply is_cont_range in C2.
  destruct (is_cont b3) eqn:C3; [|done]. apply is_cont_range in C3.
  destruct (65536 <=? c) eqn:L; [|done].
  destruct (c <=? 1114111) eqn:U; [|done]. simpl.
  destruct (utf8_decode surrogates r3) as [u|] eqn:Hu; simpl; [|done].
  intros [= <-]. simpl. unfold utf8_encode_cp.
  assert (c / 262144 = byte_val b0 - 240 ∧ (c / 4096) mod 64 = byte_val b1 - 128
          ∧ (c / 64) mod 64 = byte_val b2 - 128
          ∧ c mod 64 = byte_val b3 - 128) as (Hq & Hm1 & Hm2 & Hr).
  { subst c. Z.div_mod_to_equations. lia. }
  replace (c <? 128) with false by lia. replace (c <? 2048) with false by lia.
  replace (c <? 65536) with false by lia.
  rewrite Hq, Hm1, Hm2, Hr. simpl.
  replace (240 + (byte_val b0 - 240)) with (byte_val b0) by lia.
  replace (128 + (byte_val b1 - 128)) with (byte_val b1) by lia.
  replace (128 + (byte_val b2 - 128)) with (byte_val b2) by lia.
  replace (128 + (byte_val b3 - 128)) with (byte_val b3) by lia.
  rewrite !byte_of_val. do 4 f_equal. apply Hrec; [simpl; lia|done].
Qed.

Example utf8_decode_e_acute :
  utf8_decode false [xc3; xa9] = Some [233] ∧ utf8_decode false [xff] = None.
Proof. split; reflexivity. Qed.

(** ** Python values and exceptions *)

(** A float is carried by the text of its [repr] (["1.0"], ["0.5"],
    ["1e-05"]), which identifies it; the three non-finite floats have no JSON
    number of their own and stand apart. *)
Inductive pyfloat :=
| FNan
| FInf (negative : bool)
| FRepr (r : string).

Unset Elimination Schemes.
Inductive pyval :=
| PNone
| PBool (b : bool)
| PInt (z : Z)
| PFloat (f : pyfloat)
| PStr (t : text)
| PBytes (b : bytes)
| PList (l : list pyval)
| PDict (d : list (text * pyval))
| PHost (what : string).
Set Elimination Schemes.

(** [PDict] lists the items in iteration order, which is insertion order;
    the hash order of the dictionaries of Python 2 and of Python before 3.7
    is not followed.  [PHost] is an object of the host libraries (a Jinja
    environment or template, a colormap function), opaque here and not
    JSON-serialisable. *)

Fixpoint pyval_ind (P : pyval → Prop)
    (HNone : P PNone) (HBool : ∀ b, P (PBool b)) (HInt : ∀ z, P (PInt z))
    (HFloat : ∀ f, P (PFloat f)) (HStr : ∀ t, P (PStr t))
    (HBytes : ∀ b, P (PBytes b))
    (HList : ∀ l, Forall P l → P (PList l))
    (HDict : ∀ d, Forall (λ kv, P kv.2) d → P (PDict d))
    (HHost : ∀ w, P (PHost w)) (v : pyval) : P v :=
  let rec := pyval_ind P HNone HBool HInt HFloat HStr HBytes HList HDict HHost in
  match v with
  | PNone => HNone
  | PBool b => HBool b
  | PInt z => HInt z
  | PFloat f => HFloat f
  | PStr t => HStr t
  | PBytes b => HBytes b
  | PList l =>
      HList l ((fix go l : Forall P l :=
                  match l with
                  | [] => Forall_nil_2 P
                  | x :: l' => Forall_cons_2 P x l' (rec x) (go l')
                  end) l)
  | PDict d =>
      HDict d ((fix go d : Forall (λ kv, P kv.2) d :=
                  match d with
                  | [] => Forall_nil_2 _
                  | kv :: d' => Forall_cons_2 _ kv d' (rec kv.2) (go d')
                  end) d)
  | PHost w => HHost w
  end.

Inductive exn :=
| ValueError (msg : string)
| TypeError (msg : string)
| UnicodeDecodeError
| AssertionError (msg : string)
| IndexError
| AttributeError (name : string)
| JSONDecodeError
| ExternalError (who : string).

(** The outcome of a call: an exception or a value. *)
Abbreviation result A := (exn + A)%type.

Definition bind_result {A B} (r : result A) (k : A → result B) : result B :=
  match r with
  | inl e => inl e
  | inr a => k a
  end.

#[global] Instance result_ret : MRet (sum exn) := λ A a, inr a.
#[global] Instance result_bind : MBind (sum exn) := λ A B k r, bind_result r k.

(** Runs the computations of a list in order; the first exception wins. *)
Fixpoint collect {A} (rs : list (result A)) : result (list A) :=
  match rs with
  | [] => inr []
  | r :: rs' =>
      bind_result r (λ a, bind_result (collect rs') (λ l, inr (a :: l)))
  end.

(** Truth value of an argument in [if not attr] and [if not API_key]. *)
Definition truthy (v : pyval) : bool :=
  match v with
  | PNone => false
  | PBool b => b
  | PInt z => negb (z =? 0)
  | PFloat (FRepr r) =>
      negb (String.eqb r "0.0" || String.eqb r "-0.0")
  | PFloat _ => true
  | PStr t => negb (Nat.eqb (length t) 0)
  | PBytes b => negb (Nat.eqb (length b) 0)
  | PList l => negb (Nat.eqb (length l) 0)
  | PDict d => negb (Nat.eqb (length d) 0)
  | PHost _ => true
  end.

(** ** [json.dumps] *)

Definition dq : ascii := "034"%char.
Definition nl : ascii := "010"%char.

Definition hex_digit (n : Z) : ascii :=
  if n <? 10 then ascii_of_N (Z.to_N (48 + n)) else ascii_of_N (Z.to_N (87 + n)).

Definition hex4 (n : Z) : string :=
  String (hex_digit (n / 4096 mod 16))
    (String (hex_digit (n / 256 mod 16))
       (String (hex_digit (n / 16 mod 16))
          (String (hex_digit (n mod 16)) ""))).

Definition u_escape (n : Z) : string := "\u" +:+ hex4 n.

(** The replacement of one character by [encode_basestring_ascii]
    ([ensure_ascii] is on by default). *)
Definition json_escape_cp (c : Z) : string :=
  if c =? 34 then String "\" (String dq "")
  else if c =? 92 then "\\"
  else if c =? 10 then "\n"
  else if c =? 13 then "\r"
  else if c =? 9 then "\t"
  else if c =? 12 then "\f"
  else if c =? 8 then "\b"
  else if (32 <=? c) && (c <=? 126) then String (ascii_of_N (Z.to_N c)) ""
  else if c <? 65536 then u_escape c
  else
    let n := c - 65536 in
    u_escape (Z.lor 55296 (Z.land (Z.shiftr n 10) 1023))
    +:+ u_escape (Z.lor 56320 (Z.land n 1023)).

Fixpoint json_escape (t : text) : string :=
  match t with
  | [] => ""
  | c :: t' => json_escape_cp c +:+ json_escape t'
  end.

Definition json_quote (t : text) : string :=
  String dq (json_escape t +:+ String dq "").

(** [int.__repr__] *)
Definition string_of_Z (z : Z) : string := NilZero.string_of_int (Z.to_int z).

(** [float.__repr__], with the names [json] gives the non-finite floats
    ([allow_nan] is on by default). *)
Definition float_repr (f : pyfloat) : string :=
  match f with
  | FNan => "NaN"
  | FInf false => "Infinity"
  | FInf true => "-Infinity"
  | FRepr r => r
  end.

(** [s <= t] on text: the lexicographic order of the code points. *)
Fixpoint text_leb (s t : text) : bool :=
  match s, t with
  | [], _ => true
  | _ :: _, [] => false
  | a :: s', b :: t' => (a <? b) || ((a =? b) && text_leb s' t')
  end.

(** [sorted(items)] on the items of a dictionary: a stable insertion sort on
    the keys. *)
Fixpoint insert_item {A} (kv : text * A) (l : list (text * A)) :
    list (text * A) :=
  match l with
  | [] => [kv]
  | kv' :: l' =>
      if text_leb kv.1 kv'.1 then kv :: l else kv' :: insert_item kv l'
  end.

Definition py_sorted {A} (l : list (text * A)) : list (text * A) :=
  foldr insert_item [] l.

Fixpoint spaces (n : nat) : string :=
  match n with
  | O => ""
  | S n' => String " " (spaces n')
  end.

Fixpoint join_strings (sep : string) (parts : list string) : string :=
  match parts with
  | [] => ""
  | [p] => p
  | p :: ps => p +:+ sep +:+ join_strings sep ps
  end.

(** The keyword arguments of [json.dumps] the module uses. *)
Record dumps_cfg := {
  sort_keys : bool;
  indent : option nat;
}.

Section Dumps.
Variable rt : runtime.
Variable cfg : dumps_cfg.

(** Python 3.4 made [','] the default item separator when [indent] is given;
    Python 2 keeps [', '] and so leaves a blank at the end of each line. *)
Definition item_separator : string :=
  match indent cfg, rt_version rt with
  | Some _, Python3 => ","
  | _, _ => ", "
  end.

Definition key_separator : string := ": ".

Definition newline_indent (level : nat) : string :=
  match indent cfg with
  | Some n => String nl (spaces (n * level))
  | None => ""
  end.

(** [_iterencode_list] and [_iterencode_dict] once the members are encoded:
    an empty container is ["[]"] or ["{}"]; otherwise the members sit one
    level deeper, each on a line of its own when [indent] is given. *)
Definition encode_container (opening closing : string) (level : nat)
    (members : list string) : string :=
  match members with
  | [] => opening +:+ closing
  | _ =>
      opening +:+ newline_indent (S level)
      +:+ join_strings (item_separator +:+ newline_indent (S level)) members
      +:+ newline_indent level +:+ closing
  end.

Definition encode_member (kv : text * result string) : result string :=
  bind_result kv.2 (λ s, inr (json_quote kv.1 +:+ key_separator +:+ s)).

(** A byte string is text for Python 2's encoder (decoded as UTF-8) and not
    serialisable for Python 3's. *)
Definition encode_bytes (b : bytes) : result string :=
  match rt_version rt with
  | Python2 =>
      match utf8_decode (rt_surrogates rt) b with
      | Some t => inr (json_quote t)
      | None => inl UnicodeDecodeError
      end
  | Python3 => inl (TypeError "Object of type bytes is not JSON serializable")
  end.

Fixpoint json_encode (level : nat) (v : pyval) : result string :=
  match v with
  | PNone => inr "null"
  | PBool true => inr "true"
  | PBool false => inr "false"
  | PInt z => inr (string_of_Z z)
  | PFloat f => inr (float_repr f)
  | PStr t => inr (json_quote t)
  | PBytes b => encode_bytes b
  | PList l =>
      let members :=
        (fix go (l : list pyval) : list (result string) :=
           match l with
           | [] => []
           | x :: l' => json_encode (S level) x :: go l'
           end) l in
      bind_result (collect members)
        (λ ms, inr (encode_container "[" "]" level ms))
  | PDict d =>
      let members :=
        (fix go (d : list (text * pyval)) : list (text * result string) :=
           match d with
           | [] => []
           | kv :: d' => (kv.1, json_encode (S level) kv.2) :: go d'
           end) d in
      let items := if sort_keys cfg then py_sorted members else members in
      bind_result (collect (encode_member <$> items))
        (λ ms, inr (encode_container "{" "}" level ms))
  | PHost _ => inl (TypeError "Object is not JSON serializable")
  end.
End Dumps.

(** [json.dumps(v)], [json.dumps(v, sort_keys=True, indent=2)] *)
Definition json_dumps (rt : runtime) (cfg : dumps_cfg) (v : pyval) :
    result string :=
  json_encode rt cfg 0 v.

Definition plain : dumps_cfg := {| sort_keys := false; indent := None |}.
Definition sorted_indent2 : dumps_cfg := {| sort_keys := true; indent := Some 2%nat |}.

Example json_dumps_bounds :
  json_dumps py3 plain (PList [PList [PInt 0; PInt 0]; PList [PInt 10; PInt (-10)]])
  = inr "[[0, 0], [10, -10]]".
Proof. reflexivity. Qed.

Example json_dumps_sorted :
  json_dumps py3 sorted_indent2
    (PDict [(txt "b", PFloat (FRepr "1.0")); (txt "a", PList [PNone; PBool true])])
  = inr (String "{" (String nl ("  " +:+ json_quote (txt "a") +:+ ": ["
         +:+ String nl "    null," +:+ String nl "    true" +:+ String nl "  ],"
         +:+ String nl ("  " +:+ json_quote (txt "b") +:+ ": 1.0"
         +:+ String nl "}")))).
Proof. reflexivity. Qed.

Lemma json_encode_list rt cfg level l :
  json_encode rt cfg level (PList l)
  = bind_result (collect (json_encode rt cfg (S level) <$> l))
      (λ ms, inr (encode_container rt cfg "[" "]" level ms)).
Proof.
  reflexivity.
Qed.

Lemma json_encode_dict rt cfg level d :
  json_encode rt cfg level (PDict d)
  = bind_result
      (collect (encode_member
                  <$> (if sort_keys cfg then py_sorted else id)
                        (prod_map id (json_encode rt cfg (S level)) <$> d)))
      (λ ms, inr (encode_container rt cfg "{" "}" level ms)).
Proof.
  simpl.
  assert ((fix go (d : list (text * pyval)) : list (text * result string) :=
             match d with
             | [] => []
             | kv :: d' => (kv.1, json_encode rt cfg (S level) kv.2) :: go d'
             end) d
          = prod_map id (json_encode rt cfg (S level)) <$> d) as ->.
  { induction d as [|[k v] d IH]; [done|]. rewrite fmap_cons. by f_equal. }
  by destruct (sort_keys cfg).
Qed.

Lemma collect_inr {A} (l : list A) : collect (inr <$> l) = inr l.
Proof.
  induction l as [|x l IH]; [done|]. rewrite fmap_cons. simpl. by rewrite IH.
Qed.

(** ** Method bodies: state and exceptions *)

(** A call of a utility of [folium.utilities], with its arguments. *)
Inductive event :=
| Called (fn : string) (args : list pyval).

(** What a method acts on: the instance dictionary of [self] and the calls
    made so far to the collaborators. *)
Record state := {
  attrs : gmap string pyval;
  calls : list event;
}.

Definition fresh : state := {| attrs := ∅; calls := [] |}.

Definition M (A : Type) : Type := state → result A * state.

#[global] Instance M_ret : MRet M := λ A a s, (inr a, s).

#[global] Instance M_bind : MBind M := λ A B k m s,
  match m s with
  | (inl e, s') => (inl e, s')
  | (inr a, s') => k a s'
  end.

(** [raise e] *)
Definition raise {A} (e : exn) : M A := λ s, (inl e, s).

Definition lift {A} (r : result A) : M A := λ s, (r, s).

(** [self.name = v] *)
Definition setattr (name : string) (v : pyval) : M unit := λ s,
  (inr (), {| attrs := <[name := v]> (attrs s); calls := calls s |}).

(** A call of a collaborator is recorded before its outcome is used. *)
Definition call {A} (fn : string) (args : list pyval) (r : result A) : M A := λ s,
  (r, {| attrs := attrs s; calls := calls s ++ [Called fn args] |}).

(** ** The template registry *)

(** A Jinja template, as the function from the render context to the text. *)
Abbreviation template := (list (text * pyval) → text).

(** [ENV = Environment(loader=PackageLoader('folium', 'templates'))]: the
    template files of the package by name.  The files are data of the
    package, so the registry is a parameter of the development. *)
Record environment := {
  loader : list (text * template);
}.

Fixpoint startswith (prefix s : text) : bool :=
  match prefix, s with
  | [], _ => true
  | p :: prefix', c :: s' => (p =? c) && startswith prefix' s'
  | _ :: _, [] => false
  end.

(** [env.list_templates(filter_func=f)] *)
Definition list_templates (env : environment) (f : text → bool) : list text :=
  List.filter f (fst <$> loader env).

Fixpoint find_template (l : list (text * template)) (name : text) :
    option template :=
  match l with
  | [] => None
  | (n, t) :: l' => if decide (n = name) then Some t else find_template l' name
  end.

(** [env.get_template(name)] *)
Definition get_template (env : environment) (name : text) : result template :=
  match find_template (loader env) name with
  | Some t => inr t
  | None => inl (ExternalError "TemplateNotFound")
  end.

(** ** The base layer *)

(** Modelled from the spec: [folium.map.Layer.__init__], which is not among
    the sources.  The base abstraction keeps the layer name and the overlay
    and control flags; the identifier it generates for a layer without a name
    is its own business and is left as [None]. *)
Definition Layer_init (name : option text) (overlay control : bool) : M unit :=
  setattr "layer_name" (from_option PStr PNone name) ;;
  setattr "overlay" (PBool overlay) ;;
  setattr "control" (PBool control).

(** ** TileLayer *)

Module TileLayer.

(** [subdomains] is a string (the default, ['abc']) or a list of strings
    (the docstring). *)
Inductive subdomains_arg :=
| Subdomains (s : text)
| SubdomainList (l : list text).

Definition subdomains_val (s : subdomains_arg) : pyval :=
  match s with
  | Subdomains t => PStr t
  | SubdomainList l => PList (PStr <$> l)
  end.

(** The arguments of the constructor, typed as the docstring types them. *)
Record args := {
  tiles : text;
  min_zoom : Z;
  max_zoom : Z;
  attr : pyval;
  API_key : pyval;
  detect_retina : bool;
  name : option text;
  overlay : bool;
  control : bool;
  no_wrap : bool;
  subdomains : subdomains_arg;
}.

(** [TileLayer()]: every argument at its default. *)
Definition defaults : args := {|
  tiles := txt "OpenStreetMap";
  min_zoom := 1;
  max_zoom := 18;
  attr := PNone;
  API_key := PNone;
  detect_retina := false;
  name := None;
  overlay := false;
  control := true;
  no_wrap := false;
  subdomains := Subdomains (txt "abc");
|}.

Definition api_key_required : string :=
  "You must pass an API key if using Cloudmade or non-default Mapbox tiles.".

Definition attribution_required : string :=
  "Custom tiles must also be passed an attribution.".

(** [x in ('cloudmade', 'mapbox')] *)
Definition key_gated (t : text) : bool :=
  bool_decide (t = txt "cloudmade") || bool_decide (t = txt "mapbox").

Definition tile_template (t : text) : text := txt "tiles/" ++ t ++ txt "/tiles.txt".
Definition attr_template (t : text) : text := txt "tiles/" ++ t ++ txt "/attr.txt".

(** The options dictionary of lines 74-81. *)
Definition options (a : args) : pyval :=
  PDict [(txt "minZoom", PInt (min_zoom a));
         (txt "maxZoom", PInt (max_zoom a));
         (txt "noWrap", PBool (no_wrap a));
         (txt "attribution", attr a);
         (txt "subdomains", subdomains_val (subdomains a));
         (txt "detectRetina", PBool (detect_retina a))].

Section Init.
Variable rt : runtime.
Variable env : environment.

(** The names [list_templates] returns on line 88. *)
Definition templates : list text := list_templates env (startswith (txt "tiles/")).

(** A provider is built in when both of its templates are registered
    (line 93). *)
Definition built_in (t : text) : bool :=
  bool_decide (tile_template t ∈ templates)
  && bool_decide (attr_template t ∈ templates).

(** [text_type(attr, 'utf8')] when [attr] is a byte string (lines 101-102). *)
Definition decode_attr (attr : pyval) : M pyval :=
  match attr with
  | PBytes b =>
      match utf8_decode (rt_surrogates rt) b with
      | Some t => mret (PStr t)
      | None => raise UnicodeDecodeError
      end
  | _ => mret attr
  end.

(** [TileLayer.__init__], lines 63-112. *)
Definition __init__ (a : args) : M unit :=
  let tile_name := from_option id (normalize rt (tiles a)) (name a) in
  setattr "tile_name" (PStr tile_name) ;;
  Layer_init (Some tile_name) (overlay a) (control a) ;;
  setattr "_name" (PStr (txt "TileLayer")) ;;
  setattr "_env" (PHost "ENV") ;;
  s ← lift (json_dumps rt sorted_indent2 (options a)) ;
  setattr "options" (PStr (txt s)) ;;
  let t := normalize rt (tiles a) in
  setattr "tiles" (PStr t) ;;
  (if key_gated t && negb (truthy (API_key a))
   then raise (ValueError api_key_required)
   else mret ()) ;;
  (if built_in t then
     tt ← lift (get_template env (tile_template t)) ;
     setattr "tiles" (PStr (tt [(txt "API_key", API_key a)])) ;;
     at_ ← lift (get_template env (attr_template t)) ;
     setattr "attr" (PStr (at_ []))
   else
     setattr "tiles" (PStr (tiles a)) ;;
     (if negb (truthy (attr a))
      then raise (ValueError attribution_required)
      else mret ()) ;;
     attr' ← decode_attr (attr a) ;
     setattr "attr" attr') ;;
  setattr "_template" (PHost "Template").

(** [TileLayer(...)]: the caller gets the instance only when [__init__]
    returns. *)
Definition new (a : args) : result (gmap string pyval) :=
  match __init__ a fresh with
  | (inl e, _) => inl e
  | (inr _, s) => inr (attrs s)
  end.

End Init.

(** The [script] macro of the template (lines 105-112), with the names
    [get_name()] gives the layer and its parent. *)
Definition script (self : gmap string pyval) (this parent : text) : option text :=
  match self !! "tiles", self !! "options" with
  | Some (PStr tiles), Some (PStr options) =>
      Some (txt (String nl "            var ") ++ this
            ++ txt (" = L.tileLayer(" +:+ String nl "                '")
            ++ tiles
            ++ txt ("'," +:+ String nl "                ")
            ++ options
            ++ txt (String nl "                ).addTo(") ++ parent
            ++ txt (");" +:+ String nl "        "))
  | _, _ => None
  end.

End TileLayer.

(** A registry with OpenStreetMap and the two key-gated providers, for the
    examples. *)
Definition osm_url : text := txt "https://{s}.tile.openstreetmap.org/{z}/{x}/{y}.png".
Definition osm_attr : text := txt "Map data (c) OpenStreetMap contributors".

Definition render_api_key (ctx : list (text * pyval)) : text :=
  match ctx with
  | [(_, PStr k)] => k
  | _ => []
  end.

Definition sample_env : environment := {|
  loader :=
    [(txt "tiles/openstreetmap/tiles.txt", λ _, osm_url);
     (txt "tiles/openstreetmap/attr.txt", λ _, osm_attr);
     (txt "tiles/mapbox/tiles.txt",
      λ ctx, txt "https://api.mapbox.com/v3/" ++ render_api_key ctx
             ++ txt "/{z}/{x}/{y}.png");
     (txt "tiles/mapbox/attr.txt", λ _, txt "Map tiles (c) Mapbox");
     (txt "tiles/cloudmade/tiles.txt",
      λ ctx, txt "http://{s}.tile.cloudmade.com/" ++ render_api_key ctx
             ++ txt "/{z}/{x}/{y}.png");
     (txt "tiles/cloudmade/attr.txt", λ _, txt "Map tiles (c) CloudMade")]
|}.

Definition lookup_attr (r : result (gmap string pyval)) (k : string) : option pyval :=
  match r with
  | inl _ => None
  | inr o => o !! k
  end.

Example TileLayer_default_tiles :
  lookup_attr (TileLayer.new py3 sample_env TileLayer.defaults) "tiles"
  = Some (PStr osm_url).
Proof. vm_compute. reflexivity. Qed.

(** ** Dictionaries *)

(** [d[k] = v]: a key already there keeps its place. *)
Fixpoint dict_set {A} (k : text) (v : A) (d : list (text * A)) :
    list (text * A) :=
  match d with
  | [] => [(k, v)]
  | kv :: d' => if decide (kv.1 = k) then (k, v) :: d' else kv :: dict_set k v d'
  end.

(** [d.update(other)] and [dict(pairs)] *)
Definition dict_update (d other : list (text * pyval)) : list (text * pyval) :=
  foldl (λ acc kv, dict_set kv.1 kv.2 acc) d other.

Fixpoint dict_get (k : text) (d : list (text * pyval)) : option pyval :=
  match d with
  | [] => None
  | kv :: d' => if decide (kv.1 = k) then Some kv.2 else dict_get k d'
  end.

(** [kwargs.pop(k, default)]: the value and what is left. *)
Definition dict_pop (k : text) (default : pyval) (d : list (text * pyval)) :
    pyval * list (text * pyval) :=
  (from_option id default (dict_get k d),
   List.filter (λ kv, negb (bool_decide (kv.1 = k))) d).

(** ** [json.loads] *)

Definition is_ws (a : ascii) : bool :=
  Ascii.eqb a " " || Ascii.eqb a "009" || Ascii.eqb a "010" || Ascii.eqb a "013".

Fixpoint skip_ws (s : string) : string :=
  match s with
  | String a s' => if is_ws a then skip_ws s' else s
  | EmptyString => s
  end.

Definition is_digit (a : ascii) : bool :=
  (48 <=? cp a) && (cp a <=? 57).

(** The longest run of digits at the head of [s], and what follows. *)
Fixpoint span_digits (s : string) : string * string :=
  match s with
  | String a s' =>
      if is_digit a
      then let '(ds, r) := span_digits s' in (String a ds, r)
      else (EmptyString, s)
  | EmptyString => (EmptyString, s)
  end.

Definition nonempty (s : string) : bool :=
  match s with
  | EmptyString => false
  | String _ _ => true
  end.

(** The three groups of [NUMBER_RE]: an integer part (an optional minus,
    then a lone zero or a non-zero digit and more digits), an optional
    fraction (a point and digits) and an optional exponent ([e] or [E], an
    optional sign and digits). *)
Definition scan_digits1 (s : string) : option (string * string) :=
  match s with
  | String a s' =>
      if Ascii.eqb a "0" then Some ("0", s')
      else if is_digit a
      then let '(ds, r) := span_digits s' in Some (String a ds, r)
      else None
  | EmptyString => None
  end.

Definition scan_integer (s : string) : option (string * string) :=
  match s with
  | String a s' =>
      if Ascii.eqb a "-"
      then '(ds, r) ← scan_digits1 s'; Some (String "-" ds, r)
      else scan_digits1 s
  | EmptyString => None
  end.

Definition scan_frac (s : string) : string * string :=
  match s with
  | String a s' =>
      if Ascii.eqb a "."
      then let '(ds, r) := span_digits s' in
           if nonempty ds then (String "." ds, r) else (EmptyString, s)
      else (EmptyString, s)
  | EmptyString => (EmptyString, s)
  end.

Definition scan_sign (s : string) : string * string :=
  match s with
  | String a s' =>
      if Ascii.eqb a "-" || Ascii.eqb a "+" then (String a "", s')
      else (EmptyString, s)
  | EmptyString => (EmptyString, s)
  end.

Definition scan_exp (s : string) : string * string :=
  match s with
  | String a s' =>
      if Ascii.eqb a "e" || Ascii.eqb a "E"
      then let '(sg, r1) := scan_sign s' in
           let '(ds, r2) := span_digits r1 in
           if nonempty ds then (String a (sg +:+ ds), r2) else (EmptyString, s)
      else (EmptyString, s)
  | EmptyString => (EmptyString, s)
  end.

(** [int(token)] *)
Definition Z_of_string (s : string) : option Z :=
  Z.of_int <$> NilZero.int_of_string s.

(** [match_number] and the choice between [int] and [float]: a token with a
    fraction or an exponent is the float of that text. *)
Definition scan_number (s : string) : option (pyval * string) :=
  '(int, r1) ← scan_integer s;
  let '(frac, r2) := scan_frac r1 in
  let '(exp, r3) := scan_exp r2 in
  if nonempty frac || nonempty exp
  then Some (PFloat (FRepr (int +:+ frac +:+ exp)), r3)
  else z ← Z_of_string int; Some (PInt z, r3).

Fixpoint strip_prefix (p s : string) : option string :=
  match p, s with
  | EmptyString, _ => Some s
  | String a p', String b s' => if Ascii.eqb a b then strip_prefix p' s' else None
  | String _ _, EmptyString => None
  end.

Definition hex_val (a : ascii) : option Z :=
  let c := cp a in
  if (48 <=? c) && (c <=? 57) then Some (c - 48)
  else if (97 <=? c) && (c <=? 102) then Some (c - 87)
  else if (65 <=? c) && (c <=? 70) then Some (c - 55)
  else None.

(** [_decode_uXXXX] *)
Definition decode_hex4 (a b c d : ascii) : option Z :=
  x ← hex_val a; y ← hex_val b; z ← hex_val c; w ← hex_val d;
  Some (((x * 16 + y) * 16 + z) * 16 + w).

Definition unescape (a : ascii) : option Z :=
  if Ascii.eqb a dq then Some 34
  else if Ascii.eqb a "\" then Some 92
  else if Ascii.eqb a "/" then Some 47
  else if Ascii.eqb a "b" then Some 8
  else if Ascii.eqb a "f" then Some 12
  else if Ascii.eqb a "n" then Some 10
  else if Ascii.eqb a "r" then Some 13
  else if Ascii.eqb a "t" then Some 9
  else None.

(** The characters of a string literal after its opening quote, one code
    unit for each [\uXXXX]; control characters are refused ([strict]). *)
Fixpoint scan_units (s : string) : option (text * string) :=
  match s with
  | EmptyString => None
  | String a s' =>
      if Ascii.eqb a dq then Some ([], s')
      else if Ascii.eqb a "\" then
        match s' with
        | String e s'' =>
            if Ascii.eqb e "u" then
              match s'' with
              | String h1 (String h2 (String h3 (String h4 s3))) =>
                  u ← decode_hex4 h1 h2 h3 h4;
                  '(t, r) ← scan_units s3;
                  Some (u :: t, r)
              | _ => None
              end
            else
              u ← unescape e;
              '(t, r) ← scan_units s'';
              Some (u :: t, r)
        | EmptyString => None
        end
      else if cp a <? 32 then None
      else '(t, r) ← scan_units s'; Some (cp a :: t, r)
  end.

(** A high surrogate followed by a low one is one code point. *)
Fixpoint join_surrogates (t : text) : text :=
  match t with
  | hi :: t' =>
      match t' with
      | lo :: t'' =>
          if (55296 <=? hi) && (hi <=? 56319) && (56320 <=? lo) && (lo <=? 57343)
          then (65536 + Z.lor (Z.shiftl (hi - 55296) 10) (lo - 56320))
               :: join_surrogates t''
          else hi :: join_surrogates t'
      | [] => t
      end
  | [] => []
  end.

(** [scanstring] *)
Definition scan_string (s : string) : option (text * string) :=
  '(t, r) ← scan_units s; Some (join_surrogates t, r).

(** [scan_once], [JSONArray] and [JSONObject]; [fuel] bounds the nesting and
    the number of members, and [None] stands for [JSONDecodeError]. *)
Fixpoint scan_once (fuel : nat) (s : string) : option (pyval * string) :=
  match fuel with
  | O => None
  | S fuel' =>
      match s with
      | EmptyString => None
      | String a s' =>
          if Ascii.eqb a dq then
            '(t, r) ← scan_string s'; Some (PStr t, r)
          else if Ascii.eqb a "{" then
            match skip_ws s' with
            | String b r =>
                if Ascii.eqb b "}" then Some (PDict [], r)
                else '(kvs, r') ← scan_members fuel' (String b r);
                     Some (PDict (dict_update [] kvs), r')
            | EmptyString => None
            end
          else if Ascii.eqb a "[" then
            match skip_ws s' with
            | String b r =>
                if Ascii.eqb b "]" then Some (PList [], r)
                else '(vs, r') ← scan_elements fuel' (String b r);
                     Some (PList vs, r')
            | EmptyString => None
            end
          else
            match strip_prefix "null" s, strip_prefix "true" s,
                  strip_prefix "false" s with
            | Some r, _, _ => Some (PNone, r)
            | _, Some r, _ => Some (PBool true, r)
            | _, _, Some r => Some (PBool false, r)
            | _, _, _ =>
                match scan_number s with
                | Some res => Some res
                | None =>
                    match strip_prefix "NaN" s, strip_prefix "Infinity" s,
                          strip_prefix "-Infinity" s with
                    | Some r, _, _ => Some (PFloat FNan, r)
                    | _, Some r, _ => Some (PFloat (FInf false), r)
                    | _, _, Some r => Some (PFloat (FInf true), r)
                    | _, _, _ => None
                    end
                end
            end
      end
  end
with scan_elements (fuel : nat) (s : string) : option (list pyval * string) :=
  match fuel with
  | O => None
  | S fuel' =>
      '(v, r) ← scan_once fuel' s;
      match skip_ws r with
      | String a r' =>
          if Ascii.eqb a "]" then Some ([v], r')
          else if Ascii.eqb a "," then
            '(vs, r'') ← scan_elements fuel' (skip_ws r');
            Some (v :: vs, r'')
          else None
      | EmptyString => None
      end
  end
with scan_members (fuel : nat) (s : string) :
    option (list (text * pyval) * string) :=
  match fuel with
  | O => None
  | S fuel' =>
      match s with
      | String q s' =>
          if Ascii.eqb q dq then
            '(k, r) ← scan_string s';
            match skip_ws r with
            | String c r1 =>
                if Ascii.eqb c ":" then
                  '(v, r2) ← scan_once fuel' (skip_ws r1);
                  match skip_ws r2 with
                  | String a r3 =>
                      if Ascii.eqb a "}" then Some ([(k, v)], r3)
                      else if Ascii.eqb a "," then
                        '(kvs, r4) ← scan_members fuel' (skip_ws r3);
                        Some ((k, v) :: kvs, r4)
                      else None
                  | EmptyString => None
                  end
                else None
            | EmptyString => None
            end
          else None
      | EmptyString => None
      end
  end.

(** [json.loads(s)]: one value, white space around it, nothing else. *)
Definition json_loads (s : string) : result pyval :=
  match scan_once (S (String.length s)) (skip_ws s) with
  | Some (v, r) =>
      match skip_ws r with
      | EmptyString => inr v
      | String _ _ => inl JSONDecodeError
      end
  | None => inl JSONDecodeError
  end.

Example json_loads_array :
  json_loads "[[0, 0.5], [1e-05, -10], [NaN, -Infinity], []]"
  = inr (PList [PList [PInt 0; PFloat (FRepr "0.5")];
                PList [PFloat (FRepr "1e-05"); PInt (-10)];
                PList [PFloat FNan; PFloat (FInf true)]; PList []]).
Proof. reflexivity. Qed.

Example json_loads_object :
  json_loads ("{" +:+ json_quote (txt "a") +:+ ": [true, null], "
              +:+ json_quote (txt "b") +:+ " : "
              +:+ String dq ("\u00e9\ud83d\ude00\n" +:+ String dq " }"))
  = inr (PDict [(txt "a", PList [PBool true; PNone]);
                (txt "b", PStr [233; 128512; 10])]).
Proof. reflexivity. Qed.

Example json_loads_refuses :
  json_loads "[1,]" = inl JSONDecodeError ∧ json_loads "01" = inl JSONDecodeError
  ∧ json_loads "[1] 2" = inl JSONDecodeError.
Proof. repeat split; reflexivity. Qed.

(** [v[i]] for the literal indices of the module. *)
Definition getitem (v : pyval) (i : nat) : result pyval :=
  match v with
  | PList l =>
      match l !! i with
      | Some x => inr x
      | None => inl IndexError
      end
  | PStr t =>
      match t !! i with
      | Some c => inr (PStr [c])
      | None => inl IndexError
      end
  | _ => inl (TypeError "object is not subscriptable")
  end.

(** ** WmsTileLayer *)

Module WmsTileLayer.

Record args := {
  url : text;
  name : option text;
  attr : pyval;
  overlay : bool;
  control : bool;
  kwargs : list (text * pyval);
}.

Section Init.
Variable rt : runtime.

(** [folium.utilities._parse_wms], which is not among the sources: it turns
    the keyword arguments into the options dictionary. *)
Variable _parse_wms : list (text * pyval) → result (list (text * pyval)).

(** The dictionary that is serialised: lines 156-157. *)
Definition options (a : args) : result pyval :=
  o ← _parse_wms (kwargs a);
  mret (PDict (dict_update o [(txt "attribution", attr a)])).

(** [WmsTileLayer.__init__], lines 152-169. *)
Definition __init__ (a : args) : M unit :=
  Layer_init (name a) (overlay a) (control a) ;;
  setattr "url" (PStr (url a)) ;;
  o ← call "_parse_wms" [PDict (kwargs a)] (_parse_wms (kwargs a)) ;
  let o' := dict_update o [(txt "attribution", attr a)] in
  s ← lift (json_dumps rt sorted_indent2 (PDict o')) ;
  setattr "options" (PStr (txt s)) ;;
  setattr "_template" (PHost "Template").

Definition new (a : args) : result (gmap string pyval) :=
  match __init__ a fresh with
  | (inl e, _) => inl e
  | (inr _, s) => inr (attrs s)
  end.

End Init.
End WmsTileLayer.

(** ** The document a layer is rendered into *)

(** The root of the element tree ([self.get_root()]): whether it is a
    [branca.element.Figure], and the children of its [header] and [script]
    sections by name, in order. *)
Record document := {
  is_figure : bool;
  header : list (text * text);
  script : list (text * text);
}.

Definition not_in_figure : string :=
  "You cannot render this Element if it is not in a Figure.".

(** [section.add_child(Element(body), name=name)]: the children are an
    ordered dictionary, so a second child of the same name takes the place
    of the first. *)
Definition add_child (name body : text) (children : list (text * text)) :
    list (text * text) :=
  dict_set name body children.

(** [branca.element.MacroElement.render] for a layer without children whose
    template has the [script] macro only: the rendered macro becomes a child
    of the figure's script section under the name of the layer. *)
Definition MacroElement_render (this body : text) (root : document) :
    result document :=
  if is_figure root
  then inr {| is_figure := true; header := header root;
              script := add_child this body (script root) |}
  else inl (AssertionError not_in_figure).

(** ** ImageOverlay *)

Module ImageOverlay.

Record args := {
  image : pyval;
  bounds : pyval;
  origin : pyval;
  colormap : pyval;
  mercator_project : bool;
  overlay : bool;
  control : bool;
  pixelated : bool;
  name : option text;
  kwargs : list (text * pyval);
}.

(** The dictionary of lines 216-224; each [pop] takes its key out of
    [kwargs]. *)
Definition options (kw : list (text * pyval)) : pyval :=
  let '(opacity, kw) := dict_pop (txt "opacity") (PFloat (FRepr "1.0")) kw in
  let '(alt, kw) := dict_pop (txt "alt") (PStr []) kw in
  let '(interactive, kw) := dict_pop (txt "interactive") (PBool false) kw in
  let '(cross_origin, kw) := dict_pop (txt "cross_origin") (PBool false) kw in
  let '(error_overlay_url, kw) := dict_pop (txt "error_overlay_url") (PStr []) kw in
  let '(zindex, kw) := dict_pop (txt "zindex") (PInt 1) kw in
  let '(class_name, kw) := dict_pop (txt "class_name") (PStr []) kw in
  PDict [(txt "opacity", opacity);
         (txt "alt", alt);
         (txt "interactive", interactive);
         (txt "crossOrigin", cross_origin);
         (txt "errorOverlayUrl", error_overlay_url);
         (txt "zIndex", zindex);
         (txt "className", class_name)].

(** The style sheet of lines 255-264. *)
Definition pixelated_css : text :=
  txt ("<style>" +:+ String nl
    "        .leaflet-image-layer {" +:+ String nl
    "        image-rendering: -webkit-optimize-contrast; /* old android/safari*/" +:+ String nl
    "        image-rendering: crisp-edges; /* safari */" +:+ String nl
    "        image-rendering: pixelated; /* chrome */" +:+ String nl
    "        image-rendering: -moz-crisp-edges; /* firefox */" +:+ String nl
    "        image-rendering: -o-crisp-edges; /* opera */" +:+ String nl
    "        -ms-interpolation-mode: nearest-neighbor; /* ie */" +:+ String nl
    "        }" +:+ String nl
    "        </style>").

Definition css_key : text := txt "leaflet-image-layer".

Section Init.
Variable rt : runtime.

(** [folium.utilities.mercator_transform(data, lat_bounds, origin=...)] and
    [folium.utilities.image_to_url(image, colormap=..., origin=...)], which
    are not among the sources. *)
Variable mercator_transform : pyval → pyval → pyval → result pyval.
Variable image_to_url : pyval → pyval → pyval → result text.

(** [ImageOverlay.__init__], lines 211-247. *)
Definition __init__ (a : args) : M unit :=
  Layer_init (name a) (overlay a) (control a) ;;
  let options := options (kwargs a) in
  setattr "_name" (PStr (txt "ImageOverlay")) ;;
  setattr "pixelated" (PBool (pixelated a)) ;;
  image ←
    (if mercator_project a then
       b0 ← lift (getitem (bounds a) 0) ;
       lat0 ← lift (getitem b0 0) ;
       b1 ← lift (getitem (bounds a) 1) ;
       lat1 ← lift (getitem b1 0) ;
       call "mercator_transform" [image a; PList [lat0; lat1]; origin a]
         (mercator_transform (image a) (PList [lat0; lat1]) (origin a))
     else mret (image a)) ;
  url ← call "image_to_url" [image; origin a; colormap a]
          (image_to_url image (origin a) (colormap a)) ;
  setattr "url" (PStr url) ;;
  s ← lift (json_dumps rt plain (bounds a)) ;
  b ← lift (json_loads s) ;
  setattr "bounds" b ;;
  o ← lift (json_dumps rt sorted_indent2 options) ;
  setattr "options" (PStr (txt o)) ;;
  setattr "_template" (PHost "Template").

Definition new (a : args) : result (gmap string pyval) :=
  match __init__ a fresh with
  | (inl e, _) => inl e
  | (inr _, s) => inr (attrs s)
  end.

End Init.

Section Render.

(** The templating engine applied to the [script] macro of lines 239-247
    and the fields of the layer. *)
Variable script_macro : gmap string pyval → text.

(** [ImageOverlay.render], lines 249-267, on the root of the tree the layer
    hangs in; [this] is [self.get_name()]. *)
Definition render (self : gmap string pyval) (this : text) (root : document) :
    result document :=
  figure ← MacroElement_render this (script_macro self) root ;
  if negb (is_figure figure) then inl (AssertionError not_in_figure)
  else
    match self !! "pixelated" with
    | None => inl (AttributeError "pixelated")
    | Some p =>
        if truthy p
        then inr {| is_figure := is_figure figure;
                    header := add_child css_key pixelated_css (header figure);
                    script := script figure |}
        else inr figure
    end.

(** [self._get_self_bounds()], lines 269-275. *)
Definition _get_self_bounds (self : gmap string pyval) : result pyval :=
  match self !! "bounds" with
  | Some b => inr b
  | None => inl (AttributeError "bounds")
  end.

End Render.
End ImageOverlay.

(** ** VideoOverlay *)

Module VideoOverlay.

Record args := {
  video_url : text;
  bounds : pyval;
  opacity : pyval;
  attr : pyval;
  autoplay : bool;
  loop : bool;
}.

(** [VideoOverlay(video_url, bounds)]: the other arguments at their
    defaults. *)
Definition defaults (video_url : text) (bounds : pyval) : args := {|
  video_url := video_url;
  bounds := bounds;
  opacity := PFloat (FRepr "1.0");
  attr := PNone;
  autoplay := true;
  loop := true;
|}.

(** The dictionary of lines 300-305. *)
Definition options (a : args) : pyval :=
  PDict [(txt "opacity", opacity a);
         (txt "attribution", attr a);
         (txt "loop", PBool (loop a));
         (txt "autoplay", PBool (autoplay a))].

Section Init.
Variable rt : runtime.

(** [VideoOverlay.__init__], lines 292-316. *)
Definition __init__ (a : args) : M unit :=
  Layer_init None false true ;;
  setattr "_name" (PStr (txt "VideoOverlay")) ;;
  setattr "video_url" (PStr (video_url a)) ;;
  s ← lift (json_dumps rt plain (bounds a)) ;
  b ← lift (json_loads s) ;
  setattr "bounds" b ;;
  o ← lift (json_dumps rt plain (options a)) ;
  setattr "options" (PStr (txt o)) ;;
  setattr "_template" (PHost "Template").

Definition new (a : args) : result (gmap string pyval) :=
  match __init__ a fresh with
  | (inl e, _) => inl e
  | (inr _, s) => inr (attrs s)
  end.

End Init.

(** [self._get_self_bounds()], lines 318-324. *)
Definition _get_self_bounds (self : gmap string pyval) : result pyval :=
  match self !! "bounds" with
  | Some b => inr b
  | None => inl (AttributeError "bounds")
  end.

End VideoOverlay.

Example VideoOverlay_scenario :
  lookup_attr (VideoOverlay.new py3
     (VideoOverlay.defaults (txt "a.mp4")
        (PList [PList [PInt 0; PInt 0]; PList [PInt 1; PInt 1]]))) "options"
  = Some (PStr (txt ("{" +:+ json_quote (txt "opacity") +:+ ": 1.0, "
                     +:+ json_quote (txt "attribution") +:+ ": null, "
                     +:+ json_quote (txt "loop") +:+ ": true, "
                     +:+ json_quote (txt "autoplay") +:+ ": true}"))).
Proof. vm_compute. reflexivity. Qed.

(** * Properties *)

(** ** Provider names are compared without regard to case and white space *)

Definition ascii_upper (c : Z) : Z :=
  if (97 <=? c) && (c <=? 122) then c - 32 else c.

Lemma lower_cp_upper rt c : lower_cp rt (ascii_upper c) = lower_cp rt c.
Proof.
  unfold lower_cp, ascii_upper.
  destruct ((97 <=? c) && (c <=? 122)) eqn:E; [|done].
  replace ((65 <=? c - 32) && (c - 32 <=? 90)) with true by lia.
  replace ((65 <=? c) && (c <=? 90)) with false by lia.
  replace (c <? 128) with true by lia. f_equal. lia.
Qed.

Lemma normalize_upper rt tiles :
  normalize rt (ascii_upper <$> tiles) = normalize rt tiles.
Proof.
  rewrite !normalize_no_space. f_equal. unfold str_lower.
  induction tiles as [|c t IH]; [done|].
  rewrite fmap_cons. cbn [flat_map]. by rewrite lower_cp_upper, IH.
Qed.

Lemma normalize_spaces rt tiles pad :
  forallb (is_space rt) (str_lower rt pad) = true →
  normalize rt (pad ++ tiles) = normalize rt tiles
  ∧ normalize rt (tiles ++ pad) = normalize rt tiles.
Proof.
  intros Hpad. rewrite !normalize_no_space. unfold str_lower in *.
  rewrite !flat_map_app. unfold no_space. rewrite !List.filter_app.
  assert (List.filter (λ c, negb (is_space rt c)) (flat_map (lower_cp rt) pad) = [])
    as ->.
  { induction (flat_map (lower_cp rt) pad) as [|c l IH]; simpl in *; [done|].
    apply andb_prop in Hpad as [-> ?]. simpl. auto. }
  by rewrite app_nil_r.
Qed.

(** ** The template registry *)

Lemma find_template_elem l name :
  name ∈ (fst <$> l) → ∃ t, find_template l name = Some t ∧ (name, t) ∈ l.
Proof.
  induction l as [|[n t] l IH]; simpl.
  - intros H. inversion H.
  - intros H. destruct (decide (n = name)) as [->|Hne].
    + exists t. split; [done|]. left.
    + apply elem_of_cons in H as [H|H]; [simpl in H; congruence|].
      destruct (IH H) as (t' & ? & ?). exists t'. split; [done|]. by right.
Qed.

Lemma templates_elem env n :
  n ∈ TileLayer.templates env → n ∈ (fst <$> loader env).
Proof.
  unfold TileLayer.templates, list_templates. rewrite !list_elem_of_In.
  intros H. apply List.filter_In in H. tauto.
Qed.

Lemma built_in_templates env t :
  TileLayer.built_in env t = true →
  ∃ tt at_,
    get_template env (TileLayer.tile_template t) = inr tt
    ∧ (TileLayer.tile_template t, tt) ∈ loader env
    ∧ get_template env (TileLayer.attr_template t) = inr at_
    ∧ (TileLayer.attr_template t, at_) ∈ loader env.
Proof.
  unfold TileLayer.built_in. intros H. apply andb_prop in H as [H1 H2].
  apply bool_decide_eq_true in H1, H2.
  apply templates_elem, find_template_elem in H1 as (tt & E1 & ?).
  apply templates_elem, find_template_elem in H2 as (at_ & E2 & ?).
  exists tt, at_. unfold get_template. by rewrite E1, E2.
Qed.

(** Every registered template renders to some text, whatever the context. *)
Definition nonempty_templates (env : environment) : Prop :=
  ∀ name t ctx, (name, t) ∈ loader env → t ctx ≠ [].

Ltac run_init :=
  cbv [TileLayer.new TileLayer.__init__ TileLayer.decode_attr
       WmsTileLayer.new WmsTileLayer.__init__
       ImageOverlay.new ImageOverlay.__init__
       VideoOverlay.new VideoOverlay.__init__
       mbind M_bind mret M_ret setattr lift raise call Layer_init fresh
       attrs calls].

Ltac case_results :=
  repeat match goal with
    | |- context [match ?r with inl _ => _ | inr _ => _ end] => destruct r
    end.

Ltac run_cases :=
  repeat match goal with
    | |- context [match ?r with inl _ => _ | inr _ => _ end] => destruct r eqn:?
    | |- context [match ?o with Some _ => _ | None => _ end] => destruct o eqn:?
    | |- context [if ?b then _ else _] => destruct b eqn:?
    end.

Ltac end_run :=
  intros ?; simplify_eq; cbn [attrs];
  first
    [ done
    | by simplify_map_eq
    | by (repeat (apply Forall_cons; split; [by simplify_map_eq|]);
          apply Forall_nil) ].

(** ** C1 *)

(** C1.  A tiles string is looked up by its normal form, which is its
    lower-cased text with the white space removed, so that the case of its
    ASCII letters does not matter.  When the normal form is a built-in
    provider, a construction without an API key raises the configuration
    error exactly when the normal form is one of the key-gated names
    ['cloudmade'] and ['mapbox']; for every other built-in provider it
    succeeds and leaves a non-empty URL template in [tiles] and a non-empty
    attribution in [attr].  The options are taken to be JSON-serialisable
    and the registered templates to render to some text. *)
Theorem TileLayer_api_key_gate rt env (a : TileLayer.args) :
  TileLayer.built_in env (normalize rt (TileLayer.tiles a)) = true →
  truthy (TileLayer.API_key a) = false →
  (∃ s, json_dumps rt sorted_indent2 (TileLayer.options a) = inr s) →
  nonempty_templates env →
  normalize rt (TileLayer.tiles a) = no_space rt (str_lower rt (TileLayer.tiles a))
  ∧ normalize rt (ascii_upper <$> TileLayer.tiles a)
    = normalize rt (TileLayer.tiles a)
  ∧ ((∃ e, TileLayer.new rt env a = inl e)
     ↔ TileLayer.key_gated (normalize rt (TileLayer.tiles a)) = true)
  ∧ (TileLayer.key_gated (normalize rt (TileLayer.tiles a)) = true →
     TileLayer.new rt env a = inl (ValueError TileLayer.api_key_required))
  ∧ (TileLayer.key_gated (normalize rt (TileLayer.tiles a)) = false →
     ∃ o url attribution,
       TileLayer.new rt env a = inr o
       ∧ o !! "tiles" = Some (PStr url) ∧ url ≠ []
       ∧ o !! "attr" = Some (PStr attribution) ∧ attribution ≠ []).
Proof.
  intros Hb Hk [s Hs] Hne.
  destruct (built_in_templates _ _ Hb) as (tt & at_ & Ht & Htin & Ha & Hain).
  assert (Hgated : TileLayer.key_gated (normalize rt (TileLayer.tiles a)) = true →
            TileLayer.new rt env a = inl (ValueError TileLayer.api_key_required)).
  { intros Hg. run_init. by rewrite Hs, Hg, Hk. }
  assert (Hfree : TileLayer.key_gated (normalize rt (TileLayer.tiles a)) = false →
            ∃ o url attribution,
              TileLayer.new rt env a = inr o
              ∧ o !! "tiles" = Some (PStr url) ∧ url ≠ []
              ∧ o !! "attr" = Some (PStr attribution) ∧ attribution ≠ []).
  { intros Hg. run_init. rewrite Hs, Hg, Hb, Ht, Ha. cbn [andb].
    eexists _, _, _. split; [reflexivity|].
    split; [by simplify_map_eq|]. split; [by eapply Hne|].
    split; [by simplify_map_eq|]. by eapply Hne. }
  split; [apply normalize_no_space|]. split; [apply normalize_upper|].
  split; [|done].
  split.
  - intros [e He].
    destruct (TileLayer.key_gated (normalize rt (TileLayer.tiles a))) eqn:Hg; [done|].
    destruct (Hfree eq_refl) as (o & ? & ? & Ho & _). congruence.
  - intros Hg. eexists. by apply Hgated.
Qed.

(** ** What of the options can fail to serialise *)

Lemma json_encode_subdomains rt cfg level s :
  ∃ out, json_encode rt cfg level (TileLayer.subdomains_val s) = inr out.
Proof.
  destruct s as [t|l]; simpl TileLayer.subdomains_val; [by eexists|].
  rewrite json_encode_list, <- list_fmap_compose.
  assert (json_encode rt cfg (S level) ∘ PStr <$> l = inr <$> (json_quote <$> l)) as ->.
  { by rewrite <- list_fmap_compose. }
  rewrite collect_inr. by eexists.
Qed.

(** The options of a [TileLayer] serialise as soon as [attr] does. *)
Lemma TileLayer_options_serialise rt a sa :
  json_encode rt sorted_indent2 1 (TileLayer.attr a) = inr sa →
  ∃ s, json_dumps rt sorted_indent2 (TileLayer.options a) = inr s.
Proof.
  intros Ha. unfold json_dumps, TileLayer.options.
  destruct (json_encode_subdomains rt sorted_indent2 1 (TileLayer.subdomains a))
    as [ss Hss].
  rewrite json_encode_dict.
  cbn [fmap list_fmap prod_map id fst snd sort_keys sorted_indent2].
  rewrite Ha, Hss.
  destruct (TileLayer.no_wrap a), (TileLayer.detect_retina a);
    vm_compute py_sorted; by eexists.
Qed.

(** ** C2 *)

(** The key-gated providers are providers of the registry. *)
Definition gated_registered (env : environment) : Prop :=
  TileLayer.built_in env (txt "cloudmade") = true
  ∧ TileLayer.built_in env (txt "mapbox") = true.

Lemma custom_not_gated env t :
  gated_registered env → TileLayer.built_in env t = false →
  TileLayer.key_gated t = false.
Proof.
  intros [Hc Hm] Hb. unfold TileLayer.key_gated.
  destruct (bool_decide (t = txt "cloudmade")) eqn:E1.
  { apply bool_decide_eq_true in E1. congruence. }
  destruct (bool_decide (t = txt "mapbox")) eqn:E2; [|done].
  apply bool_decide_eq_true in E2. congruence.
Qed.

(** A custom tiles URL with a byte-string attribution. *)
Definition custom_tiles (attr : pyval) : TileLayer.args := {|
  TileLayer.tiles := txt "http://{s}.yourtiles.com/{z}/{x}/{y}.png";
  TileLayer.min_zoom := 1;
  TileLayer.max_zoom := 18;
  TileLayer.attr := attr;
  TileLayer.API_key := PNone;
  TileLayer.detect_retina := false;
  TileLayer.name := None;
  TileLayer.overlay := false;
  TileLayer.control := true;
  TileLayer.no_wrap := false;
  TileLayer.subdomains := TileLayer.Subdomains (txt "abc");
|}.

(** C2, as stated, fails: the byte string [b'\xff'] is an attribution for a
    custom tiles URL, and the construction does not succeed with it on
    either interpreter (it is not UTF-8). *)
Lemma TileLayer_bytes_attribution_refused :
  TileLayer.built_in sample_env
    (normalize py3 (TileLayer.tiles (custom_tiles (PBytes [xff])))) = false
  ∧ TileLayer.new py3 sample_env (custom_tiles (PBytes [xff]))
    = inl (TypeError "Object of type bytes is not JSON serializable")
  ∧ TileLayer.new py2 sample_env (custom_tiles (PBytes [xff]))
    = inl UnicodeDecodeError.
Proof. vm_compute. repeat split; reflexivity. Qed.

(** C2, amended.  For a tiles string that is not a built-in provider of a
    registry holding the key-gated ones: without an attribution ([None], the
    empty text, or the empty byte string under Python 2) the construction
    raises the configuration error; a non-empty text attribution is kept; a
    non-empty byte string that is valid UTF-8 is, under Python 2, decoded
    into the text whose UTF-8 encoding is that very byte string, the tiles
    string being kept as the URL template; and with a byte string that is not
    valid UTF-8 the construction fails. *)
Theorem TileLayer_custom_attribution rt env (a : TileLayer.args) :
  gated_registered env →
  TileLayer.built_in env (normalize rt (TileLayer.tiles a)) = false →
  (TileLayer.attr a = PNone ∨ TileLayer.attr a = PStr []
   ∨ (TileLayer.attr a = PBytes [] ∧ rt_version rt = Python2) →
   TileLayer.new rt env a = inl (ValueError TileLayer.attribution_required))
  ∧ (∀ t, TileLayer.attr a = PStr t → t ≠ [] →
       ∃ o, TileLayer.new rt env a = inr o
            ∧ o !! "attr" = Some (PStr t)
            ∧ o !! "tiles" = Some (PStr (TileLayer.tiles a)))
  ∧ (∀ b t, TileLayer.attr a = PBytes b → b ≠ [] →
       rt_version rt = Python2 →
       utf8_decode (rt_surrogates rt) b = Some t →
       ∃ o, TileLayer.new rt env a = inr o
            ∧ o !! "attr" = Some (PStr t) ∧ utf8_encode t = b
            ∧ o !! "tiles" = Some (PStr (TileLayer.tiles a)))
  ∧ (∀ b, TileLayer.attr a = PBytes b →
       utf8_decode (rt_surrogates rt) b = None →
       ∃ e, TileLayer.new rt env a = inl e).
Proof.
  intros Hreg Hb. pose proof (custom_not_gated _ _ Hreg Hb) as Hg.
  repeat split.
  - intros Hattr.
    assert (∃ sa, json_encode rt sorted_indent2 1 (TileLayer.attr a) = inr sa
                  ∧ truthy (TileLayer.attr a) = false) as (sa & Hsa & Htr).
    { destruct Hattr as [-> | [-> | [-> Hv]]]; simpl; [by eexists..|].
      unfold encode_bytes. rewrite Hv. simpl. by eexists. }
    destruct (TileLayer_options_serialise _ _ _ Hsa) as [s Hs].
    run_init. by rewrite Hs, Hg, Hb, Htr.
  - intros t Hattr Hne.
    assert (json_encode rt sorted_indent2 1 (TileLayer.attr a)
            = inr (json_quote t)) as Hsa by (by rewrite Hattr).
    destruct (TileLayer_options_serialise _ _ _ Hsa) as [s Hs].
    run_init. rewrite Hs, Hg, Hb, Hattr.
    assert (truthy (PStr t) = true) as -> by (by destruct t).
    cbn [andb negb]. eexists. split; [reflexivity|].
    split; by simplify_map_eq.
  - intros b t Hattr Hne Hv Hdec.
    assert (json_encode rt sorted_indent2 1 (TileLayer.attr a)
            = inr (json_quote t)) as Hsa.
    { rewrite Hattr. simpl. unfold encode_bytes. by rewrite Hv, Hdec. }
    destruct (TileLayer_options_serialise _ _ _ Hsa) as [s Hs].
    run_init. rewrite Hs, Hg, Hb, Hattr, Hdec.
    assert (truthy (PBytes b) = true) as -> by (by destruct b).
    cbn [andb negb]. eexists. split; [reflexivity|].
    split; [by simplify_map_eq|].
    split; [by eapply utf8_encode_decode|by simplify_map_eq].
  - intros b Hattr Hdec. run_init.
    destruct (json_dumps rt sorted_indent2 (TileLayer.options a)) as [e|s] eqn:Hs;
      [by eexists|].
    rewrite Hg, Hb, Hattr, Hdec. cbn [andb].
    destruct (negb (truthy (PBytes b))); by eexists.
Qed.

(** ** C3 *)

(** C3.  When [mercator_project] is set, the first collaborator called is
    [mercator_transform], with the image, the latitude extent
    [[bounds[0][0], bounds[1][0]]] and the origin; only then is
    [image_to_url] called, with the reprojected image and the origin and
    colormap as given, and its result becomes [url].  When it is not set,
    [image_to_url] is the only call and receives the image as given. *)
Theorem ImageOverlay_image_resolution rt mercator_transform image_to_url
    (a : ImageOverlay.args) lat0 row0 lat1 row1 rest :
  ImageOverlay.bounds a
  = PList (PList (lat0 :: row0) :: PList (lat1 :: row1) :: rest) →
  let run := ImageOverlay.__init__ rt mercator_transform image_to_url a fresh in
  let extent := PList [lat0; lat1] in
  let origin := ImageOverlay.origin a in
  let colormap := ImageOverlay.colormap a in
  let to_url image :=
    match image_to_url image origin colormap with
    | inl e => run.1 = inl e
    | inr url => attrs run.2 !! "url" = Some (PStr url)
    end in
  if ImageOverlay.mercator_project a then
    match mercator_transform (ImageOverlay.image a) extent origin with
    | inl e =>
        run.1 = inl e
        ∧ calls run.2
          = [Called "mercator_transform" [ImageOverlay.image a; extent; origin]]
    | inr reprojected =>
        calls run.2
        = [Called "mercator_transform" [ImageOverlay.image a; extent; origin];
           Called "image_to_url" [reprojected; origin; colormap]]
        ∧ to_url reprojected
    end
  else
    calls run.2
    = [Called "image_to_url" [ImageOverlay.image a; origin; colormap]]
    ∧ to_url (ImageOverlay.image a).
Proof.
  intros Hbounds. cbv zeta. run_init. rewrite Hbounds.
  destruct (ImageOverlay.mercator_project a);
    cbn [getitem lookup list_lookup]; case_results; cbn [fst snd app];
    repeat split; try done; by simplify_map_eq.
Qed.

(** ** Reading back what [json.dumps] writes: numbers *)

#[local] Arguments String.append !_ _ / : simpl nomatch.
#[local] Arguments is_digit : simpl never.
#[local] Arguments Ascii.eqb : simpl never.

Lemma string_app_assoc (s1 s2 s3 : string) :
  (s1 +:+ s2) +:+ s3 = s1 +:+ (s2 +:+ s3).
Proof. induction s1 as [|a s1 IH]; simpl; [done|]. by rewrite IH. Qed.

Lemma string_app_nil_r (s : string) : s +:+ "" = s.
Proof. induction s as [|a s IH]; simpl; [done|]. by rewrite IH. Qed.

Lemma string_length_app (s1 s2 : string) :
  String.length (s1 +:+ s2) = (String.length s1 + String.length s2)%nat.
Proof. induction s1 as [|a s1 IH]; simpl; [done|]. by rewrite IH. Qed.

(** What may follow a number: the end of the text, or a character that
    cannot continue a number token. *)
Definition delimited (rest : string) : bool :=
  match rest with
  | EmptyString => true
  | String c _ =>
      negb (is_digit c || Ascii.eqb c "." || Ascii.eqb c "e" || Ascii.eqb c "E"
            || Ascii.eqb c "+" || Ascii.eqb c "-")
  end.

Lemma delimited_head c rest :
  delimited (String c rest) = true →
  is_digit c = false ∧ Ascii.eqb c "." = false ∧ Ascii.eqb c "e" = false
  ∧ Ascii.eqb c "E" = false ∧ Ascii.eqb c "+" = false ∧ Ascii.eqb c "-" = false.
Proof.
  simpl. intros H. apply negb_true_iff in H.
  repeat (apply orb_false_elim in H as [H ?]). done.
Qed.

Lemma span_digits_app s rest ds r :
  span_digits s = (ds, r) → delimited rest = true →
  span_digits (s +:+ rest) = (ds, r +:+ rest).
Proof.
  intros Hs Hrest. revert ds r Hs.
  induction s as [|a s IH]; intros ds r; simpl.
  - intros [= <- <-]. destruct rest as [|c rest]; [done|].
    apply delimited_head in Hrest as (Hd & Hdot & He & HE & Hplus & Hminus).
    simpl. by rewrite ?Hd, ?Hdot, ?He, ?HE, ?Hplus, ?Hminus.
  - destruct (is_digit a).
    + destruct (span_digits s) as [ds' r'] eqn:E. intros [= <- <-].
      by rewrite (IH _ _ eq_refl).
    + by intros [= <- <-].
Qed.

Lemma scan_digits1_app s rest ds r :
  scan_digits1 s = Some (ds, r) → delimited rest = true →
  scan_digits1 (s +:+ rest) = Some (ds, r +:+ rest).
Proof.
  intros Hs Hrest. destruct s as [|a s]; [done|]. simpl in *.
  destruct (Ascii.eqb a "0"); [by injection Hs as <- <-|].
  destruct (is_digit a); [|done].
  destruct (span_digits s) as [ds' r'] eqn:E. injection Hs as <- <-.
  by rewrite (span_digits_app _ _ _ _ E Hrest).
Qed.

Lemma scan_integer_app s rest tok r :
  scan_integer s = Some (tok, r) → delimited rest = true →
  scan_integer (s +:+ rest) = Some (tok, r +:+ rest).
Proof.
  intros Hs Hrest. destruct s as [|a s]; [done|].
  change (String a s +:+ rest) with (String a (s +:+ rest)).
  unfold scan_integer in *. destruct (Ascii.eqb a "-").
  - destruct (scan_digits1 s) as [[ds r']|] eqn:E; [|done].
    simpl in Hs. injection Hs as <- <-.
    by rewrite (scan_digits1_app _ _ _ _ E Hrest).
  - by apply (scan_digits1_app (String a s)).
Qed.

Lemma scan_frac_app s rest tok r :
  scan_frac s = (tok, r) → delimited rest = true →
  scan_frac (s +:+ rest) = (tok, r +:+ rest).
Proof.
  intros Hs Hrest. destruct s as [|a s]; simpl in *.
  - injection Hs as <- <-. destruct rest as [|c rest]; [done|].
    apply delimited_head in Hrest as (Hd & Hdot & He & HE & Hplus & Hminus).
    simpl. by rewrite ?Hd, ?Hdot, ?He, ?HE, ?Hplus, ?Hminus.
  - destruct (Ascii.eqb a "."); [|by injection Hs as <- <-].
    destruct (span_digits s) as [ds r'] eqn:E.
    rewrite (span_digits_app _ _ _ _ E Hrest).
    destruct (nonempty ds); by injection Hs as <- <-.
Qed.

Lemma scan_sign_app s rest tok r :
  scan_sign s = (tok, r) → delimited rest = true →
  scan_sign (s +:+ rest) = (tok, r +:+ rest).
Proof.
  intros Hs Hrest. destruct s as [|a s]; simpl in *.
  - injection Hs as <- <-. destruct rest as [|c rest]; [done|].
    apply delimited_head in Hrest as (Hd & Hdot & He & HE & Hplus & Hminus).
    simpl. by rewrite ?Hd, ?Hdot, ?He, ?HE, ?Hplus, ?Hminus.
  - destruct (Ascii.eqb a "-" || Ascii.eqb a "+"); by injection Hs as <- <-.
Qed.

Lemma scan_exp_app s rest tok r :
  scan_exp s = (tok, r) → delimited rest = true →
  scan_exp (s +:+ rest) = (tok, r +:+ rest).
Proof.
  intros Hs Hrest. destruct s as [|a s]; simpl in *.
  - injection Hs as <- <-. destruct rest as [|c rest]; [done|].
    apply delimited_head in Hrest as (Hd & Hdot & He & HE & Hplus & Hminus).
    simpl. by rewrite ?Hd, ?Hdot, ?He, ?HE, ?Hplus, ?Hminus.
  - destruct (Ascii.eqb a "e" || Ascii.eqb a "E"); [|by injection Hs as <- <-].
    destruct (scan_sign s) as [sg r1] eqn:E1.
    rewrite (scan_sign_app _ _ _ _ E1 Hrest).
    destruct (span_digits r1) as [ds r2] eqn:E2.
    rewrite (span_digits_app _ _ _ _ E2 Hrest).
    destruct (nonempty ds); by injection Hs as <- <-.
Qed.

(** A number token is read the same way whatever delimiter follows it. *)
Lemma scan_number_app s rest v r :
  scan_number s = Some (v, r) → delimited rest = true →
  scan_number (s +:+ rest) = Some (v, r +:+ rest).
Proof.
  intros Hs Hrest. unfold scan_number in *.
  destruct (scan_integer s) as [[int r1]|] eqn:E1; [|done].
  rewrite (scan_integer_app _ _ _ _ E1 Hrest). simpl in *.
  destruct (scan_frac r1) as [frac r2] eqn:E2.
  rewrite (scan_frac_app _ _ _ _ E2 Hrest).
  destruct (scan_exp r2) as [exp r3] eqn:E3.
  rewrite (scan_exp_app _ _ _ _ E3 Hrest).
  destruct (nonempty frac || nonempty exp); [by injection Hs as <- <-|].
  destruct (Z_of_string int); [|done]. simpl in *. by injection Hs as <- <-.
Qed.

(** The digits of a decimal numeral are digits. *)
Lemma span_digits_uint d rest :
  delimited rest = true →
  span_digits (NilEmpty.string_of_uint d +:+ rest)
  = (NilEmpty.string_of_uint d, rest).
Proof.
  intros Hrest.
  induction d as [|d IH|d IH|d IH|d IH|d IH|d IH|d IH|d IH|d IH|d IH];
    [by apply (span_digits_app "" rest "" "")|..];
    cbn [NilEmpty.string_of_uint String.append span_digits];
    (match goal with |- context [is_digit ?c] =>
       change (is_digit c) with true end); cbn iota; by rewrite IH.
Qed.

(** The numeral of a positive number does not start with a zero. *)
Lemma to_uint_head p :
  match Pos.to_uint p with
  | Nil | D0 _ => False
  | _ => True
  end.
Proof.
  pose proof (DecimalPos.Unsigned.to_uint_nonnil p) as Hnil.
  pose proof (DecimalPos.Unsigned.to_uint_nonzero p) as Hzero.
  pose proof (DecimalPos.Unsigned.to_of (Pos.to_uint p)) as Hnorm.
  rewrite DecimalPos.Unsigned.of_to in Hnorm. simpl in Hnorm.
  destruct (Pos.to_uint p) as [|d| | | | | | | | |] eqn:E; try done.
  unfold unorm in Hnorm. rewrite nzhead_D0 in Hnorm.
  destruct (nzhead d) eqn:En; try done.
  by apply nzhead_nonzero in En.
Qed.

Lemma scan_digits1_pos p rest :
  delimited rest = true →
  scan_digits1 (NilZero.string_of_uint (Pos.to_uint p) +:+ rest)
  = Some (NilZero.string_of_uint (Pos.to_uint p), rest).
Proof.
  intros Hrest. pose proof (to_uint_head p) as Hhead.
  destruct (Pos.to_uint p) as [|d|d|d|d|d|d|d|d|d|d]; try done;
    cbn [NilZero.string_of_uint NilEmpty.string_of_uint String.append
         scan_digits1];
    (match goal with |- context [Ascii.eqb ?c "0"] =>
       change (Ascii.eqb c "0") with false end);
    (match goal with |- context [is_digit ?c] =>
       change (is_digit c) with true end); cbn iota;
    by rewrite span_digits_uint.
Qed.

Lemma scan_integer_of_Z z rest :
  delimited rest = true →
  scan_integer (string_of_Z z +:+ rest) = Some (string_of_Z z, rest).
Proof.
  intros Hrest. unfold string_of_Z. destruct z as [|p|p]; simpl Z.to_int.
  - done.
  - unfold NilZero.string_of_int.
    pose proof (scan_digits1_pos p rest Hrest) as H.
    pose proof (to_uint_head p) as Hhead.
    destruct (NilZero.string_of_uint (Pos.to_uint p)) as [|a s] eqn:E.
    { by destruct (Pos.to_uint p). }
    change (String a s +:+ rest) with (String a (s +:+ rest)) in *.
    unfold scan_integer. destruct (Ascii.eqb a "-") eqn:Ea; [|done].
    apply Ascii.eqb_eq in Ea as ->. simpl in H.
    by destruct (span_digits (s +:+ rest)).
  - unfold NilZero.string_of_int.
    change (String "-" ?s +:+ rest) with (String "-" (s +:+ rest)).
    unfold scan_integer. change (Ascii.eqb "-" "-") with true. cbn iota.
    by rewrite scan_digits1_pos.
Qed.

Lemma Z_of_string_of_Z z : Z_of_string (string_of_Z z) = Some z.
Proof.
  unfold Z_of_string, string_of_Z. rewrite NilZero.isi.
  - simpl. by rewrite DecimalZ.of_to.
  - destruct z as [|p|p]; simpl; try done.
    intros [= H]. by apply DecimalPos.Unsigned.to_uint_nonnil in H.
  - destruct z as [|p|p]; simpl; try done.
    intros [= H]. by apply DecimalPos.Unsigned.to_uint_nonnil in H.
Qed.

Lemma scan_number_of_Z z rest :
  delimited rest = true →
  scan_number (string_of_Z z +:+ rest) = Some (PInt z, rest).
Proof.
  intros Hrest.
  pose proof (scan_frac_app "" rest "" "" eq_refl Hrest) as Hf.
  pose proof (scan_exp_app "" rest "" "" eq_refl Hrest) as He.
  simpl in Hf, He.
  unfold scan_number. rewrite (scan_integer_of_Z _ _ Hrest).
  cbn [mbind option_bind]. rewrite Hf, He. cbn [nonempty orb].
  by rewrite Z_of_string_of_Z.
Qed.

(** ** Reading back what [json.dumps] writes: nested numeric arrays *)

(** The text [r] is a number token with a fraction or an exponent: the way
    [json] writes a finite float. *)
Definition float_token (r : string) : bool :=
  match scan_number r with
  | Some (PFloat (FRepr r'), EmptyString) => String.eqb r' r
  | _ => false
  end.

Definition float_ok (f : pyfloat) : bool :=
  match f with
  | FRepr r => float_token r
  | _ => true
  end.

(** Plain nested numeric arrays: integers and floats in lists, to any
    depth. *)
Fixpoint numeric (v : pyval) : bool :=
  match v with
  | PInt _ => true
  | PFloat f => float_ok f
  | PList l =>
      (fix go (l : list pyval) : bool :=
         match l with
         | [] => true
         | x :: l' => numeric x && go l'
         end) l
  | _ => false
  end.

Fixpoint size (v : pyval) : nat :=
  match v with
  | PList l =>
      S ((fix go (l : list pyval) : nat :=
            match l with
            | [] => O
            | x :: l' => (S (size x) + go l')%nat
            end) l)
  | _ => 1%nat
  end.

Definition elems_size (l : list pyval) : nat :=
  foldr (λ x n, (S (size x) + n)%nat) O l.

Lemma size_list l : size (PList l) = S (elems_size l).
Proof. reflexivity. Qed.

Lemma numeric_list l : numeric (PList l) = forallb numeric l.
Proof. reflexivity. Qed.

(** The first character of a value: not white space, not a closing
    bracket. *)
Definition value_head (s : string) : bool :=
  match s with
  | String c _ => negb (is_ws c) && negb (Ascii.eqb c "]")
  | EmptyString => false
  end.

Lemma skip_ws_head s : value_head s = true → skip_ws s = s.
Proof.
  destruct s as [|c s]; [done|]. simpl. intros H.
  apply andb_prop in H as [H _]. apply negb_true_iff in H. by rewrite H.
Qed.

Lemma value_head_app s t : value_head s = true → value_head (s +:+ t) = true.
Proof. by destruct s. Qed.

Lemma value_head_length s : value_head s = true → (1 ≤ String.length s)%nat.
Proof. destruct s; [done|]. simpl. lia. Qed.

(** What the first character of a number is not. *)
Lemma number_head a :
  Ascii.eqb a "-" || is_digit a = true →
  Ascii.eqb a dq = false ∧ Ascii.eqb a "{" = false ∧ Ascii.eqb a "[" = false
  ∧ Ascii.eqb "n" a = false ∧ Ascii.eqb "t" a = false ∧ Ascii.eqb "f" a = false
  ∧ is_ws a = false ∧ Ascii.eqb a "]" = false.
Proof.
  destruct a as [[] [] [] [] [] [] [] []]; vm_compute; intros H;
    first [discriminate H | done].
Qed.

Lemma scan_integer_head a s res :
  scan_integer (String a s) = Some res → Ascii.eqb a "-" || is_digit a = true.
Proof.
  unfold scan_integer. destruct (Ascii.eqb a "-") eqn:E; [done|].
  unfold scan_digits1. destruct (Ascii.eqb a "0") eqn:E0.
  { apply Ascii.eqb_eq in E0 as ->. done. }
  by destruct (is_digit a).
Qed.

(** A text that starts a number is read by [scan_once] as that number. *)
Lemma scan_once_number fuel s res :
  scan_number s = Some res →
  scan_once (S fuel) s = Some res ∧ value_head s = true.
Proof.
  intros Hs. destruct s as [|a s]; [done|].
  assert (Ascii.eqb a "-" || is_digit a = true) as Ha.
  { unfold scan_number in Hs.
    destruct (scan_integer (String a s)) as [r|] eqn:E; [|done].
    by eapply scan_integer_head. }
  apply number_head in Ha as (H1 & H2 & H3 & H4 & H5 & H6 & H7 & H8).
  split.
  - cbn [scan_once strip_prefix]. by rewrite H1, H2, H3, H4, H5, H6, Hs.
  - cbn [value_head]. by rewrite H7, H8.
Qed.

Section RoundTrip.
Variable rt : runtime.

(** What is known of the text [m] written for the value [v]. *)
Definition reads_back (v : pyval) (m : string) : Prop :=
  value_head m = true
  ∧ (size v ≤ String.length m)%nat
  ∧ ∀ fuel rest, (size v ≤ fuel)%nat → delimited rest = true →
      scan_once fuel (m +:+ rest) = Some (v, rest).

Lemma reads_back_int z : reads_back (PInt z) (string_of_Z z).
Proof.
  assert (∀ fuel rest, delimited rest = true →
            scan_once (S fuel) (string_of_Z z +:+ rest) = Some (PInt z, rest)
            ∧ value_head (string_of_Z z +:+ rest) = true) as H.
  { intros fuel rest Hrest. apply scan_once_number. by apply scan_number_of_Z. }
  destruct (H O "" eq_refl) as [_ Hhead]. rewrite string_app_nil_r in Hhead.
  split; [done|]. split; [by apply value_head_length|].
  intros [|fuel] rest Hfuel Hrest; [simpl in Hfuel; lia|]. by apply H.
Qed.

Lemma reads_back_float f : float_ok f = true → reads_back (PFloat f) (float_repr f).
Proof.
  destruct f as [| [|] |r]; simpl float_repr.
  - intros _. split; [done|]. split; [simpl; lia|].
    intros [|fuel] rest Hfuel _; [simpl in Hfuel; lia|]. reflexivity.
  - intros _. split; [done|]. split; [simpl; lia|].
    intros [|fuel] rest Hfuel _; [simpl in Hfuel; lia|]. reflexivity.
  - intros _. split; [done|]. split; [simpl; lia|].
    intros [|fuel] rest Hfuel _; [simpl in Hfuel; lia|]. reflexivity.
  - unfold float_ok, float_token.
    destruct (scan_number r) as [[v rem]|] eqn:E; [|done].
    destruct v as [| | |f| | | | |]; try done.
    destruct f as [| |r']; try done. destruct rem; [|done]. intros Heq.
    apply String.eqb_eq in Heq as ->.
    assert (∀ fuel rest, delimited rest = true →
              scan_once (S fuel) (r +:+ rest) = Some (PFloat (FRepr r), rest)
              ∧ value_head (r +:+ rest) = true) as H.
    { intros fuel rest Hrest. apply scan_once_number.
      by apply (scan_number_app r rest _ ""). }
    destruct (H O "" eq_refl) as [_ Hhead]. rewrite string_app_nil_r in Hhead.
    split; [done|]. split; [by apply value_head_length|].
    intros [|fuel] rest Hfuel Hrest; [simpl in Hfuel; lia|]. by apply H.
Qed.

Lemma join_strings_cons sep m m' ms :
  join_strings sep (m :: m' :: ms) = m +:+ sep +:+ join_strings sep (m' :: ms).
Proof. reflexivity. Qed.

Lemma join_strings_head sep m ms :
  value_head m = true → value_head (join_strings sep (m :: ms)) = true.
Proof.
  intros H. destruct ms as [|m' ms]; [done|].
  rewrite join_strings_cons. by apply value_head_app.
Qed.

Lemma skip_ws_comma x : skip_ws (String "," x) = String "," x.
Proof. reflexivity. Qed.

Lemma skip_ws_space x : skip_ws (String " " x) = skip_ws x.
Proof. reflexivity. Qed.

Lemma skip_ws_bracket x : skip_ws (String "]" x) = String "]" x.
Proof. reflexivity. Qed.

(** The members of an array, written with [", "] between them, are read
    back up to the closing bracket. *)
Lemma scan_elements_join l ms :
  Forall2 reads_back l ms → l ≠ [] →
  (elems_size l ≤ S (String.length (join_strings ", " ms)))%nat
  ∧ ∀ fuel rest, (elems_size l ≤ fuel)%nat →
      scan_elements fuel (join_strings ", " ms +:+ String "]" rest)
      = Some (l, rest).
Proof.
  induction 1 as [|v m l ms (Hhead & Hlen & Hscan) Hrest IH]; [done|].
  intros _. destruct Hrest as [|v' m' l' ms' Hvm' Hrest'].
  - split; [simpl; lia|].
    intros [|fuel] rest Hfuel; [simpl in Hfuel; lia|].
    cbn [join_strings scan_elements].
    rewrite Hscan by (simpl in *; done || lia).
    cbn [mbind option_bind]. rewrite skip_ws_bracket. cbv beta iota.
    by change (Ascii.eqb "]" "]") with true.
  - destruct IH as [IHlen IHscan]; [done|].
    rewrite join_strings_cons. split.
    { rewrite !string_length_app. simpl in *. lia. }
    intros [|fuel] rest Hfuel; [simpl in Hfuel; lia|].
    rewrite !string_app_assoc. cbn [scan_elements].
    change (", " +:+ ?x) with (String "," (String " " x)).
    rewrite Hscan by (simpl in *; done || lia).
    cbn [mbind option_bind]. rewrite skip_ws_comma. cbv beta iota.
    change (Ascii.eqb "," "]") with false. change (Ascii.eqb "," ",") with true.
    cbv iota. rewrite skip_ws_space, skip_ws_head.
    + rewrite IHscan by (simpl in *; lia). done.
    + apply value_head_app, join_strings_head, Hvm'.
Qed.

Lemma collect_reads_back level l :
  Forall (λ v, numeric v = true →
               ∀ level, ∃ s, json_encode rt plain level v = inr s
                             ∧ reads_back v s) l →
  forallb numeric l = true →
  ∃ ms, collect (json_encode rt plain level <$> l) = inr ms
        ∧ Forall2 reads_back l ms.
Proof.
  induction 1 as [|v l Hv _ IH]; intros Hnum.
  - by exists [].
  - simpl in Hnum. apply andb_prop in Hnum as [Hn Hl].
    destruct (Hv Hn level) as (s & Hs & Hrb).
    destruct (IH Hl) as (ms & Hms & Hall).
    exists (s :: ms). rewrite fmap_cons. simpl. rewrite Hs, Hms. simpl.
    split; [done|]. by constructor.
Qed.

(** Every plain nested numeric array is written by [json.dumps], and the
    text is read back as the array it was written for. *)
Lemma numeric_reads_back v :
  numeric v = true →
  ∀ level, ∃ s, json_encode rt plain level v = inr s ∧ reads_back v s.
Proof.
  induction v as [| | | | | |l IH| |] using pyval_ind; try done.
  - intros _ level. eexists. split; [reflexivity|]. apply reads_back_int.
  - intros Hf level. eexists. split; [reflexivity|]. by apply reads_back_float.
  - rewrite numeric_list. intros Hnum level. rewrite json_encode_list.
    destruct (collect_reads_back (S level) l IH Hnum) as (ms & -> & Hall).
    cbn [bind_result]. eexists. split; [reflexivity|].
    destruct (decide (l = [])) as [->|Hne].
    + apply Forall2_nil_inv_l in Hall as ->.
      split; [done|]. split; [simpl; lia|].
      intros [|fuel] rest Hfuel _; [simpl in Hfuel; lia|]. reflexivity.
    + destruct (scan_elements_join l ms Hall Hne) as [Hlen Hscan].
      destruct Hall as [|v m l' ms' (Hhead & _) Hall']; [done|].
      assert (encode_container rt plain "[" "]" level (m :: ms')
              = String "[" (join_strings ", " (m :: ms') +:+ "]")) as ->.
      { unfold encode_container, item_separator, newline_indent. cbn [indent plain].
        by rewrite string_app_nil_r. }
      split; [done|]. split.
      { rewrite size_list. cbn [String.length].
        rewrite string_length_app. change (String.length "]") with 1%nat.
        lia. }
      intros [|fuel] rest Hfuel _; [simpl in Hfuel; lia|].
      rewrite size_list in Hfuel.
      cbn [String.append]. rewrite string_app_assoc. cbn [String.append].
      pose proof (join_strings_head ", " m ms' Hhead) as Hj.
      pose proof (value_head_app _ (String "]" rest) Hj) as Hj'.
      cbn [scan_once]. change (Ascii.eqb "[" dq) with false.
      change (Ascii.eqb "[" "{") with false. change (Ascii.eqb "[" "[") with true.
      cbn iota. rewrite (skip_ws_head _ Hj').
      destruct (join_strings ", " (m :: ms') +:+ String "]" rest) as [|b r] eqn:E;
        [done|].
      cbn [value_head] in Hj'. apply andb_prop in Hj' as [_ Hb].
      apply negb_true_iff in Hb. rewrite Hb.
      rewrite <- E, Hscan by lia. done.
Qed.

(** [json.loads(json.dumps(bounds))] gives the bounds back. *)
Lemma json_round_trip v :
  numeric v = true →
  ∃ s, json_dumps rt plain v = inr s ∧ json_loads s = inr v.
Proof.
  intros Hnum. destruct (numeric_reads_back v Hnum O) as (s & Hs & Hhead & Hlen & Hscan).
  exists s. split; [done|]. unfold json_loads.
  rewrite (skip_ws_head _ Hhead).
  pose proof (Hscan (S (String.length s)) "" ltac:(lia) eq_refl) as H.
  rewrite string_app_nil_r in H. by rewrite H.
Qed.

End RoundTrip.

(** ** C4 *)

(** C4.  For bounds that are plain nested numeric arrays the
    normalisation [json.loads(json.dumps(bounds))] succeeds and gives the
    bounds back, so an [ImageOverlay] or a [VideoOverlay] constructed with
    them answers [_get_self_bounds()] with a value equal to its input; the
    construction itself succeeds as soon as the other steps of the
    constructor do. *)
Theorem self_bounds_round_trip rt (bounds : pyval) :
  numeric bounds = true →
  (∃ s, json_dumps rt plain bounds = inr s ∧ json_loads s = inr bounds)
  ∧ (∀ mercator_transform image_to_url (a : ImageOverlay.args) o,
       ImageOverlay.bounds a = bounds →
       ImageOverlay.new rt mercator_transform image_to_url a = inr o →
       ImageOverlay._get_self_bounds o = inr bounds)
  ∧ (∀ mercator_transform image_to_url (a : ImageOverlay.args) url,
       ImageOverlay.bounds a = bounds →
       ImageOverlay.mercator_project a = false →
       image_to_url (ImageOverlay.image a) (ImageOverlay.origin a)
         (ImageOverlay.colormap a) = inr url →
       (∃ s, json_dumps rt sorted_indent2
               (ImageOverlay.options (ImageOverlay.kwargs a)) = inr s) →
       ∃ o, ImageOverlay.new rt mercator_transform image_to_url a = inr o
            ∧ ImageOverlay._get_self_bounds o = inr bounds)
  ∧ (∀ (a : VideoOverlay.args) o,
       VideoOverlay.bounds a = bounds →
       VideoOverlay.new rt a = inr o →
       VideoOverlay._get_self_bounds o = inr bounds)
  ∧ (∀ a : VideoOverlay.args,
       VideoOverlay.bounds a = bounds →
       (∃ s, json_dumps rt plain (VideoOverlay.options a) = inr s) →
       ∃ o, VideoOverlay.new rt a = inr o
            ∧ VideoOverlay._get_self_bounds o = inr bounds).
Proof.
  intros Hnum. destruct (json_round_trip rt bounds Hnum) as (s & Hs & Hl).
  split; [by exists s|]. repeat split.
  - intros mt itu a o Hb. run_init. rewrite Hb.
    destruct (ImageOverlay.mercator_project a).
    + destruct (getitem bounds 0) as [?|b0]; [done|]. cbn [bind_result].
      destruct (getitem b0 0) as [?|lat0]; [done|].
      destruct (getitem bounds 1) as [?|b1]; [done|].
      destruct (getitem b1 0) as [?|lat1]; [done|].
      destruct (mt _ _ _) as [?|img]; [done|].
      destruct (itu _ _ _) as [?|url]; [done|].
      rewrite Hs, Hl.
      destruct (json_dumps rt sorted_indent2 _) as [?|so]; [done|].
      cbv beta iota zeta. intros [= <-]. unfold ImageOverlay._get_self_bounds. by simplify_map_eq.
    + destruct (itu _ _ _) as [?|url]; [done|].
      rewrite Hs, Hl.
      destruct (json_dumps rt sorted_indent2 _) as [?|so]; [done|].
      cbv beta iota zeta. intros [= <-]. unfold ImageOverlay._get_self_bounds. by simplify_map_eq.
  - intros mt itu a url Hb Hm Hurl [so Hso]. run_init.
    rewrite Hb, Hm, Hurl, Hs, Hl, Hso. eexists. split; [reflexivity|].
    unfold ImageOverlay._get_self_bounds. by simplify_map_eq.
  - intros a o Hb. run_init. rewrite Hb, Hs, Hl.
    destruct (json_dumps rt plain (VideoOverlay.options a)) as [?|so]; [done|].
    cbv beta iota zeta. intros [= <-]. unfold VideoOverlay._get_self_bounds. by simplify_map_eq.
  - intros a Hb [so Hso]. run_init. rewrite Hb, Hs, Hl, Hso.
    eexists. split; [reflexivity|].
    unfold VideoOverlay._get_self_bounds. by simplify_map_eq.
Qed.

(** ** Sorting the items of a dictionary *)

Lemma text_leb_refl s : text_leb s s = true.
Proof.
  induction s as [|a s IH]; simpl; [done|].
  rewrite IH, Z.eqb_refl. by destruct (a <? a).
Qed.

Lemma text_leb_total s t : text_leb s t = true ∨ text_leb t s = true.
Proof.
  revert t. induction s as [|a s IH]; intros [|b t]; simpl; auto.
  destruct (Z.lt_trichotomy a b) as [H|[->|H]].
  - left. replace (a <? b) with true by lia. done.
  - rewrite Z.eqb_refl, Z.ltb_irrefl. simpl. apply IH.
  - right. replace (b <? a) with true by lia. done.
Qed.

Lemma text_leb_antisym s t :
  text_leb s t = true → text_leb t s = true → s = t.
Proof.
  revert t. induction s as [|a s IH]; intros [|b t]; simpl; try done.
  intros H1 H2.
  apply orb_prop in H1 as [H1|H1]; apply orb_prop in H2 as [H2|H2];
    try apply andb_prop in H1 as [? H1]; try apply andb_prop in H2 as [? H2];
    try lia.
  assert (a = b) as -> by lia. f_equal. by apply IH.
Qed.

Lemma text_leb_trans s t u :
  text_leb s t = true → text_leb t u = true → text_leb s u = true.
Proof.
  revert t u. induction s as [|a s IH]; intros [|b t] [|c u]; simpl; try done.
  intros H1 H2.
  apply orb_prop in H1 as [H1|H1]; apply orb_prop in H2 as [H2|H2];
    try apply andb_prop in H1 as [? H1]; try apply andb_prop in H2 as [? H2].
  - replace (a <? c) with true by lia. done.
  - replace (a <? c) with true by lia. done.
  - replace (a <? c) with true by lia. done.
  - replace (a =? c) with true by lia. rewrite (IH _ _ H1 H2).
    by destruct (a <? c).
Qed.

(** The order [sorted] puts the items of a dictionary in. *)
Definition key_le {A} (x y : text * A) : Prop := text_leb x.1 y.1 = true.

#[global] Instance key_le_trans {A} : Transitive (@key_le A).
Proof. intros x y z. apply text_leb_trans. Qed.

Lemma insert_item_perm {A} (kv : text * A) l : insert_item kv l ≡ₚ kv :: l.
Proof.
  induction l as [|kv' l IH]; simpl; [done|].
  destruct (text_leb kv.1 kv'.1); [done|].
  rewrite IH. apply Permutation_swap.
Qed.

Lemma py_sorted_perm {A} (l : list (text * A)) : py_sorted l ≡ₚ l.
Proof.
  induction l as [|kv l IH]; simpl; [done|].
  by rewrite insert_item_perm, IH.
Qed.

Lemma insert_item_sorted {A} (kv : text * A) l :
  Sorted key_le l → Sorted key_le (insert_item kv l).
Proof.
  induction 1 as [|kv' l Hl IH Hhd]; simpl.
  - by repeat constructor.
  - destruct (text_leb kv.1 kv'.1) eqn:E.
    + constructor; [by constructor|]. by constructor.
    + constructor; [done|].
      assert (key_le kv' kv) as Hle.
      { unfold key_le. destruct (text_leb_total kv.1 kv'.1); congruence. }
      destruct Hhd as [|kv'' l' Hle']; simpl.
      * by constructor.
      * destruct (text_leb kv.1 kv''.1); by constructor.
Qed.

Lemma py_sorted_sorted {A} (l : list (text * A)) : Sorted key_le (py_sorted l).
Proof.
  induction l as [|kv l IH]; simpl; [constructor|]. by apply insert_item_sorted.
Qed.

Lemma NoDup_keys_eq {A} (l : list (text * A)) x y :
  NoDup l.*1 → x ∈ l → y ∈ l → x.1 = y.1 → x = y.
Proof.
  induction l as [|kv l IH]; intros Hnd Hx Hy Hk; [by inversion Hx|].
  rewrite fmap_cons in Hnd. apply NoDup_cons in Hnd as [Hnotin Hnd].
  apply elem_of_cons in Hx as [->|Hx]; apply elem_of_cons in Hy as [->|Hy].
  - done.
  - exfalso. apply Hnotin. rewrite Hk. by apply list_elem_of_fmap_2.
  - exfalso. apply Hnotin. rewrite <- Hk. by apply list_elem_of_fmap_2.
  - by apply IH.
Qed.

(** A dictionary has one sorted list of items, in whatever order it
    iterates. *)
Lemma py_sorted_unique {A} (l1 l2 : list (text * A)) :
  NoDup l1.*1 → l1 ≡ₚ l2 → py_sorted l1 = py_sorted l2.
Proof.
  intros Hnd Hperm.
  apply (Sorted_unique_strong key_le); try apply py_sorted_sorted.
  - intros x y Hx Hy Hxy Hyx.
    rewrite py_sorted_perm in Hx. rewrite py_sorted_perm, <- Hperm in Hy.
    apply (NoDup_keys_eq l1); try done. by apply text_leb_antisym.
  - by rewrite !py_sorted_perm.
Qed.

(** Sorted serialisation does not depend on the order of the items. *)
Lemma json_dumps_sorted_perm rt (d d' : list (text * pyval)) :
  NoDup d.*1 → d' ≡ₚ d →
  json_dumps rt sorted_indent2 (PDict d') = json_dumps rt sorted_indent2 (PDict d).
Proof.
  intros Hnd Hperm. unfold json_dumps. rewrite !json_encode_dict.
  cbn [sort_keys sorted_indent2].
  rewrite (py_sorted_unique
             (prod_map id (json_encode rt sorted_indent2 1) <$> d')
             (prod_map id (json_encode rt sorted_indent2 1) <$> d)); [done| |].
  - rewrite <- list_fmap_compose.
    assert (fst ∘ prod_map id (json_encode rt sorted_indent2 1) = fst) as ->
      by done.
    by rewrite Hperm.
  - by rewrite Hperm.
Qed.

(** ** The layout of a sorted, indented object *)

(** One member on its line: two spaces, the quoted key, a colon and a
    blank, the value. *)
Definition member_line (kv : text * string) : string :=
  String nl ("  " +:+ json_quote kv.1 +:+ ": " +:+ kv.2).

(** An object at the top level with [indent=2]: a member a line, each
    indented by two spaces, the closing brace on a line of its own. *)
Definition indented_object (rt : runtime) (items : list (text * string)) : string :=
  match items with
  | [] => "{}"
  | _ =>
      "{" +:+ join_strings (item_separator rt sorted_indent2) (member_line <$> items)
      +:+ String nl "}"
  end.

Lemma collect_members (l : list (text * result string)) ms :
  collect (encode_member <$> l) = inr ms →
  ∃ items : list (text * string),
    l = prod_map id inr <$> items
    ∧ ms = (λ kv, json_quote kv.1 +:+ ": " +:+ kv.2) <$> items.
Proof.
  revert ms. induction l as [|[k [e|v]] l IH]; intros ms; rewrite ?fmap_cons.
  - intros [= <-]. by exists [].
  - done.
  - cbn [collect encode_member bind_result snd fst].
    destruct (collect (encode_member <$> l)) as [e|ms'] eqn:E; [done|].
    intros [= <-]. destruct (IH ms' eq_refl) as (items & -> & ->).
    by exists ((k, v) :: items).
Qed.

Lemma join_strings_lines sep pre m ms :
  pre +:+ join_strings (sep +:+ pre) (m :: ms)
  = join_strings sep ((λ x, pre +:+ x) <$> (m :: ms)).
Proof.
  revert m. induction ms as [|m' ms IH]; intros m; [done|].
  rewrite !fmap_cons, !join_strings_cons, <- fmap_cons, <- IH.
  by rewrite !string_app_assoc.
Qed.

Lemma Sorted_key_le_fmap {A B} (f : A → B) (l : list (text * A)) :
  Sorted key_le (prod_map id f <$> l) → Sorted key_le l.
Proof.
  induction l as [|x l IH]; [constructor|]. rewrite fmap_cons. intros H.
  apply Sorted_inv in H as [Hs Hh]. constructor; [by apply IH|].
  destruct l as [|y l]; [constructor|]. rewrite fmap_cons in Hh.
  apply HdRel_inv in Hh. by constructor.
Qed.

(** The text written for a dictionary: its items in the order of their
    keys, each value as the encoder writes it one level down, laid out a
    member a line. *)
Lemma json_dumps_sorted_layout rt d s :
  json_dumps rt sorted_indent2 (PDict d) = inr s →
  ∃ items : list (text * string),
    Sorted key_le items
    ∧ items.*1 ≡ₚ d.*1
    ∧ (∀ kv, kv ∈ items →
         ∃ x, (kv.1, x) ∈ d ∧ json_encode rt sorted_indent2 1 x = inr kv.2)
    ∧ s = indented_object rt items.
Proof.
  unfold json_dumps. rewrite json_encode_dict. cbn [sort_keys sorted_indent2].
  destruct (collect _) as [e|ms] eqn:E; [done|]. cbn [bind_result].
  intros [= <-]. apply collect_members in E as (items & Hitems & ->).
  exists items. repeat split.
  - pose proof (py_sorted_sorted
                  (prod_map id (json_encode rt sorted_indent2 1) <$> d)) as Hs.
    rewrite Hitems in Hs. by apply Sorted_key_le_fmap in Hs.
  - pose proof (py_sorted_perm
                  (prod_map id (json_encode rt sorted_indent2 1) <$> d)) as Hp.
    rewrite Hitems in Hp. apply (fmap_Permutation fst) in Hp.
    by rewrite <- !list_fmap_compose in Hp.
  - intros [k v] Hin.
    assert ((k, inr v) ∈ prod_map id (json_encode rt sorted_indent2 1) <$> d)
      as Hin'.
    { rewrite <- py_sorted_perm, Hitems.
      by apply (list_elem_of_fmap_2 (prod_map id inr) _ (k, v)). }
    apply list_elem_of_fmap in Hin' as ([k' x] & [= -> Hx] & Hd).
    by exists x.
  - destruct items as [|kv items]; [done|].
    unfold indented_object, encode_container. rewrite fmap_cons.
    change (newline_indent sorted_indent2 1) with (String nl "  ").
    change (newline_indent sorted_indent2 0) with (String nl "").
    f_equal. rewrite <- string_app_assoc, join_strings_lines.
    f_equal. f_equal. rewrite !fmap_cons. f_equal.
    by rewrite <- list_fmap_compose.
Qed.

(** ** C5 *)

Lemma dict_set_keys {A} k (v : A) d :
  (dict_set k v d).*1 = if decide (k ∈ d.*1) then d.*1 else d.*1 ++ [k].
Proof.
  induction d as [|[k' v'] d IH]; [done|].
  cbn [dict_set fst]. rewrite !fmap_cons.
  destruct (decide (k' = k)) as [->|Hne]; cbn [fst].
  - rewrite decide_True by left. done.
  - rewrite fmap_cons, IH. cbn [fst].
    destruct (decide (k ∈ d.*1)) as [Hin|Hnin].
    + rewrite decide_True by (by right). done.
    + rewrite decide_False; [done|]. intros [->|?]%elem_of_cons; done.
Qed.

Lemma dict_set_NoDup {A} k (v : A) d : NoDup d.*1 → NoDup (dict_set k v d).*1.
Proof.
  intros Hnd. rewrite dict_set_keys. destruct (decide (k ∈ d.*1)); [done|].
  apply NoDup_app. repeat split; [done| |apply NoDup_singleton].
  intros x Hx ->%list_elem_of_singleton. done.
Qed.

(** The [options] attribute of [self] is the serialisation of the
    dictionary [d] with sorted keys and an indentation of two: the same text
    in whatever order the dictionary holds its items, the members in the
    order of their keys, a member a line. *)
Definition serialised (rt : runtime) (d : list (text * pyval))
    (self : gmap string pyval) : Prop :=
  ∃ (s : string) (items : list (text * string)),
    self !! "options" = Some (PStr (txt s))
    ∧ json_dumps rt sorted_indent2 (PDict d) = inr s
    ∧ (∀ d', d' ≡ₚ d → json_dumps rt sorted_indent2 (PDict d') = inr s)
    ∧ Sorted key_le items
    ∧ items.*1 ≡ₚ d.*1
    ∧ s = indented_object rt items.

Lemma serialised_intro rt d self s :
  NoDup d.*1 →
  self !! "options" = Some (PStr (txt s)) →
  json_dumps rt sorted_indent2 (PDict d) = inr s →
  serialised rt d self.
Proof.
  intros Hnd Hself Hs.
  destruct (json_dumps_sorted_layout rt d s Hs) as (items & ? & ? & _ & ?).
  exists s, items. repeat split; try done.
  intros d' Hperm. by rewrite (json_dumps_sorted_perm rt d d').
Qed.

(** C5.  The options text of a [TileLayer], a [WmsTileLayer] and an
    [ImageOverlay] is a function of the arguments of the constructor: it is
    the serialisation of the options dictionary, which comes out the same
    byte for byte in whatever order the dictionary iterates, with the
    members in the order of their keys, a member a line, two spaces in. *)
Theorem options_serialisation_deterministic rt :
  (∀ env a self,
     TileLayer.new rt env a = inr self →
     ∃ d, TileLayer.options a = PDict d ∧ serialised rt d self)
  ∧ (∀ _parse_wms a self,
       (∀ kw d, _parse_wms kw = inr d → NoDup d.*1) →
       WmsTileLayer.new rt _parse_wms a = inr self →
       ∃ d, WmsTileLayer.options _parse_wms a = inr (PDict d)
            ∧ serialised rt d self)
  ∧ (∀ mercator_transform image_to_url a self,
       ImageOverlay.new rt mercator_transform image_to_url a = inr self →
       ∃ d, ImageOverlay.options (ImageOverlay.kwargs a) = PDict d
            ∧ serialised rt d self).
Proof.
  repeat split.
  - intros env a self Hnew. eexists. split; [reflexivity|].
    revert Hnew. run_init.
    destruct (json_dumps rt sorted_indent2 (TileLayer.options a)) as [?|s] eqn:Hs;
      [done|].
    intros Hnew. apply (serialised_intro rt _ self s); [compute_done| |done].
    revert Hnew. case_results; cbv beta iota zeta; try done;
      repeat case_match; try done; intros [= <-]; by simplify_map_eq.
  - intros pw a self Hdict. run_init. unfold WmsTileLayer.options.
    destruct (pw (WmsTileLayer.kwargs a)) as [?|d] eqn:Hd; [done|].
    cbn [mbind result_bind bind_result mret result_ret].
    destruct (json_dumps rt sorted_indent2 _) as [?|s] eqn:Hs; [done|].
    cbv beta iota zeta. intros [= <-]. eexists. split; [reflexivity|].
    apply (serialised_intro rt _ _ s); [|by simplify_map_eq|done].
    cbn [dict_update foldl fst snd]. apply dict_set_NoDup. by eapply Hdict.
  - intros mt itu a self Hnew. eexists. split; [reflexivity|].
    revert Hnew. run_init.
    destruct (ImageOverlay.mercator_project a);
      repeat match goal with
        | |- context [match ?r with inl _ => _ | inr _ => _ end] =>
            destruct r eqn:?
        end;
      cbv beta iota zeta; try done; intros [= <-];
      match goal with
      | H : json_dumps rt sorted_indent2 _ = inr ?s |- _ =>
          apply (serialised_intro rt _ _ s);
            [compute_done|by simplify_map_eq|done]
      end.
Qed.

(** ** C6 *)

Definition json_bool (b : bool) : string := if b then "true" else "false".

Definition unit_square : pyval :=
  PList [PList [PInt 0; PInt 0]; PList [PInt 1; PInt 1]].

(** The members of the options of a [VideoOverlay], as written. *)
Definition video_options_text (opacity attribution : string) (loop autoplay : bool) :
    string :=
  "{" +:+ json_quote (txt "opacity") +:+ ": " +:+ opacity +:+ ", "
  +:+ json_quote (txt "attribution") +:+ ": " +:+ attribution +:+ ", "
  +:+ json_quote (txt "loop") +:+ ": " +:+ json_bool loop +:+ ", "
  +:+ json_quote (txt "autoplay") +:+ ": " +:+ json_bool autoplay +:+ "}".

Lemma json_dumps_video_options rt a so sa :
  json_encode rt plain 1 (VideoOverlay.opacity a) = inr so →
  json_encode rt plain 1 (VideoOverlay.attr a) = inr sa →
  json_dumps rt plain (VideoOverlay.options a)
  = inr (video_options_text so sa (VideoOverlay.loop a) (VideoOverlay.autoplay a)).
Proof.
  intros Ho Ha. unfold json_dumps, VideoOverlay.options.
  rewrite json_encode_dict.
  cbn [sort_keys plain fmap list_fmap prod_map id fst snd].
  rewrite Ho, Ha.
  destruct (VideoOverlay.loop a), (VideoOverlay.autoplay a);
    cbn [json_encode collect bind_result encode_member fst snd];
    unfold encode_container, item_separator, newline_indent, key_separator,
      video_options_text, json_bool;
    cbn [indent plain join_strings]; f_equal;
    by rewrite !string_app_assoc.
Qed.

Lemma json_dumps_video_options_inv rt a s :
  json_dumps rt plain (VideoOverlay.options a) = inr s →
  ∃ so sa,
    json_encode rt plain 1 (VideoOverlay.opacity a) = inr so
    ∧ json_encode rt plain 1 (VideoOverlay.attr a) = inr sa
    ∧ s = video_options_text so sa (VideoOverlay.loop a) (VideoOverlay.autoplay a).
Proof.
  intros Hs.
  destruct (json_encode rt plain 1 (VideoOverlay.opacity a)) as [?|so] eqn:Ho.
  { unfold json_dumps, VideoOverlay.options in Hs.
    rewrite json_encode_dict in Hs.
    cbn [sort_keys plain fmap list_fmap prod_map id fst snd] in Hs.
    rewrite Ho in Hs. done. }
  destruct (json_encode rt plain 1 (VideoOverlay.attr a)) as [?|sa] eqn:Ha.
  { unfold json_dumps, VideoOverlay.options in Hs.
    rewrite json_encode_dict in Hs.
    cbn [sort_keys plain fmap list_fmap prod_map id fst snd] in Hs.
    rewrite Ho, Ha in Hs. done. }
  rewrite (json_dumps_video_options rt a so sa Ho Ha) in Hs.
  injection Hs as <-. by exists so, sa.
Qed.

(** C6.  The options of a [VideoOverlay] are the four keys [opacity],
    [attribution], [loop] and [autoplay], in that order, with the defaults
    [1.0], [None], [True] and [True]; under Python 3, whose dictionaries
    iterate in the order of insertion, their text is written without
    sorting, the members in the declared order on one line; and
    [VideoOverlay(video_url='a.mp4', bounds=[[0,0],[1,1]])] has the options
    [opacity: 1.0], [attribution: null], [loop: true], [autoplay: true],
    which is not the order sorted keys would give. *)
Theorem VideoOverlay_options rt :
  rt_version rt = Python3 →
  (∀ a, ∃ d,
     VideoOverlay.options a = PDict d
     ∧ d.*1 = [txt "opacity"; txt "attribution"; txt "loop"; txt "autoplay"]
     ∧ d.*2 = [VideoOverlay.opacity a; VideoOverlay.attr a;
               PBool (VideoOverlay.loop a); PBool (VideoOverlay.autoplay a)])
  ∧ (∀ url bounds,
       let a := VideoOverlay.defaults url bounds in
       VideoOverlay.opacity a = PFloat (FRepr "1.0")
       ∧ VideoOverlay.attr a = PNone
       ∧ VideoOverlay.loop a = true
       ∧ VideoOverlay.autoplay a = true)
  ∧ (∀ a self,
       VideoOverlay.new rt a = inr self →
       ∃ opacity attribution,
         json_encode rt plain 1 (VideoOverlay.opacity a) = inr opacity
         ∧ json_encode rt plain 1 (VideoOverlay.attr a) = inr attribution
         ∧ self !! "options"
           = Some (PStr (txt (video_options_text opacity attribution
                                (VideoOverlay.loop a) (VideoOverlay.autoplay a)))))
  ∧ (let a := VideoOverlay.defaults (txt "a.mp4") unit_square in
     lookup_attr (VideoOverlay.new rt a) "options"
     = Some (PStr (txt (video_options_text "1.0" "null" true true)))
     ∧ json_dumps rt plain (VideoOverlay.options a)
       ≠ json_dumps rt {| sort_keys := true; indent := None |}
           (VideoOverlay.options a)).
Proof.
  intros _. split; [|split; [|split; [|split]]].
  - intros a. by eexists.
  - done.
  - intros a self. run_init.
    destruct (json_dumps rt plain (VideoOverlay.bounds a)) as [?|sb]; [done|].
    destruct (json_loads sb) as [?|b]; [done|].
    destruct (json_dumps rt plain (VideoOverlay.options a)) as [?|s] eqn:Hs;
      [done|].
    apply json_dumps_video_options_inv in Hs as (so & sa & Ho & Ha & ->).
    cbv beta iota zeta. intros [= <-]. exists so, sa.
    split; [done|]. split; [done|].
    (rewrite lookup_insert_ne by done). by rewrite lookup_insert_eq.
  - destruct rt as [[] ? ? ?]; vm_compute; reflexivity.
  - destruct rt as [[] ? ? ?]; vm_compute; discriminate.
Qed.

(** ** C7 and C8: rendering into a document *)

Lemma dict_set_idem {A} k (v : A) d : dict_set k v (dict_set k v d) = dict_set k v d.
Proof.
  induction d as [|kv d IH]; simpl.
  - by rewrite decide_True.
  - destruct (decide (kv.1 = k)) as [Heq|Hne]; simpl.
    + by rewrite decide_True.
    + rewrite decide_False by done. by rewrite IH.
Qed.

(** The number of children of a section that go by the name [k]. *)
Definition children_named (k : text) (children : list (text * text)) : nat :=
  length (List.filter (λ kv, bool_decide (kv.1 = k)) children).

Fixpoint child (k : text) (children : list (text * text)) : option text :=
  match children with
  | [] => None
  | kv :: rest => if decide (kv.1 = k) then Some kv.2 else child k rest
  end.

Lemma children_named_absent k children :
  k ∉ children.*1 → children_named k children = O.
Proof.
  unfold children_named. induction children as [|kv l IH]; [done|].
  rewrite fmap_cons. intros Hnin. apply not_elem_of_cons in Hnin as [Hne Hnin].
  simpl. rewrite bool_decide_eq_false_2 by done. by apply IH.
Qed.

Lemma children_named_add_child k body children :
  NoDup children.*1 → children_named k (add_child k body children) = 1%nat.
Proof.
  unfold add_child, children_named.
  induction children as [|kv l IH]; intros Hnd; simpl.
  - by rewrite bool_decide_eq_true_2.
  - rewrite fmap_cons in Hnd. apply NoDup_cons in Hnd as [Hnin Hnd].
    destruct (decide (kv.1 = k)) as [Heq|Hne]; simpl.
    + rewrite bool_decide_eq_true_2 by done. simpl. f_equal.
      apply children_named_absent. by rewrite <- Heq.
    + rewrite bool_decide_eq_false_2 by done. by apply IH.
Qed.

Lemma child_add_child k body children :
  child k (add_child k body children) = Some body.
Proof.
  unfold add_child. induction children as [|kv l IH]; simpl.
  - by rewrite decide_True.
  - destruct (decide (kv.1 = k)) as [Heq|Hne]; simpl.
    + by rewrite decide_True.
    + by rewrite decide_False.
Qed.

Section Rendering.
Variable script_macro : gmap string pyval → text.

(** Rendering layers one after the other into the same document; a layer
    comes with the name [get_name()] gives it. *)
Fixpoint render_all (layers : list (gmap string pyval * text)) (root : document) :
    result document :=
  match layers with
  | [] => inr root
  | layer :: rest =>
      root' ← ImageOverlay.render script_macro layer.1 layer.2 root ;
      render_all rest root'
  end.

(** [self.pixelated] of a layer of the list. *)
Definition is_pixelated (layer : gmap string pyval * text) : bool :=
  match layer.1 !! "pixelated" with
  | Some p => truthy p
  | None => false
  end.

Lemma render_figure self this root :
  is_figure root = true → is_Some (self !! "pixelated") →
  ∃ root',
    ImageOverlay.render script_macro self this root = inr root'
    ∧ is_figure root' = true
    ∧ header root'
      = if is_pixelated (self, this)
        then add_child ImageOverlay.css_key ImageOverlay.pixelated_css (header root)
        else header root.
Proof.
  intros Hfig [p Hp]. unfold ImageOverlay.render, MacroElement_render, is_pixelated.
  rewrite Hfig. cbn [mbind result_bind bind_result is_figure negb fst].
  rewrite Hp. destruct (truthy p); by eexists.
Qed.

Lemma render_all_header layers : ∀ root,
  is_figure root = true →
  Forall (λ layer, is_Some (layer.1 !! "pixelated")) layers →
  ∃ root',
    render_all layers root = inr root'
    ∧ is_figure root' = true
    ∧ header root'
      = if existsb is_pixelated layers
        then add_child ImageOverlay.css_key ImageOverlay.pixelated_css (header root)
        else header root.
Proof.
  induction layers as [|[self this] layers IH]; intros root Hfig Hall.
  - by exists root.
  - apply Forall_cons in Hall as [Hp Hall].
    destruct (render_figure self this root Hfig Hp) as (root1 & Hr & Hfig1 & Hh1).
    destruct (IH root1 Hfig1 Hall) as (root' & Hr' & Hfig' & Hh').
    exists root'. cbn [render_all fst snd]. rewrite Hr.
    cbn [mbind result_bind bind_result]. split; [done|]. split; [done|].
    rewrite Hh', Hh1. cbn [existsb].
    destruct (is_pixelated (self, this)), (existsb is_pixelated layers);
      cbn [orb]; try done.
    unfold add_child. by rewrite dict_set_idem.
Qed.

End Rendering.

(** A constructed overlay carries its [pixelated] argument. *)
Lemma ImageOverlay_new_pixelated rt mercator_transform image_to_url a self :
  ImageOverlay.new rt mercator_transform image_to_url a = inr self →
  self !! "pixelated" = Some (PBool (ImageOverlay.pixelated a)).
Proof.
  run_init. run_cases; cbv beta iota zeta; try done; intros [= <-];
    by simplify_map_eq.
Qed.

Lemma constructed_pixelated rt mercator_transform image_to_url
    (layers : list (gmap string pyval * text)) (argss : list ImageOverlay.args) :
  Forall2 (λ layer a,
             ImageOverlay.new rt mercator_transform image_to_url a = inr layer.1)
    layers argss →
  Forall (λ layer, is_Some (layer.1 !! "pixelated")) layers
  ∧ existsb is_pixelated layers = existsb ImageOverlay.pixelated argss.
Proof.
  induction 1 as [|[self this] a layers argss Hnew _ [IH1 IH2]]; [done|].
  apply ImageOverlay_new_pixelated in Hnew. cbn [fst] in Hnew. split.
  - constructor; [by eexists|done].
  - cbn [existsb]. rewrite IH2. f_equal. unfold is_pixelated. cbn [fst].
    rewrite Hnew. by destruct (ImageOverlay.pixelated a).
Qed.

(** C7.  Rendering any number of constructed image overlays into a figure
    leaves the head of the document as one insertion of the style sheet
    under the name ['leaflet-image-layer'] would, if one of them at least
    was constructed with [pixelated=True], and as it was otherwise: after
    the renders the head has exactly one child of that name, the style
    sheet, however many pixelated overlays were rendered and however often;
    and without a pixelated overlay nothing is inserted. *)
Theorem pixelated_css_once rt mercator_transform image_to_url script_macro
    (root : document) (layers : list (gmap string pyval * text))
    (argss : list ImageOverlay.args) :
  is_figure root = true →
  NoDup (header root).*1 →
  Forall2 (λ layer a,
             ImageOverlay.new rt mercator_transform image_to_url a = inr layer.1)
    layers argss →
  ∃ root',
    render_all script_macro layers root = inr root'
    ∧ (existsb ImageOverlay.pixelated argss = true →
       header root'
       = add_child ImageOverlay.css_key ImageOverlay.pixelated_css (header root)
       ∧ children_named ImageOverlay.css_key (header root') = 1%nat
       ∧ child ImageOverlay.css_key (header root')
         = Some ImageOverlay.pixelated_css)
    ∧ (existsb ImageOverlay.pixelated argss = false →
       header root' = header root).
Proof.
  intros Hfig Hnd Hnew.
  destruct (constructed_pixelated _ _ _ _ _ Hnew) as [Hall Hflags].
  destruct (render_all_header script_macro layers root Hfig Hall)
    as (root' & Hr & _ & Hh).
  rewrite Hflags in Hh.
  exists root'. split; [done|]. split; intros Hp; rewrite Hp in Hh; [|done].
  rewrite Hh. split; [done|].
  split; [by apply children_named_add_child|apply child_add_child].
Qed.

(** C8.  Rendering a constructed image overlay whose root is not a figure
    fails with the assertion error ["You cannot render this Element if it is
    not in a Figure."]; when the root is a figure the render returns. *)
Theorem render_requires_figure rt mercator_transform image_to_url script_macro
    (a : ImageOverlay.args) (self : gmap string pyval) (this : text)
    (root : document) :
  ImageOverlay.new rt mercator_transform image_to_url a = inr self →
  (is_figure root = false →
   ImageOverlay.render script_macro self this root
   = inl (AssertionError not_in_figure))
  ∧ (is_figure root = true →
     ∃ root', ImageOverlay.render script_macro self this root = inr root').
Proof.
  intros Hnew. apply ImageOverlay_new_pixelated in Hnew.
  split; intros Hfig.
  - unfold ImageOverlay.render, MacroElement_render. by rewrite Hfig.
  - destruct (render_figure script_macro self this root Hfig) as (root' & ? & _);
      [by eexists|]. by exists root'.
Qed.

(** ** C9 *)

(** [TileLayer(tiles='Mapbox')] *)
Definition mapbox_without_key : TileLayer.args := {|
  TileLayer.tiles := txt "Mapbox";
  TileLayer.min_zoom := 1;
  TileLayer.max_zoom := 18;
  TileLayer.attr := PNone;
  TileLayer.API_key := PNone;
  TileLayer.detect_retina := false;
  TileLayer.name := None;
  TileLayer.overlay := false;
  TileLayer.control := true;
  TileLayer.no_wrap := false;
  TileLayer.subdomains := TileLayer.Subdomains (txt "abc");
|}.

(** C9, as stated, fails: [TileLayer(tiles='Mapbox')] raises after
    [tile_name], [_name], [options] and [tiles] have been assigned to the
    instance under construction. *)
Lemma TileLayer_raises_after_assignments :
  let run := TileLayer.__init__ py3 sample_env mapbox_without_key fresh in
  run.1 = inl (ValueError TileLayer.api_key_required)
  ∧ attrs run.2 !! "tile_name" = Some (PStr (txt "mapbox"))
  ∧ attrs run.2 !! "_name" = Some (PStr (txt "TileLayer"))
  ∧ is_Some (attrs run.2 !! "options")
  ∧ attrs run.2 !! "tiles" = Some (PStr (txt "mapbox"))
  ∧ attrs run.2 ≠ ∅.
Proof.
  cbv zeta. split; [by vm_compute|]. split; [by vm_compute|].
  split; [by vm_compute|]. split; [vm_compute; by eexists|].
  split; [by vm_compute|].
  intros H. apply (f_equal (λ m : gmap string pyval, m !! "tiles")) in H.
  by vm_compute in H.
Qed.

(** Every field of the list is assigned. *)
Definition complete (fields : list string) (self : gmap string pyval) : Prop :=
  Forall (λ f, is_Some (self !! f)) fields.

Definition TileLayer_fields : list string :=
  ["tile_name"; "layer_name"; "overlay"; "control"; "_name"; "_env"; "options";
   "tiles"; "attr"; "_template"].

Definition WmsTileLayer_fields : list string :=
  ["layer_name"; "overlay"; "control"; "url"; "options"; "_template"].

Definition ImageOverlay_fields : list string :=
  ["layer_name"; "overlay"; "control"; "_name"; "pixelated"; "url"; "bounds";
   "options"; "_template"].

Definition VideoOverlay_fields : list string :=
  ["layer_name"; "overlay"; "control"; "_name"; "video_url"; "bounds";
   "options"; "_template"].

(** How the run of a constructor ends: with every field assigned and the
    instance handed to the caller, or with an exception, an instance that
    never got its [_template], and nothing but the exception for the
    caller. *)
Definition all_or_nothing (fields : list string) (run : result () * state)
    (outcome : result (gmap string pyval)) : Prop :=
  match run.1 with
  | inr _ => outcome = inr (attrs run.2) ∧ complete fields (attrs run.2)
  | inl e => outcome = inl e ∧ attrs run.2 !! "_template" = None
  end.

(** C9, amended.  A construction either assigns every field and returns the
    instance, or raises and leaves the caller with the exception alone; the
    instance it was working on then lacks its [_template].  The raise does
    not come before the assignments: a [TileLayer] that raises has its
    [tile_name] and [_name] by then, and also its [options] and [tiles] when
    the options serialise (as they do when it is refused for a missing API
    key or a missing attribution), and it has no [attr]. *)
Theorem construction_all_or_nothing rt env :
  (∀ a, all_or_nothing TileLayer_fields
          (TileLayer.__init__ rt env a fresh) (TileLayer.new rt env a))
  ∧ (∀ a e, (TileLayer.__init__ rt env a fresh).1 = inl e →
       let self := attrs (TileLayer.__init__ rt env a fresh).2 in
       is_Some (self !! "tile_name") ∧ is_Some (self !! "_name")
       ∧ self !! "attr" = None
       ∧ ∀ s, json_dumps rt sorted_indent2 (TileLayer.options a) = inr s →
           self !! "options" = Some (PStr (txt s)) ∧ is_Some (self !! "tiles"))
  ∧ (∀ _parse_wms a, all_or_nothing WmsTileLayer_fields
          (WmsTileLayer.__init__ rt _parse_wms a fresh)
          (WmsTileLayer.new rt _parse_wms a))
  ∧ (∀ mercator_transform image_to_url a, all_or_nothing ImageOverlay_fields
          (ImageOverlay.__init__ rt mercator_transform image_to_url a fresh)
          (ImageOverlay.new rt mercator_transform image_to_url a))
  ∧ (∀ a, all_or_nothing VideoOverlay_fields
          (VideoOverlay.__init__ rt a fresh) (VideoOverlay.new rt a)).
Proof.
  split; [|split; [|split; [|split]]].
  - intros a. unfold all_or_nothing, TileLayer.new.
    destruct (TileLayer.__init__ rt env a fresh) as [[e|[]] st] eqn:Hrun;
      cbn [fst snd]; (split; [done|]); revert Hrun; run_init;
      destruct (TileLayer.attr a); run_cases; end_run.
  - intros a e. cbv zeta.
    destruct (TileLayer.__init__ rt env a fresh) as [r st] eqn:Hrun.
    cbn [fst snd]. intros ->. revert Hrun. run_init.
    destruct (TileLayer.attr a); run_cases; intros ?; simplify_eq; cbn [attrs];
      (split; [by simplify_map_eq|]); (split; [by simplify_map_eq|]);
      (split; [by simplify_map_eq|]); intros ? ?; simplify_eq;
      split; by simplify_map_eq.
  - intros pw a. unfold all_or_nothing, WmsTileLayer.new.
    destruct (WmsTileLayer.__init__ rt pw a fresh) as [[e|[]] st] eqn:Hrun;
      cbn [fst snd]; (split; [done|]); revert Hrun; run_init;
      run_cases; end_run.
  - intros mt itu a. unfold all_or_nothing, ImageOverlay.new.
    destruct (ImageOverlay.__init__ rt mt itu a fresh) as [[e|[]] st] eqn:Hrun;
      cbn [fst snd]; (split; [done|]); revert Hrun; run_init;
      run_cases; end_run.
  - intros a. unfold all_or_nothing, VideoOverlay.new.
    destruct (VideoOverlay.__init__ rt a fresh) as [[e|[]] st] eqn:Hrun;
      cbn [fst snd]; (split; [done|]); revert Hrun; run_init;
      run_cases; end_run.
Qed.

(** ** C10 *)

(** The snippet does not read the [attr] of the layer: there is no
    attribution statement of its own. *)
Lemma TileLayer_script_ignores_attr self this parent v :
  TileLayer.script (<["attr" := v]> self) this parent
  = TileLayer.script self this parent.
Proof.
  unfold TileLayer.script. by rewrite !lookup_insert_ne.
Qed.

(** The [options] of a constructed [TileLayer] is the serialisation of the
    dictionary of lines 74-81. *)
Lemma TileLayer_options_written rt env a self :
  TileLayer.new rt env a = inr self →
  ∃ s, self !! "options" = Some (PStr (txt s))
       ∧ json_dumps rt sorted_indent2 (TileLayer.options a) = inr s.
Proof.
  run_init.
  destruct (json_dumps rt sorted_indent2 (TileLayer.options a)) as [?|s] eqn:Hs;
    [done|].
  intros Hnew. exists s. split; [|done]. revert Hnew.
  destruct (TileLayer.attr a); run_cases; cbv beta iota zeta; try done;
    intros [= <-]; by simplify_map_eq.
Qed.

(** The [attribution] member of the options is the [attr] argument as it
    was passed, serialised. *)
Lemma TileLayer_attribution_member rt env a self :
  TileLayer.new rt env a = inr self →
  ∃ s items v,
    self !! "options" = Some (PStr (txt s))
    ∧ s = indented_object rt items
    ∧ (txt "attribution", v) ∈ items
    ∧ json_encode rt sorted_indent2 1 (TileLayer.attr a) = inr v.
Proof.
  intros Hnew.
  destruct (TileLayer_options_written rt env a self Hnew) as (s & Hopt & Hs).
  destruct (json_dumps_sorted_layout rt _ s Hs) as (items & _ & Hkeys & Hitems & ->).
  exists (indented_object rt items), items.
  assert (txt "attribution" ∈ items.*1) as Hin.
  { rewrite Hkeys. compute_done. }
  apply list_elem_of_fmap in Hin as ([k v] & Hk & Hin). simpl in Hk. subst k.
  destruct (Hitems _ Hin) as (x & Hx & Henc). exists v.
  split; [done|]. split; [done|]. split; [done|].
  cbn [fst snd] in *.
  repeat (apply elem_of_cons in Hx as [Hx|Hx]; [by simplify_eq|]).
  by apply elem_of_nil in Hx.
Qed.

(** C10.  The attribution of a built-in provider does not reach the
    snippet.  The [attribution] member of the options is the [attr]
    argument, and the snippet reads [tiles] and [options] only; so
    [TileLayer(tiles='OpenStreetMap')], whose [attr] is the attribution the
    registry has for OpenStreetMap, is rendered with [attribution: null]. *)
Theorem TileLayer_builtin_attribution_dropped :
  (∀ rt env a self,
     TileLayer.new rt env a = inr self →
     ∃ s items v,
       self !! "options" = Some (PStr (txt s))
       ∧ s = indented_object rt items
       ∧ (txt "attribution", v) ∈ items
       ∧ json_encode rt sorted_indent2 1 (TileLayer.attr a) = inr v)
  ∧ (∀ self this parent v,
       TileLayer.script (<["attr" := v]> self) this parent
       = TileLayer.script self this parent)
  ∧ (let self := TileLayer.new py3 sample_env TileLayer.defaults in
     lookup_attr self "attr" = Some (PStr osm_attr)
     ∧ lookup_attr self "tiles" = Some (PStr osm_url)
     ∧ lookup_attr self "options"
       = Some (PStr (txt (indented_object py3
                 [(txt "attribution", "null");
                  (txt "detectRetina", "false");
                  (txt "maxZoom", "18");
                  (txt "minZoom", "1");
                  (txt "noWrap", "false");
                  (txt "subdomains", json_quote (txt "abc"))])))).
Proof.
  split; [exact TileLayer_attribution_member|].
  split; [exact TileLayer_script_ignores_attr|].
  cbv zeta. repeat split; vm_compute; reflexivity.
Qed.

(** * The theorems at concrete inputs *)

Lemma sample_env_nonempty : nonempty_templates sample_env.
Proof.
  intros name t ctx Hin. unfold sample_env, loader in Hin.
  repeat (apply elem_of_cons in Hin as [Hin|Hin];
          [injection Hin as -> ->; by destruct ctx|]).
  by apply elem_of_nil in Hin.
Qed.

(** [TileLayer(tiles='Mapbox')] is refused and [TileLayer()] gets the URL
    template and the attribution of OpenStreetMap. *)
Lemma TileLayer_api_key_gate_witness :
  TileLayer.new py3 sample_env mapbox_without_key
  = inl (ValueError TileLayer.api_key_required)
  ∧ ∃ o url attribution,
      TileLayer.new py3 sample_env TileLayer.defaults = inr o
      ∧ o !! "tiles" = Some (PStr url) ∧ url ≠ []
      ∧ o !! "attr" = Some (PStr attribution) ∧ attribution ≠ [].
Proof.
  split.
  - apply (TileLayer_api_key_gate py3 sample_env mapbox_without_key).
    + vm_compute. reflexivity.
    + reflexivity.
    + eexists. vm_compute. reflexivity.
    + exact sample_env_nonempty.
    + vm_compute. reflexivity.
  - apply (TileLayer_api_key_gate py3 sample_env TileLayer.defaults).
    + vm_compute. reflexivity.
    + reflexivity.
    + eexists. vm_compute. reflexivity.
    + exact sample_env_nonempty.
    + vm_compute. reflexivity.
Defined.

Lemma sample_env_gated : gated_registered sample_env.
Proof. split; vm_compute; reflexivity. Qed.

(** A custom tiles URL without an attribution is refused; with the byte
    string [b'OSM'] under Python 2 the attribution is the text ['OSM']. *)
Lemma TileLayer_custom_attribution_witness :
  TileLayer.new py2 sample_env (custom_tiles PNone)
  = inl (ValueError TileLayer.attribution_required)
  ∧ ∃ o, TileLayer.new py2 sample_env (custom_tiles (PBytes [x4f; x53; x4d])) = inr o
         ∧ o !! "attr" = Some (PStr (txt "OSM"))
         ∧ utf8_encode (txt "OSM") = [x4f; x53; x4d]
         ∧ o !! "tiles"
           = Some (PStr (TileLayer.tiles (custom_tiles (PBytes [x4f; x53; x4d])))).
Proof.
  split.
  - apply (TileLayer_custom_attribution py2 sample_env (custom_tiles PNone)).
    + exact sample_env_gated.
    + vm_compute. reflexivity.
    + left. reflexivity.
  - apply (TileLayer_custom_attribution py2 sample_env
             (custom_tiles (PBytes [x4f; x53; x4d]))
             sample_env_gated eq_refl).
    + reflexivity.
    + discriminate.
    + reflexivity.
    + reflexivity.
Defined.

(** The scenario of the specification: a 2-D array over the bounds
    [[[0, 0], [10, 10]]] with [mercator_project=True]; the collaborators are
    stood in for by functions that tag their arguments. *)
Definition sample_array : pyval :=
  PList [PList [PInt 1; PInt 2]; PList [PInt 3; PInt 4]].

Definition tagging_transform (image extent origin : pyval) : result pyval :=
  inr (PList [PStr (txt "reprojected"); image; extent; origin]).

Definition tagging_to_url (image origin colormap : pyval) : result text :=
  inr (txt "data:image/png;base64,").

Definition sample_overlay (mercator pixelated : bool) : ImageOverlay.args := {|
  ImageOverlay.image := sample_array;
  ImageOverlay.bounds := PList [PList [PInt 0; PInt 0]; PList [PInt 10; PInt 10]];
  ImageOverlay.origin := PStr (txt "upper");
  ImageOverlay.colormap := PNone;
  ImageOverlay.mercator_project := mercator;
  ImageOverlay.overlay := true;
  ImageOverlay.control := true;
  ImageOverlay.pixelated := pixelated;
  ImageOverlay.name := None;
  ImageOverlay.kwargs := [];
|}.

Lemma ImageOverlay_image_resolution_witness :
  let run := ImageOverlay.__init__ py3 tagging_transform tagging_to_url
               (sample_overlay true true) fresh in
  let extent := PList [PInt 0; PInt 10] in
  calls run.2
  = [Called "mercator_transform" [sample_array; extent; PStr (txt "upper")];
     Called "image_to_url"
       [PList [PStr (txt "reprojected"); sample_array; extent; PStr (txt "upper")];
        PStr (txt "upper"); PNone]]
  ∧ attrs run.2 !! "url" = Some (PStr (txt "data:image/png;base64,")).
Proof.
  exact (ImageOverlay_image_resolution py3 tagging_transform tagging_to_url
           (sample_overlay true true) (PInt 0) [PInt 0] (PInt 10) [PInt 10] []
           eq_refl).
Defined.

Lemma self_bounds_round_trip_witness :
  ∃ s, json_dumps py3 plain unit_square = inr s ∧ json_loads s = inr unit_square.
Proof.
  exact (proj1 (self_bounds_round_trip py3 unit_square eq_refl)).
Defined.

Definition empty_figure : document :=
  {| is_figure := true; header := []; script := [] |}.

(** The instance [ImageOverlay(sample_array, bounds, pixelated=...)]. *)
Definition sample_self (pixelated : bool) : gmap string pyval :=
  match ImageOverlay.new py3 tagging_transform tagging_to_url
          (sample_overlay false pixelated) with
  | inr self => self
  | inl _ => ∅
  end.

Lemma sample_self_new pixelated :
  ImageOverlay.new py3 tagging_transform tagging_to_url
    (sample_overlay false pixelated) = inr (sample_self pixelated).
Proof. destruct pixelated; vm_compute; reflexivity. Qed.

(** Two pixelated overlays, the first rendered twice. *)
Lemma pixelated_css_once_witness :
  ∃ root',
    render_all (λ _, [])
      [(sample_self true, txt "image_overlay_1");
       (sample_self true, txt "image_overlay_2");
       (sample_self true, txt "image_overlay_1")] empty_figure = inr root'
    ∧ children_named ImageOverlay.css_key (header root') = 1%nat.
Proof.
  destruct (pixelated_css_once py3 tagging_transform tagging_to_url (λ _, [])
              empty_figure
              [(sample_self true, txt "image_overlay_1");
               (sample_self true, txt "image_overlay_2");
               (sample_self true, txt "image_overlay_1")]
              [sample_overlay false true; sample_overlay false true;
               sample_overlay false true])
    as (root' & Hr & Hp & _).
  - reflexivity.
  - constructor.
  - repeat constructor; apply sample_self_new.
  - exists root'. split; [exact Hr|]. apply Hp. reflexivity.
Defined.

Lemma render_requires_figure_witness :
  ImageOverlay.render (λ _, []) (sample_self true) (txt "image_overlay_1")
    {| is_figure := false; header := []; script := [] |}
  = inl (AssertionError not_in_figure).
Proof.
  apply (render_requires_figure py3 tagging_transform tagging_to_url (λ _, [])
           (sample_overlay false true) (sample_self true)).
  - apply sample_self_new.
  - reflexivity.
Defined.

(** [VideoOverlay(video_url='a.mp4', bounds=[[0,0],[1,1]])] under Python 3. *)
Lemma VideoOverlay_options_witness :
  lookup_attr (VideoOverlay.new py3 (VideoOverlay.defaults (txt "a.mp4") unit_square))
    "options"
  = Some (PStr (txt (video_options_text "1.0" "null" true true))).
Proof.
  apply (VideoOverlay_options py3). reflexivity.
Defined.

(** The options of [TileLayer()]. *)
Lemma options_serialisation_deterministic_witness :
  match TileLayer.new py3 sample_env TileLayer.defaults with
  | inr self =>
      ∃ d, TileLayer.options TileLayer.defaults = PDict d ∧ serialised py3 d self
  | inl _ => False
  end.
Proof.
  destruct (TileLayer.new py3 sample_env TileLayer.defaults) as [e|self] eqn:E.
  - vm_compute in E. discriminate E.
  - exact (proj1 (options_serialisation_deterministic py3) sample_env _ self E).
Defined.
(** * Further properties *)

(** ** Reading back what [json.dumps] writes: strings *)

Lemma hex_val_digit n : 0 ≤ n < 16 → hex_val (hex_digit n) = Some n.
Proof.
  intros H.
  assert (n = 0 ∨ n = 1 ∨ n = 2 ∨ n = 3 ∨ n = 4 ∨ n = 5 ∨ n = 6 ∨ n = 7
          ∨ n = 8 ∨ n = 9 ∨ n = 10 ∨ n = 11 ∨ n = 12 ∨ n = 13 ∨ n = 14
          ∨ n = 15) as Hn by lia.
  destruct_or!; subst n; reflexivity.
Qed.

(** [_decode_uXXXX] reads the four digits of an escape back. *)
Lemma decode_hex4_digits c :
  0 ≤ c < 65536 →
  decode_hex4 (hex_digit (c / 4096 mod 16)) (hex_digit (c / 256 mod 16))
    (hex_digit (c / 16 mod 16)) (hex_digit (c mod 16)) = Some c.
Proof.
  intros Hc. unfold decode_hex4.
  rewrite !hex_val_digit by (apply Z.mod_pos_bound; lia).
  cbn [mbind option_bind]. f_equal. Z.div_mod_to_equations. lia.
Qed.

Lemma scan_units_u_escape c rest :
  0 ≤ c < 65536 →
  scan_units (u_escape c +:+ rest)
  = '(t, r) ← scan_units rest; Some (c :: t, r).
Proof.
  intros Hc. unfold u_escape, hex4. cbn [String.append scan_units].
  change (Ascii.eqb "\" dq) with false. change (Ascii.eqb "\" "\") with true.
  change (Ascii.eqb "u" "u") with true. cbv iota.
  by rewrite decode_hex4_digits.
Qed.

(** The code units of a code point: itself, or the surrogate pair of a
    code point beyond the basic plane. *)
Definition code_units (c : Z) : text :=
  if c <? 65536 then [c]
  else [55296 + (c - 65536) / 1024; 56320 + (c - 65536) mod 1024].

Lemma lor_high_low a b : 0 ≤ b < 1024 → Z.lor (a * 1024) b = a * 1024 + b.
Proof.
  intros Hb.
  assert (Z.land (a * 1024) b = 0) as Hland.
  { rewrite <- (Z.mod_small b 1024) at 1 by lia.
    change 1024 with (2 ^ 10) at 2. rewrite <- Z.land_ones by lia.
    rewrite (Z.land_comm b), Z.land_assoc, Z.land_ones by lia.
    change (2 ^ 10) with 1024. rewrite Z.mod_mul by lia. apply Z.land_0_l. }
  pose proof (Z.add_lor_land (a * 1024) b). lia.
Qed.

Lemma surrogate_pair c :
  65536 ≤ c ≤ 1114111 →
  let n := c - 65536 in
  Z.lor 55296 (Z.land (Z.shiftr n 10) 1023) = 55296 + n / 1024
  ∧ Z.lor 56320 (Z.land n 1023) = 56320 + n mod 1024.
Proof.
  intros Hc n.
  assert (0 ≤ n < 1048576) as Hn by (subst n; lia).
  change 1023 with (Z.ones 10). rewrite !Z.land_ones by lia.
  rewrite Z.shiftr_div_pow2 by lia. change (2 ^ 10) with 1024.
  assert (0 ≤ n / 1024 < 1024) as Hq by (Z.div_mod_to_equations; lia).
  rewrite (Z.mod_small (n / 1024)) by lia.
  change 55296 with (54 * 1024). change 56320 with (55 * 1024).
  rewrite !lor_high_low; [done| |done].
  apply Z.mod_pos_bound. lia.
Qed.

Lemma cp_ascii_of c : 0 ≤ c < 256 → cp (ascii_of_N (Z.to_N c)) = c.
Proof.
  intros Hc. unfold cp. rewrite N_ascii_embedding by lia. lia.
Qed.

Lemma ascii_eqb_cp a b : cp a ≠ cp b → Ascii.eqb a b = false.
Proof.
  intros Hne. apply Ascii.eqb_neq. intros ->. done.
Qed.

(** One character of a string literal, as [json.dumps] writes it, is read
    as its code units. *)
Lemma scan_units_escape_cp c rest :
  0 ≤ c ≤ 1114111 →
  scan_units (json_escape_cp c +:+ rest)
  = '(t, r) ← scan_units rest; Some (code_units c ++ t, r).
Proof.
  intros Hc. unfold json_escape_cp, code_units.
  destruct (c =? 34) eqn:E1. { apply Z.eqb_eq in E1 as ->. reflexivity. }
  destruct (c =? 92) eqn:E2. { apply Z.eqb_eq in E2 as ->. reflexivity. }
  destruct (c =? 10) eqn:E3. { apply Z.eqb_eq in E3 as ->. reflexivity. }
  destruct (c =? 13) eqn:E4. { apply Z.eqb_eq in E4 as ->. reflexivity. }
  destruct (c =? 9) eqn:E5. { apply Z.eqb_eq in E5 as ->. reflexivity. }
  destruct (c =? 12) eqn:E6. { apply Z.eqb_eq in E6 as ->. reflexivity. }
  destruct (c =? 8) eqn:E7. { apply Z.eqb_eq in E7 as ->. reflexivity. }
  destruct ((32 <=? c) && (c <=? 126)) eqn:E8.
  { replace (c <? 65536) with true by lia.
    pose proof (cp_ascii_of c ltac:(lia)) as Hcp.
    cbn [String.append scan_units].
    rewrite (ascii_eqb_cp _ dq) by (rewrite Hcp; change (cp dq) with 34; lia).
    rewrite (ascii_eqb_cp _ "\") by (rewrite Hcp; change (cp "\") with 92; lia).
    rewrite Hcp. replace (c <? 32) with false by lia. done. }
  destruct (c <? 65536) eqn:E9.
  { by rewrite scan_units_u_escape by lia. }
  destruct (surrogate_pair c ltac:(lia)) as [-> ->].
  assert (0 ≤ (c - 65536) / 1024 < 1024) by (Z.div_mod_to_equations; lia).
  assert (0 ≤ (c - 65536) mod 1024 < 1024) by (apply Z.mod_pos_bound; lia).
  rewrite string_app_assoc, !scan_units_u_escape by lia.
  destruct (scan_units rest) as [[t r]|]; reflexivity.
Qed.

Lemma scan_units_escape t rest : 
  Forall (λ c, 0 ≤ c ≤ 1114111) t →
  scan_units (json_escape t +:+ String dq rest)
  = Some (flat_map code_units t, rest).
Proof.
  induction 1 as [|c t Hc _ IH]; [reflexivity|].
  cbn [json_escape flat_map]. rewrite string_app_assoc, scan_units_escape_cp by done.
  by rewrite IH.
Qed.

(** Text that [json] reads back as it was written: code points of Unicode,
    none of them a surrogate (a pair of surrogates written one after the
    other is read as the one code point they encode). *)
Definition scalar (c : Z) : bool :=
  (0 <=? c) && (c <=? 1114111) && negb (is_surrogate c).

Definition clean (t : text) : bool := forallb scalar t.

Lemma join_surrogates_code_units t :
  clean t = true → join_surrogates (flat_map code_units t) = t.
Proof.
  unfold clean. induction t as [|c t IH]; [done|].
  cbn [forallb flat_map]. intros H. apply andb_prop in H as [Hc Ht].
  specialize (IH Ht). unfold scalar, is_surrogate in Hc. unfold code_units at 1.
  destruct (c <? 65536) eqn:E.
  - cbn [app join_surrogates].
    destruct (flat_map code_units t) as [|lo t'] eqn:Et.
    + destruct t as [|c' t]; [done|]. cbn [flat_map] in Et. unfold code_units in Et.
      by destruct (c' <? 65536).
    + replace ((55296 <=? c) && (c <=? 56319) && (56320 <=? lo) && (lo <=? 57343))
        with false by lia.
      by rewrite IH.
  - assert (0 ≤ (c - 65536) / 1024 < 1024) by (Z.div_mod_to_equations; lia).
    assert (0 ≤ (c - 65536) mod 1024 < 1024) by (apply Z.mod_pos_bound; lia).
    cbn [app join_surrogates].
    match goal with |- context [if ?b then _ else _] =>
      replace b with true by lia end.
    rewrite IH. f_equal.
    rewrite Z.shiftl_mul_pow2 by lia. change (2 ^ 10) with 1024.
    rewrite lor_high_low by lia. Z.div_mod_to_equations. lia.
Qed.

Lemma clean_range t : clean t = true → Forall (λ c, 0 ≤ c ≤ 1114111) t.
Proof.
  unfold clean. rewrite forallb_forall, Forall_forall.
  intros H c Hc. apply list_elem_of_In in Hc. specialize (H c Hc).
  unfold scalar in H. lia.
Qed.

(** [scanstring] on a literal of [json.dumps], after its opening quote. *)
Lemma scan_string_escape t rest :
  clean t = true →
  scan_string (json_escape t +:+ String dq rest) = Some (t, rest).
Proof.
  intros Ht. unfold scan_string.
  rewrite scan_units_escape by (by apply clean_range).
  cbn [mbind option_bind]. by rewrite join_surrogates_code_units.
Qed.

(** ** Reading back what [json.dumps] writes: every JSON value *)

(** White space only: what the layout puts between the tokens. *)
Fixpoint blank (w : string) : bool :=
  match w with
  | EmptyString => true
  | String a w' => is_ws a && blank w'
  end.

Lemma skip_ws_blank w x : blank w = true → skip_ws (w +:+ x) = skip_ws x.
Proof.
  induction w as [|a w IH]; simpl; [done|].
  intros H. apply andb_prop in H as [-> H]. auto.
Qed.

Lemma blank_spaces n : blank (spaces n) = true.
Proof. induction n as [|n IH]; [done|]. simpl. by rewrite IH. Qed.

Lemma newline_indent_blank cfg level : blank (newline_indent cfg level) = true.
Proof.
  unfold newline_indent. destruct (indent cfg); [|done].
  simpl. by rewrite blank_spaces.
Qed.

(** Whatever the layout, the members of a container are separated by a
    comma and white space. *)
Lemma separator_form rt cfg level :
  ∃ w, blank w = true
       ∧ item_separator rt cfg +:+ newline_indent cfg level = String "," w.
Proof.
  unfold item_separator, newline_indent.
  destruct (indent cfg) as [n|], (rt_version rt); eexists;
    (split; [|reflexivity]); simpl; by rewrite ?blank_spaces.
Qed.

Lemma is_ws_delimited a x : is_ws a = true → delimited (String a x) = true.
Proof.
  unfold is_ws. intros H.
  apply orb_prop in H as [H|H];
    [apply orb_prop in H as [H|H]; [apply orb_prop in H as [H|H]|]|];
    apply Ascii.eqb_eq in H; subst a; reflexivity.
Qed.

Lemma delimited_blank w c x :
  blank w = true → delimited (String c x) = true →
  delimited (w +:+ String c x) = true.
Proof.
  destruct w as [|a w]; [done|]. intros H _.
  apply andb_prop in H as [H _]. by apply is_ws_delimited.
Qed.

(** The text [m] is read as the value [v], whatever follows it. *)
Definition reads (v : pyval) (m : string) : Prop :=
  value_head m = true
  ∧ ∀ fuel rest, (String.length m ≤ fuel)%nat → delimited rest = true →
      scan_once fuel (m +:+ rest) = Some (v, rest).

Lemma reads_back_reads v m : reads_back v m → reads v m.
Proof.
  intros (Hhead & Hlen & Hscan). split; [done|].
  intros fuel rest Hfuel Hrest. apply Hscan; [lia|done].
Qed.

Lemma reads_literal v (m : string) :
  value_head m = true →
  (∀ fuel rest, scan_once (S fuel) (m +:+ rest) = Some (v, rest)) →
  reads v m.
Proof.
  intros Hhead Hscan. split; [done|].
  intros [|fuel] rest Hfuel _; [|apply Hscan].
  apply value_head_length in Hhead. lia.
Qed.

Lemma reads_str t : clean t = true → reads (PStr t) (json_quote t).
Proof.
  intros Ht. apply reads_literal; [done|]. intros fuel rest.
  unfold json_quote. cbn [String.append scan_once].
  change (Ascii.eqb dq dq) with true. cbv iota.
  rewrite string_app_assoc. cbn [String.append].
  by rewrite scan_string_escape.
Qed.

(** The elements of an array, a comma and white space between them, white
    space before the closing bracket. *)
Lemma scan_elements_sep w w2 l ms :
  blank w = true → blank w2 = true →
  Forall2 reads l ms → l ≠ [] →
  ∀ fuel rest,
    (String.length (join_strings (String "," w) ms) < fuel)%nat →
    scan_elements fuel (join_strings (String "," w) ms +:+ w2 +:+ String "]" rest)
    = Some (l, rest).
Proof.
  intros Hw Hw2.
  induction 1 as [|v m l ms [Hhead Hscan] Hrest IH]; [done|].
  intros _ [|fuel] rest Hfuel; [lia|].
  destruct Hrest as [|v' m' l' ms' Hvm' Hrest'].
  - cbn [join_strings scan_elements] in *.
    rewrite Hscan; [|lia|by apply delimited_blank].
    cbn [mbind option_bind]. rewrite skip_ws_blank, skip_ws_bracket by done.
    cbv beta iota. by change (Ascii.eqb "]" "]") with true.
  - rewrite join_strings_cons in *. rewrite !string_length_app in Hfuel.
    pose proof (value_head_length _ Hhead).
    rewrite !string_app_assoc. cbn [scan_elements].
    change (String "," w +:+ ?x) with (String "," (w +:+ x)).
    rewrite Hscan; [|lia|done].
    cbn [mbind option_bind]. rewrite skip_ws_comma. cbv beta iota.
    change (Ascii.eqb "," "]") with false. change (Ascii.eqb "," ",") with true.
    cbv iota. rewrite skip_ws_blank, skip_ws_head by done || 
      (apply value_head_app, join_strings_head, Hvm').
    rewrite IH; [done|done|]. lia.
Qed.

(** A member of an object: the quoted key, a colon and a blank, the
    value. *)
Definition member_reads (kv : text * pyval) (m : string) : Prop :=
  ∃ s, m = json_quote kv.1 +:+ ": " +:+ s ∧ clean kv.1 = true ∧ reads kv.2 s.

Lemma member_text k s x :
  (json_quote k +:+ ": " +:+ s) +:+ x
  = String dq (json_escape k +:+ String dq (String ":" (String " " (s +:+ x)))).
Proof.
  unfold json_quote. cbn [String.append]. f_equal.
  rewrite !string_app_assoc. cbn [String.append]. reflexivity.
Qed.

Lemma member_head sep m ms x kv :
  member_reads kv m →
  ∃ y, join_strings sep (m :: ms) +:+ x = String dq y.
Proof.
  intros (s & -> & _). destruct ms as [|m' ms].
  - cbn [join_strings]. rewrite member_text. by eexists.
  - rewrite join_strings_cons, string_app_assoc, member_text. by eexists.
Qed.

Lemma skip_ws_quote x : skip_ws (String dq x) = String dq x.
Proof. reflexivity. Qed.

Lemma skip_ws_colon x : skip_ws (String ":" x) = String ":" x.
Proof. reflexivity. Qed.

Lemma skip_ws_brace x : skip_ws (String "}" x) = String "}" x.
Proof. reflexivity. Qed.

Lemma scan_members_sep w w2 kvs ms :
  blank w = true → blank w2 = true →
  Forall2 member_reads kvs ms → kvs ≠ [] →
  ∀ fuel rest,
    (String.length (join_strings (String "," w) ms) < fuel)%nat →
    scan_members fuel (join_strings (String "," w) ms +:+ w2 +:+ String "}" rest)
    = Some (kvs, rest).
Proof.
  intros Hw Hw2.
  induction 1 as [|[k v] m kvs ms (s & -> & Hk & Hhead & Hscan) Hrest IH]; [done|].
  intros _ [|fuel] rest Hfuel; [lia|]. cbn [fst snd] in *.
  pose proof (value_head_length _ Hhead).
  destruct Hrest as [|kv' m' kvs' ms' Hkv' Hrest'].
  - cbn [join_strings] in *. rewrite !string_length_app in Hfuel.
    rewrite member_text. cbn [scan_members].
    change (Ascii.eqb dq dq) with true. cbv iota.
    rewrite scan_string_escape by done. cbn [mbind option_bind].
    rewrite skip_ws_colon. cbv beta iota.
    change (Ascii.eqb ":" ":") with true. cbv iota.
    rewrite skip_ws_space, skip_ws_head by (by apply value_head_app).
    rewrite Hscan; [|lia|by apply delimited_blank].
    cbn [mbind option_bind]. rewrite skip_ws_blank, skip_ws_brace by done.
    cbv beta iota. by change (Ascii.eqb "}" "}") with true.
  - rewrite join_strings_cons in *. rewrite !string_length_app in Hfuel.
    rewrite string_app_assoc, member_text. cbn [scan_members].
    change (Ascii.eqb dq dq) with true. cbv iota.
    rewrite scan_string_escape by done. cbn [mbind option_bind].
    rewrite skip_ws_colon. cbv beta iota.
    change (Ascii.eqb ":" ":") with true. cbv iota.
    rewrite skip_ws_space, skip_ws_head by (by apply value_head_app).
    rewrite string_app_assoc.
    change (String "," w +:+ ?x) with (String "," (w +:+ x)).
    rewrite Hscan; [|lia|done].
    cbn [mbind option_bind]. rewrite skip_ws_comma. cbv beta iota.
    change (Ascii.eqb "," "}") with false. change (Ascii.eqb "," ",") with true.
    cbv iota.
    destruct (member_head (String "," w) m' ms' (w2 +:+ String "}" rest) kv' Hkv')
      as [y Hy].
    rewrite skip_ws_blank by done. rewrite Hy, skip_ws_quote, <- Hy.
    rewrite IH; [done|done|]. lia.
Qed.

(** The values [json] has a notation of its own for: [None], booleans,
    integers, floats, text without surrogates, and lists and dictionaries of
    such values, the keys of a dictionary being text. *)
Fixpoint jsonable (v : pyval) : bool :=
  match v with
  | PNone | PBool _ | PInt _ => true
  | PFloat f => float_ok f
  | PStr t => clean t
  | PList l =>
      (fix go (l : list pyval) : bool :=
         match l with
         | [] => true
         | x :: l' => jsonable x && go l'
         end) l
  | PDict d =>
      bool_decide (NoDup d.*1)
      && (fix go (d : list (text * pyval)) : bool :=
            match d with
            | [] => true
            | kv :: d' => clean kv.1 && jsonable kv.2 && go d'
            end) d
  | PBytes _ | PHost _ => false
  end.

(** What is read back from the text of a value: the value, with the items
    of every dictionary in the order of their keys when the text was written
    with [sort_keys]. *)
Fixpoint canon (sk : bool) (v : pyval) : pyval :=
  match v with
  | PList l =>
      PList ((fix go (l : list pyval) : list pyval :=
                match l with
                | [] => []
                | x :: l' => canon sk x :: go l'
                end) l)
  | PDict d =>
      PDict ((if sk then py_sorted else id)
               ((fix go (d : list (text * pyval)) : list (text * pyval) :=
                   match d with
                   | [] => []
                   | kv :: d' => (kv.1, canon sk kv.2) :: go d'
                   end) d))
  | _ => v
  end.

Lemma jsonable_list l : jsonable (PList l) = forallb jsonable l.
Proof. reflexivity. Qed.

Lemma jsonable_dict d :
  jsonable (PDict d)
  = bool_decide (NoDup d.*1)
    && forallb (λ kv, clean kv.1 && jsonable kv.2) d.
Proof. reflexivity. Qed.

Lemma canon_list sk l : canon sk (PList l) = PList (canon sk <$> l).
Proof. reflexivity. Qed.

Lemma canon_dict sk d :
  canon sk (PDict d)
  = PDict ((if sk then py_sorted else id) (prod_map id (canon sk) <$> d)).
Proof. reflexivity. Qed.

(** Without [sort_keys] nothing is reordered. *)
Lemma canon_plain v : canon false v = v.
Proof.
  induction v as [| | | | | |l IH|d IH|] using pyval_ind; try done.
  - rewrite canon_list. f_equal.
    induction IH as [|x l Hx _ IHl]; [done|]. rewrite fmap_cons. by f_equal.
  - rewrite canon_dict. f_equal. unfold id.
    induction IH as [|[k x] d Hx _ IHd]; [done|]. rewrite fmap_cons.
    simpl in Hx. unfold prod_map at 1. simpl. by rewrite Hx, IHd.
Qed.

Lemma insert_item_fmap {A B} (f : A → B) kv (l : list (text * A)) :
  insert_item (prod_map id f kv) (prod_map id f <$> l)
  = prod_map id f <$> insert_item kv l.
Proof.
  induction l as [|kv' l IH]; [done|]. rewrite fmap_cons. simpl.
  destruct (text_leb kv.1 kv'.1); [done|]. rewrite fmap_cons. by f_equal.
Qed.

(** Sorting looks at the keys only. *)
Lemma py_sorted_fmap {A B} (f : A → B) (l : list (text * A)) :
  py_sorted (prod_map id f <$> l) = prod_map id f <$> py_sorted l.
Proof.
  induction l as [|kv l IH]; [done|]. rewrite fmap_cons. simpl.
  fold (py_sorted (prod_map id f <$> l)). fold (py_sorted l).
  by rewrite IH, insert_item_fmap.
Qed.

Lemma dict_update_fresh (acc kvs : list (text * pyval)) :
  NoDup (acc ++ kvs).*1 → dict_update acc kvs = acc ++ kvs.
Proof.
  unfold dict_update. revert acc.
  induction kvs as [|[k v] kvs IH]; intros acc Hnd; simpl.
  - by rewrite app_nil_r.
  - assert (dict_set k v acc = acc ++ [(k, v)]) as ->.
    { assert (k ∉ acc.*1) as Hk.
      { rewrite fmap_app, fmap_cons in Hnd. apply NoDup_app in Hnd as (_ & Hd & _).
        intros Hin. apply (Hd k Hin). left. }
      clear -Hk. induction acc as [|[k' v'] acc IHa]; [done|].
      rewrite fmap_cons in Hk. apply not_elem_of_cons in Hk as [Hne Hk].
      simpl. rewrite decide_False by done. by rewrite IHa. }
    rewrite IH; rewrite <- app_assoc; done.
Qed.

Section ReadBack.
Variable rt : runtime.
Variable cfg : dumps_cfg.

Lemma collect_reads level l :
  Forall (λ v, ∃ s, json_encode rt cfg level v = inr s ∧ reads (canon (sort_keys cfg) v) s) l →
  ∃ ms, collect (json_encode rt cfg level <$> l) = inr ms ∧ Forall2 reads (canon (sort_keys cfg) <$> l) ms.
Proof.
  induction 1 as [|v l (s & Hs & Hr) _ (ms & Hms & Hall)].
  - by exists [].
  - exists (s :: ms). rewrite !fmap_cons. simpl. rewrite Hs, Hms. simpl.
    split; [done|]. by constructor.
Qed.

Lemma collect_member_reads level d :
  Forall (λ kv, clean kv.1 = true
                ∧ ∃ s, json_encode rt cfg level kv.2 = inr s ∧ reads (canon (sort_keys cfg) kv.2) s) d →
  ∃ ms, collect (encode_member <$> (prod_map id (json_encode rt cfg level) <$> d)) = inr ms
        ∧ Forall2 member_reads (prod_map id (canon (sort_keys cfg)) <$> d) ms.
Proof.
  induction 1 as [|[k v] d (Hk & s & Hs & Hr) _ (ms & Hms & Hall)].
  - by exists [].
  - cbn [fst snd] in *. exists ((json_quote k +:+ ": " +:+ s) :: ms).
    rewrite !fmap_cons.
    cbn [collect encode_member prod_map fst snd id bind_result].
    rewrite Hs, Hms. cbn [bind_result]. split; [done|].
    constructor; [|done]. by exists s.
Qed.

Lemma container_text opening closing level m ms :
  ∃ w w1 w2,
    blank w = true ∧ blank w1 = true ∧ blank w2 = true
    ∧ encode_container rt cfg opening closing level (m :: ms)
      = opening +:+ w1 +:+ join_strings (String "," w) (m :: ms) +:+ w2 +:+ closing.
Proof.
  destruct (separator_form rt cfg (S level)) as (w & Hw & Hsep).
  exists w, (newline_indent cfg (S level)), (newline_indent cfg level).
  rewrite !newline_indent_blank. unfold encode_container. by rewrite Hsep.
Qed.

Lemma join_strings_length sep m ms :
  (String.length m ≤ String.length (join_strings sep (m :: ms)))%nat.
Proof.
  destruct ms as [|m' ms]; [done|].
  rewrite join_strings_cons, string_length_app. lia.
Qed.

Lemma reads_list level l ms :
  Forall2 reads l ms →
  reads (PList l) (encode_container rt cfg "[" "]" level ms).
Proof.
  intros Hall. destruct Hall as [|v m l ms Hvm Hall].
  { by apply reads_literal. }
  destruct (container_text "[" "]" level m ms) as (w & w1 & w2 & Hw & Hw1 & Hw2 & ->).
  split; [done|]. intros [|fuel] rest Hfuel _; [simpl in Hfuel; lia|].
  cbn [String.append String.length] in *. rewrite !string_length_app in Hfuel.
  rewrite !string_app_assoc. cbn [String.append scan_once].
  change (Ascii.eqb "[" dq) with false. change (Ascii.eqb "[" "{") with false.
  change (Ascii.eqb "[" "[") with true. cbv iota.
  pose proof (join_strings_head (String "," w) m ms (proj1 Hvm)) as Hj.
  pose proof (value_head_app _ (w2 +:+ String "]" rest) Hj) as Hj'.
  rewrite skip_ws_blank, (skip_ws_head _ Hj') by done.
  destruct (join_strings (String "," w) (m :: ms) +:+ w2 +:+ String "]" rest)
    as [|b r] eqn:E; [done|].
  cbn [value_head] in Hj'. apply andb_prop in Hj' as [_ Hb].
  apply negb_true_iff in Hb. rewrite Hb, <- E.
  rewrite (scan_elements_sep w w2 (v :: l) (m :: ms)); try done.
  - by constructor.
  - change (String.length "]") with 1%nat in Hfuel. lia.
Qed.

Lemma reads_dict level kvs ms :
  NoDup kvs.*1 → Forall2 member_reads kvs ms →
  reads (PDict kvs) (encode_container rt cfg "{" "}" level ms).
Proof.
  intros Hnd Hall. destruct Hall as [|kv m kvs ms Hkv Hall].
  { by apply reads_literal. }
  destruct (container_text "{" "}" level m ms) as (w & w1 & w2 & Hw & Hw1 & Hw2 & ->).
  split; [done|]. intros [|fuel] rest Hfuel _; [simpl in Hfuel; lia|].
  cbn [String.append String.length] in *. rewrite !string_length_app in Hfuel.
  rewrite !string_app_assoc. cbn [String.append scan_once].
  change (Ascii.eqb "{" dq) with false. change (Ascii.eqb "{" "{") with true.
  cbv iota.
  destruct (member_head (String "," w) m ms (w2 +:+ String "}" rest) kv Hkv)
    as [y Hy].
  rewrite skip_ws_blank by done. rewrite Hy, skip_ws_quote.
  change (Ascii.eqb dq "}") with false. cbv iota. rewrite <- Hy.
  rewrite (scan_members_sep w w2 (kv :: kvs) (m :: ms)); try done.
  - cbn [mbind option_bind]. by rewrite (dict_update_fresh []).
  - by constructor.
  - change (String.length "}") with 1%nat in Hfuel. lia.
Qed.

(** Every JSON value is written by [json.dumps], in any layout, and the
    text is read as the value. *)
Lemma jsonable_reads v :
  jsonable v = true → ∀ level, ∃ s, json_encode rt cfg level v = inr s ∧ reads (canon (sort_keys cfg) v) s.
Proof.
  induction v as [|b|z|f|t| |l IH|d IH|] using pyval_ind; try done.
  - intros _ level. exists "null". split; [done|]. by apply reads_literal.
  - intros _ level. destruct b; eexists; (split; [reflexivity|]);
      by apply reads_literal.
  - intros _ level. eexists. split; [reflexivity|].
    apply reads_back_reads, reads_back_int.
  - intros Hf level. eexists. split; [reflexivity|].
    by apply reads_back_reads, reads_back_float.
  - intros Ht level. eexists. split; [reflexivity|]. by apply reads_str.
  - rewrite jsonable_list. intros Hl level.
    rewrite json_encode_list, canon_list.
    destruct (collect_reads (S level) l) as (ms & -> & Hall).
    { rewrite forallb_forall in Hl. rewrite Forall_forall in IH |- *.
      intros x Hx. apply IH; [done|]. apply Hl. by apply list_elem_of_In. }
    cbn [bind_result]. eexists. split; [reflexivity|]. by apply reads_list.
  - rewrite jsonable_dict. intros Hd level.
    apply andb_prop in Hd as [Hnd Hd]. apply bool_decide_eq_true in Hnd.
    rewrite json_encode_dict, canon_dict.
    set (d' := (if sort_keys cfg then py_sorted else id) d).
    assert (d' ≡ₚ d) as Hperm.
    { subst d'. destruct (sort_keys cfg); [apply py_sorted_perm|done]. }
    assert ((if sort_keys cfg then py_sorted else id)
              (prod_map id (json_encode rt cfg (S level)) <$> d)
            = prod_map id (json_encode rt cfg (S level)) <$> d') as ->.
    { subst d'. destruct (sort_keys cfg); [apply py_sorted_fmap|done]. }
    assert ((if sort_keys cfg then py_sorted else id) (prod_map id (canon (sort_keys cfg)) <$> d)
            = prod_map id (canon (sort_keys cfg)) <$> d') as ->.
    { subst d'. destruct (sort_keys cfg); [apply py_sorted_fmap|done]. }
    destruct (collect_member_reads (S level) d') as (ms & -> & Hall).
    { rewrite Hperm. rewrite forallb_forall in Hd. rewrite Forall_forall in IH |- *.
      intros kv Hkv. specialize (Hd kv ltac:(by apply list_elem_of_In)).
      apply andb_prop in Hd as [Hk Hv]. split; [done|]. by apply IH. }
    cbn [bind_result]. eexists. split; [reflexivity|].
    apply reads_dict; [|done].
    rewrite <- list_fmap_compose.
    assert (fst ∘ prod_map id (canon (sort_keys cfg)) = (fst : text * pyval → text)) as -> by done.
    by rewrite Hperm.
Qed.

(** [json.loads(json.dumps(v))] is [v], up to the order of the items of its
    dictionaries. *)
Lemma json_loads_dumps v :
  jsonable v = true →
  ∃ s, json_dumps rt cfg v = inr s ∧ json_loads s = inr (canon (sort_keys cfg) v).
Proof.
  intros Hv. destruct (jsonable_reads v Hv O) as (s & Hs & Hhead & Hscan).
  exists s. split; [done|]. unfold json_loads.
  rewrite (skip_ws_head _ Hhead).
  pose proof (Hscan (S (String.length s)) "" ltac:(lia) eq_refl) as H.
  rewrite string_app_nil_r in H. by rewrite H.
Qed.

End ReadBack.

(** ** Encoding text as UTF-8 and decoding it again *)

Lemma byte_val_of z : 0 ≤ z < 256 → byte_val (byte_of z) = z.
Proof.
  intros Hz. unfold byte_val, byte_of.
  destruct (Byte.of_N (Z.to_N z)) as [b|] eqn:E.
  - apply Byte.to_of_N in E. simpl. lia.
  - apply Byte.of_N_None_iff in E. lia.
Qed.

(** The code points the codec of the interpreter encodes and decodes. *)
Definition encodable (surrogates : bool) (c : Z) : bool :=
  (0 <=? c) && (c <=? 1114111) && (surrogates || negb (is_surrogate c)).

Lemma utf8_decode_cons surrogates c t :
  encodable surrogates c = true →
  utf8_decode surrogates (utf8_encode_cp c ++ t)
  = cons c <$> utf8_decode surrogates t.
Proof.
  unfold encodable, utf8_encode_cp. intros Hc.
  apply andb_prop in Hc as [Hc Hs]. 
  destruct (c <? 128) eqn:E1.
  { cbn [app utf8_decode]. cbv zeta. rewrite byte_val_of by lia. by rewrite E1. }
  destruct (c <? 2048) eqn:E2.
  { assert (2 ≤ c / 64 < 32 ∧ 0 ≤ c mod 64 < 64) as [Hq Hr]
      by (Z.div_mod_to_equations; lia).
    cbn [app utf8_decode]. cbv zeta. unfold is_cont. rewrite !byte_val_of by lia.
    replace (192 + c / 64 <? 128) with false by lia.
    replace (192 + c / 64 <? 194) with false by lia.
    replace (192 + c / 64 <? 224) with true by lia.
    replace ((128 <=? 128 + c mod 64) && (128 + c mod 64 <? 192)) with true by lia.
    replace ((192 + c / 64 - 192) * 64 + (128 + c mod 64 - 128)) with c
      by (Z.div_mod_to_equations; lia).
    done. }
  destruct (c <? 65536) eqn:E3.
  { assert (0 ≤ c / 4096 < 16 ∧ 0 ≤ c / 64 mod 64 < 64 ∧ 0 ≤ c mod 64 < 64)
      as (Hq & Hm & Hr) by (Z.div_mod_to_equations; lia).
    cbn [app utf8_decode]. cbv zeta. unfold is_cont. rewrite !byte_val_of by lia.
    replace (224 + c / 4096 <? 128) with false by lia.
    replace (224 + c / 4096 <? 194) with false by lia.
    replace (224 + c / 4096 <? 224) with false by lia.
    replace (224 + c / 4096 <? 240) with true by lia.
    replace ((224 + c / 4096 - 224) * 4096 + (128 + c / 64 mod 64 - 128) * 64
             + (128 + c mod 64 - 128)) with c by (Z.div_mod_to_equations; lia).
    replace ((128 <=? 128 + c / 64 mod 64) && (128 + c / 64 mod 64 <? 192))
      with true by lia.
    replace ((128 <=? 128 + c mod 64) && (128 + c mod 64 <? 192)) with true by lia.
    replace (2048 <=? c) with true by lia. rewrite Hs. done. }
  assert (0 ≤ c / 262144 < 5 ∧ 0 ≤ c / 4096 mod 64 < 64 ∧ 0 ≤ c / 64 mod 64 < 64
          ∧ 0 ≤ c mod 64 < 64) as (Hq & Hm1 & Hm2 & Hr)
    by (Z.div_mod_to_equations; lia).
  cbn [app utf8_decode]. cbv zeta. unfold is_cont. rewrite !byte_val_of by lia.
  replace (240 + c / 262144 <? 128) with false by lia.
  replace (240 + c / 262144 <? 194) with false by lia.
  replace (240 + c / 262144 <? 224) with false by lia.
  replace (240 + c / 262144 <? 240) with false by lia.
  replace (240 + c / 262144 <? 245) with true by lia.
  replace ((240 + c / 262144 - 240) * 262144 + (128 + c / 4096 mod 64 - 128) * 4096
           + (128 + c / 64 mod 64 - 128) * 64 + (128 + c mod 64 - 128)) with c
    by (Z.div_mod_to_equations; lia).
  replace ((128 <=? 128 + c / 4096 mod 64) && (128 + c / 4096 mod 64 <? 192))
    with true by lia.
  replace ((128 <=? 128 + c / 64 mod 64) && (128 + c / 64 mod 64 <? 192))
    with true by lia.
  replace ((128 <=? 128 + c mod 64) && (128 + c mod 64 <? 192)) with true by lia.
  replace (65536 <=? c) with true by lia. replace (c <=? 1114111) with true by lia.
  done.
Qed.

(** Encoding loses nothing either: the bytes of a text decode to it. *)
Lemma utf8_decode_encode surrogates t :
  forallb (encodable surrogates) t = true →
  utf8_decode surrogates (utf8_encode t) = Some t.
Proof.
  induction t as [|c t IH]; [done|]. cbn [forallb]. intros H.
  apply andb_prop in H as [Hc Ht]. unfold utf8_encode. cbn [flat_map].
  rewrite utf8_decode_cons by done. fold (utf8_encode t). by rewrite IH.
Qed.

Lemma utf8_encode_nil t : utf8_encode t = [] → t = [].
Proof.
  destruct t as [|c t]; [done|]. unfold utf8_encode. cbn [flat_map].
  unfold utf8_encode_cp. by repeat case_match.
Qed.

(** ** TileLayer: when the construction succeeds and how it fails *)

(** The items of the options of a [TileLayer] in the order [sort_keys]
    writes them. *)
Lemma TileLayer_items_sorted {A} (x1 x2 x3 x4 x5 x6 : A) :
  py_sorted [(txt "minZoom", x1); (txt "maxZoom", x2); (txt "noWrap", x3);
             (txt "attribution", x4); (txt "subdomains", x5);
             (txt "detectRetina", x6)]
  = [(txt "attribution", x4); (txt "detectRetina", x6); (txt "maxZoom", x2);
     (txt "minZoom", x1); (txt "noWrap", x3); (txt "subdomains", x5)].
Proof. reflexivity. Qed.

(** Only [attr] can keep the options from being serialised, and its error
    is the error of the serialisation. *)
Lemma TileLayer_options_error rt a e :
  json_encode rt sorted_indent2 1 (TileLayer.attr a) = inl e →
  json_dumps rt sorted_indent2 (TileLayer.options a) = inl e.
Proof.
  intros Ha. unfold json_dumps, TileLayer.options. rewrite json_encode_dict.
  cbn [fmap list_fmap prod_map id fst snd sort_keys sorted_indent2].
  rewrite TileLayer_items_sorted, Ha. reflexivity.
Qed.

(** Once the options are serialised, the decoding of line 102 cannot
    fail: a byte string that was serialised is UTF-8. *)
Lemma serialised_bytes_decode rt v sa :
  json_encode rt sorted_indent2 1 v = inr sa →
  ∀ b, v = PBytes b → ∃ t, utf8_decode (rt_surrogates rt) b = Some t.
Proof.
  intros Hv b ->. simpl in Hv. unfold encode_bytes in Hv.
  destruct (rt_version rt); [|done].
  destruct (utf8_decode (rt_surrogates rt) b) as [t|]; [by exists t|done].
Qed.

(** The outcome of [TileLayer(...)], case by case, in the order the
    constructor checks. *)
Lemma TileLayer_new_outcome rt env a :
  let t := normalize rt (TileLayer.tiles a) in
  match json_encode rt sorted_indent2 1 (TileLayer.attr a) with
  | inl e => TileLayer.new rt env a = inl e
  | inr _ =>
      if TileLayer.key_gated t && negb (truthy (TileLayer.API_key a))
      then TileLayer.new rt env a = inl (ValueError TileLayer.api_key_required)
      else if TileLayer.built_in env t || truthy (TileLayer.attr a)
      then ∃ self, TileLayer.new rt env a = inr self
      else TileLayer.new rt env a = inl (ValueError TileLayer.attribution_required)
  end.
Proof.
  cbv zeta.
  destruct (json_encode rt sorted_indent2 1 (TileLayer.attr a)) as [e|sa] eqn:Ha.
  { apply TileLayer_options_error in Ha. run_init. by rewrite Ha. }
  destruct (TileLayer_options_serialise _ _ _ Ha) as [s Hs].
  destruct (TileLayer.key_gated _ && negb _) eqn:Hg.
  { run_init. by rewrite Hs, Hg. }
  destruct (TileLayer.built_in env _) eqn:Hb; cbn [orb].
  { destruct (built_in_templates _ _ Hb) as (tt & at_ & Ht & _ & Hat & _).
    run_init. rewrite Hs, Hg, Hb, Ht, Hat. by eexists. }
  destruct (truthy (TileLayer.attr a)) eqn:Htr.
  - pose proof (serialised_bytes_decode rt _ _ Ha) as Hdec.
    run_init. rewrite Hs, Hg, Hb, Htr. cbn [negb].
    destruct (TileLayer.attr a) as [| | | | |b| | |]; try (by eexists).
    destruct (Hdec b eq_refl) as [t ->]. by eexists.
  - run_init. by rewrite Hs, Hg, Hb, Htr.
Qed.



(** [TileLayer()] in the sample registry. *)
Definition osm_layer : gmap string pyval :=
  match TileLayer.new py3 sample_env TileLayer.defaults with
  | inr self => self
  | inl _ => ∅
  end.

Lemma osm_layer_new : TileLayer.new py3 sample_env TileLayer.defaults = inr osm_layer.
Proof. vm_compute. reflexivity. Qed.

(** X3.  For a built-in provider the instance gets its URL template and its
    attribution from the registry: [tiles] is the provider's [tiles.txt]
    rendered with the API key, [attr] is its [attr.txt] rendered without
    arguments.  The [attr] argument, if one was passed, is not what [attr]
    holds. *)
Theorem TileLayer_built_in_fields rt env (a : TileLayer.args) self :
  TileLayer.built_in env (normalize rt (TileLayer.tiles a)) = true →
  TileLayer.new rt env a = inr self →
  ∃ tiles_txt attr_txt,
    get_template env (TileLayer.tile_template (normalize rt (TileLayer.tiles a)))
    = inr tiles_txt
    ∧ get_template env (TileLayer.attr_template (normalize rt (TileLayer.tiles a)))
      = inr attr_txt
    ∧ self !! "tiles"
      = Some (PStr (tiles_txt [(txt "API_key", TileLayer.API_key a)]))
    ∧ self !! "attr" = Some (PStr (attr_txt [])).
Proof.
  intros Hb.
  destruct (built_in_templates _ _ Hb) as (tt & at_ & Ht & _ & Hat & _).
  run_init. rewrite Hb, Ht, Hat.
  destruct (json_dumps rt sorted_indent2 (TileLayer.options a)); [done|].
  destruct (TileLayer.key_gated _ && negb _); [done|].
  intros [= <-]. exists tt, at_. repeat split; by simplify_map_eq.
Qed.

(** ** TileLayer: what the arguments do and do not change *)

(** The arguments [a] with another [name], [tiles] or [attr]. *)
Definition with_name (a : TileLayer.args) (name : option text) : TileLayer.args := {|
  TileLayer.tiles := TileLayer.tiles a;
  TileLayer.min_zoom := TileLayer.min_zoom a;
  TileLayer.max_zoom := TileLayer.max_zoom a;
  TileLayer.attr := TileLayer.attr a;
  TileLayer.API_key := TileLayer.API_key a;
  TileLayer.detect_retina := TileLayer.detect_retina a;
  TileLayer.name := name;
  TileLayer.overlay := TileLayer.overlay a;
  TileLayer.control := TileLayer.control a;
  TileLayer.no_wrap := TileLayer.no_wrap a;
  TileLayer.subdomains := TileLayer.subdomains a;
|}.

Definition with_tiles (a : TileLayer.args) (tiles : text) : TileLayer.args := {|
  TileLayer.tiles := tiles;
  TileLayer.min_zoom := TileLayer.min_zoom a;
  TileLayer.max_zoom := TileLayer.max_zoom a;
  TileLayer.attr := TileLayer.attr a;
  TileLayer.API_key := TileLayer.API_key a;
  TileLayer.detect_retina := TileLayer.detect_retina a;
  TileLayer.name := TileLayer.name a;
  TileLayer.overlay := TileLayer.overlay a;
  TileLayer.control := TileLayer.control a;
  TileLayer.no_wrap := TileLayer.no_wrap a;
  TileLayer.subdomains := TileLayer.subdomains a;
|}.

Definition with_attr (a : TileLayer.args) (attr : pyval) : TileLayer.args := {|
  TileLayer.tiles := TileLayer.tiles a;
  TileLayer.min_zoom := TileLayer.min_zoom a;
  TileLayer.max_zoom := TileLayer.max_zoom a;
  TileLayer.attr := attr;
  TileLayer.API_key := TileLayer.API_key a;
  TileLayer.detect_retina := TileLayer.detect_retina a;
  TileLayer.name := TileLayer.name a;
  TileLayer.overlay := TileLayer.overlay a;
  TileLayer.control := TileLayer.control a;
  TileLayer.no_wrap := TileLayer.no_wrap a;
  TileLayer.subdomains := TileLayer.subdomains a;
|}.

Ltac args_fields :=
  cbn [with_name with_tiles with_attr TileLayer.options
       TileLayer.tiles TileLayer.min_zoom TileLayer.max_zoom TileLayer.attr
       TileLayer.API_key TileLayer.detect_retina TileLayer.name
       TileLayer.overlay TileLayer.control TileLayer.no_wrap
       TileLayer.subdomains].

(** X4.  The [name] argument labels the layer and does nothing else.
    Constructing with another [name] fails with the same exception or
    succeeds alike, and the two instances agree on every field but
    [tile_name] and the name kept by the base layer; [tile_name] is the name
    given, or the normal form of [tiles] when none is (an empty name is a
    name). *)
Theorem TileLayer_name_labels_only rt env (a : TileLayer.args) (n : option text) :
  match TileLayer.new rt env a with
  | inl e => TileLayer.new rt env (with_name a n) = inl e
  | inr self =>
      ∃ self',
        TileLayer.new rt env (with_name a n) = inr self'
        ∧ self' !! "tile_name"
          = Some (PStr (from_option id (normalize rt (TileLayer.tiles a)) n))
        ∧ ∀ k, k ≠ "tile_name" → k ≠ "layer_name" → self' !! k = self !! k
  end.
Proof.
  run_init. args_fields.
  destruct (json_dumps rt sorted_indent2 _) as [?|s]; [done|].
  destruct (TileLayer.key_gated _ && negb _); [done|].
  destruct (TileLayer.built_in env _).
  - destruct (get_template env (TileLayer.tile_template _)) as [?|tt]; [done|].
    destruct (get_template env (TileLayer.attr_template _)) as [?|at_]; [done|].
    eexists. split; [reflexivity|]. cbn [attrs]. split; [by simplify_map_eq|].
    intros k H1 H2. rewrite !lookup_insert.
    rewrite !(decide_False (P := "tile_name" = k)) by done.
    by rewrite !(decide_False (P := "layer_name" = k)) by done.
  - destruct (negb (truthy (TileLayer.attr a))); [done|].
    destruct (TileLayer.attr a) as [| | | | |b| | |];
      try (eexists; split; [reflexivity|]; cbn [attrs];
           split; [by simplify_map_eq|];
           intros k H1 H2; rewrite !lookup_insert;
           rewrite !(decide_False (P := "tile_name" = k)) by done;
           by rewrite !(decide_False (P := "layer_name" = k)) by done).
    destruct (utf8_decode (rt_surrogates rt) b); [|done].
    eexists. split; [reflexivity|]. cbn [attrs]. split; [by simplify_map_eq|].
    intros k H1 H2. rewrite !lookup_insert.
    rewrite !(decide_False (P := "tile_name" = k)) by done.
    by rewrite !(decide_False (P := "layer_name" = k)) by done.
Qed.

(** X5.  A built-in provider is chosen by the normal form of [tiles] alone:
    two spellings with the same normal form (['OpenStreetMap'],
    [' open street map ']) give the same outcome, field for field, since the
    tiles string as written is kept nowhere. *)
Theorem TileLayer_built_in_spelling rt env (a : TileLayer.args) (tiles' : text) :
  normalize rt tiles' = normalize rt (TileLayer.tiles a) →
  TileLayer.built_in env (normalize rt (TileLayer.tiles a)) = true →
  TileLayer.new rt env (with_tiles a tiles') = TileLayer.new rt env a.
Proof.
  intros Hn Hb. run_init. args_fields. rewrite Hn, Hb. reflexivity.
Qed.

(** X6.  Under Python 3 a byte-string attribution is never decoded: the
    options are serialised first (line 82), and that raises [TypeError],
    with a built-in provider as with a custom URL.  Lines 101-102 are
    reached under Python 2 only. *)
Theorem TileLayer_bytes_attr_python3 rt env (a : TileLayer.args) (b : bytes) :
  rt_version rt = Python3 →
  TileLayer.attr a = PBytes b →
  TileLayer.new rt env a
  = inl (TypeError "Object of type bytes is not JSON serializable").
Proof.
  intros Hv Ha. pose proof (TileLayer_new_outcome rt env a) as H. cbv zeta in H.
  rewrite Ha in H. simpl in H. unfold encode_bytes in H. by rewrite Hv in H.
Qed.

Lemma TileLayer_options_attr rt a v v' :
  json_encode rt sorted_indent2 1 v = json_encode rt sorted_indent2 1 v' →
  json_dumps rt sorted_indent2 (TileLayer.options (with_attr a v))
  = json_dumps rt sorted_indent2 (TileLayer.options (with_attr a v')).
Proof.
  intros Hv. unfold json_dumps, TileLayer.options. args_fields.
  rewrite !json_encode_dict.
  cbn [fmap list_fmap prod_map id fst snd]. by rewrite Hv.
Qed.

(** X7.  Under Python 2 a byte-string attribution and the text it encodes
    are interchangeable: for any text of code points the codec encodes,
    constructing with its UTF-8 bytes gives the very outcome of constructing
    with the text, the same instance or the same exception. *)
Theorem TileLayer_bytes_attr_python2 rt env (a : TileLayer.args) (t : text) :
  rt_version rt = Python2 →
  forallb (encodable (rt_surrogates rt)) t = true →
  TileLayer.new rt env (with_attr a (PBytes (utf8_encode t)))
  = TileLayer.new rt env (with_attr a (PStr t)).
Proof.
  intros Hv Ht. pose proof (utf8_decode_encode _ _ Ht) as Hdec.
  assert (json_encode rt sorted_indent2 1 (PBytes (utf8_encode t))
          = json_encode rt sorted_indent2 1 (PStr t)) as Henc.
  { simpl. unfold encode_bytes. by rewrite Hv, Hdec. }
  assert (truthy (PBytes (utf8_encode t)) = truthy (PStr t)) as Htr.
  { simpl. destruct t as [|c t]; [done|].
    destruct (utf8_encode (c :: t)) eqn:E; [|done].
    by apply utf8_encode_nil in E. }
  run_init. rewrite (TileLayer_options_attr rt a _ _ Henc).
  args_fields. rewrite Htr, Hdec. reflexivity.
Qed.

(** The arguments [a] with another API key. *)
Definition with_API_key (a : TileLayer.args) (key : pyval) : TileLayer.args := {|
  TileLayer.tiles := TileLayer.tiles a;
  TileLayer.min_zoom := TileLayer.min_zoom a;
  TileLayer.max_zoom := TileLayer.max_zoom a;
  TileLayer.attr := TileLayer.attr a;
  TileLayer.API_key := key;
  TileLayer.detect_retina := TileLayer.detect_retina a;
  TileLayer.name := TileLayer.name a;
  TileLayer.overlay := TileLayer.overlay a;
  TileLayer.control := TileLayer.control a;
  TileLayer.no_wrap := TileLayer.no_wrap a;
  TileLayer.subdomains := TileLayer.subdomains a;
|}.

(** X8.  The API key goes into the URL template and nowhere else.  With
    two keys that are both given (or both missing), the construction raises
    the same exception or succeeds alike, and the two instances agree on
    every field but [tiles]: the key is not kept as a field and is not
    written into the options. *)
Theorem TileLayer_API_key_only_in_tiles rt env (a : TileLayer.args) (key : pyval) :
  truthy key = truthy (TileLayer.API_key a) →
  match TileLayer.new rt env a with
  | inl e => TileLayer.new rt env (with_API_key a key) = inl e
  | inr self =>
      ∃ self',
        TileLayer.new rt env (with_API_key a key) = inr self'
        ∧ ∀ k, k ≠ "tiles" → self' !! k = self !! k
  end.
Proof.
  intros Hkey. run_init.
  cbn [with_API_key TileLayer.tiles TileLayer.min_zoom TileLayer.max_zoom
       TileLayer.attr TileLayer.API_key TileLayer.detect_retina TileLayer.name
       TileLayer.overlay TileLayer.control TileLayer.no_wrap TileLayer.subdomains].
  change (TileLayer.options (with_API_key a key)) with (TileLayer.options a).
  rewrite Hkey.
  destruct (json_dumps rt sorted_indent2 _) as [?|s]; [done|].
  destruct (TileLayer.key_gated _ && negb _); [done|].
  destruct (TileLayer.built_in env _).
  - destruct (get_template env (TileLayer.tile_template _)) as [?|tt]; [done|].
    destruct (get_template env (TileLayer.attr_template _)) as [?|at_]; [done|].
    eexists. split; [reflexivity|]. cbn [attrs].
    intros k Hk. rewrite !lookup_insert.
    by rewrite !(decide_False (P := "tiles" = k)) by done.
  - destruct (negb (truthy (TileLayer.attr a))); [done|].
    destruct (TileLayer.attr a) as [| | | | |b| | |];
      try (eexists; split; [reflexivity|]; done).
    destruct (utf8_decode (rt_surrogates rt) b); [|done].
    eexists. split; [reflexivity|]. done.
Qed.


(** ** Lookups in dictionaries *)

Lemma dict_get_set_eq k v (d : list (text * pyval)) :
  dict_get k (dict_set k v d) = Some v.
Proof.
  induction d as [|kv d IH]; simpl.
  - by rewrite decide_True.
  - destruct (decide (kv.1 = k)) as [Heq|Hne]; simpl.
    + by rewrite decide_True.
    + by rewrite decide_False.
Qed.

Lemma dict_get_set_ne k k' v (d : list (text * pyval)) :
  k' ≠ k → dict_get k' (dict_set k v d) = dict_get k' d.
Proof.
  intros Hne. induction d as [|kv d IH]; simpl.
  - by rewrite decide_False.
  - destruct (decide (kv.1 = k)) as [Heq|Hne']; simpl.
    + rewrite !decide_False by congruence. done.
    + by rewrite IH.
Qed.

Lemma dict_get_filter k k' (d : list (text * pyval)) :
  k' ≠ k →
  dict_get k' (List.filter (λ kv, negb (bool_decide (kv.1 = k))) d) = dict_get k' d.
Proof.
  intros Hne. induction d as [|kv d IH]; [done|]. simpl.
  destruct (decide (kv.1 = k)) as [Heq|Hne'].
  - rewrite bool_decide_eq_true_2 by done. simpl.
    rewrite decide_False by congruence. done.
  - rewrite bool_decide_eq_false_2 by done. simpl. by rewrite IH.
Qed.

Lemma dict_get_fmap (f : pyval → pyval) k (d : list (text * pyval)) :
  dict_get k (prod_map id f <$> d) = f <$> dict_get k d.
Proof.
  induction d as [|[k' x] d IH]; [done|]. rewrite fmap_cons. simpl.
  by destruct (decide (k' = k)).
Qed.

Lemma dict_get_elem k v (d : list (text * pyval)) :
  NoDup d.*1 → dict_get k d = Some v ↔ (k, v) ∈ d.
Proof.
  induction d as [|[k' x] d IH]; intros Hnd.
  - split; [done|]. intros H. by apply elem_of_nil in H.
  - rewrite fmap_cons in Hnd. apply NoDup_cons in Hnd as [Hnin Hnd]. simpl.
    destruct (decide (k' = k)) as [->|Hne].
    + split.
      * intros [= ->]. left.
      * intros [[= ->]|Hin]%elem_of_cons; [done|].
        exfalso. apply Hnin. by apply (list_elem_of_fmap_2 fst _ (k, v)).
    + rewrite IH by done. split.
      * intros Hin. by right.
      * intros [[= -> ->]|Hin]%elem_of_cons; done.
Qed.

(** A dictionary gives the same value for a key in whatever order it holds
    its items. *)
Lemma dict_get_perm k (d d' : list (text * pyval)) :
  NoDup d.*1 → d' ≡ₚ d → dict_get k d' = dict_get k d.
Proof.
  intros Hnd Hperm.
  assert (NoDup d'.*1) as Hnd' by (by rewrite Hperm).
  destruct (dict_get k d) as [v|] eqn:E.
  - apply dict_get_elem in E; [|done]. apply dict_get_elem; [done|].
    by rewrite Hperm.
  - destruct (dict_get k d') as [v|] eqn:E'; [|done].
    apply dict_get_elem in E'; [|done]. rewrite Hperm in E'.
    apply dict_get_elem in E'; [|done]. congruence.
Qed.

(** ** ImageOverlay: the keyword arguments *)

Ltac txt_ne := let H := fresh in intros H; vm_compute in H; discriminate H.

(** [kwargs.get(k, default)] *)
Definition kwarg (kw : list (text * pyval)) (k : text) (default : pyval) : pyval :=
  from_option id default (dict_get k kw).

(** The options of an [ImageOverlay] read the keyword arguments by their
    seven names; one [pop] does not disturb the next. *)
Lemma ImageOverlay_options_kwarg kw :
  ImageOverlay.options kw
  = PDict [(txt "opacity", kwarg kw (txt "opacity") (PFloat (FRepr "1.0")));
           (txt "alt", kwarg kw (txt "alt") (PStr []));
           (txt "interactive", kwarg kw (txt "interactive") (PBool false));
           (txt "crossOrigin", kwarg kw (txt "cross_origin") (PBool false));
           (txt "errorOverlayUrl", kwarg kw (txt "error_overlay_url") (PStr []));
           (txt "zIndex", kwarg kw (txt "zindex") (PInt 1));
           (txt "className", kwarg kw (txt "class_name") (PStr []))].
Proof.
  unfold ImageOverlay.options, dict_pop, kwarg. cbv beta iota zeta.
  by rewrite !dict_get_filter by txt_ne.
Qed.

(** The option a keyword argument sets, if any. *)
Definition option_key (k : text) : option text :=
  if decide (k = txt "opacity") then Some (txt "opacity")
  else if decide (k = txt "alt") then Some (txt "alt")
  else if decide (k = txt "interactive") then Some (txt "interactive")
  else if decide (k = txt "cross_origin") then Some (txt "crossOrigin")
  else if decide (k = txt "error_overlay_url") then Some (txt "errorOverlayUrl")
  else if decide (k = txt "zindex") then Some (txt "zIndex")
  else if decide (k = txt "class_name") then Some (txt "className")
  else None.

Definition with_kwargs (a : ImageOverlay.args) (kw : list (text * pyval)) :
    ImageOverlay.args := {|
  ImageOverlay.image := ImageOverlay.image a;
  ImageOverlay.bounds := ImageOverlay.bounds a;
  ImageOverlay.origin := ImageOverlay.origin a;
  ImageOverlay.colormap := ImageOverlay.colormap a;
  ImageOverlay.mercator_project := ImageOverlay.mercator_project a;
  ImageOverlay.overlay := ImageOverlay.overlay a;
  ImageOverlay.control := ImageOverlay.control a;
  ImageOverlay.pixelated := ImageOverlay.pixelated a;
  ImageOverlay.name := ImageOverlay.name a;
  ImageOverlay.kwargs := kw;
|}.

Lemma ImageOverlay_options_unknown kw k v :
  option_key k = None →
  ImageOverlay.options (dict_set k v kw) = ImageOverlay.options kw.
Proof.
  unfold option_key. intros Hk. repeat case_decide; try done.
  rewrite !ImageOverlay_options_kwarg. unfold kwarg.
  by rewrite !dict_get_set_ne by done.
Qed.

(** X9.  Of the keyword arguments of an [ImageOverlay] only [opacity],
    [alt], [interactive], [cross_origin], [error_overlay_url], [zindex] and
    [class_name] count.  Each sets the option of its camel-case name
    ([crossOrigin], [errorOverlayUrl], [zIndex], [className]) and leaves the
    six others alone; any other keyword, the camel-case names included, is
    dropped without an error: the construction has the very outcome it has
    without it. *)
Theorem ImageOverlay_keyword_arguments rt mercator_transform image_to_url
    (a : ImageOverlay.args) (k : text) (v : pyval) :
  let kw := ImageOverlay.kwargs a in
  match option_key k with
  | None =>
      ImageOverlay.new rt mercator_transform image_to_url
        (with_kwargs a (dict_set k v kw))
      = ImageOverlay.new rt mercator_transform image_to_url a
  | Some name =>
      ∃ d, ImageOverlay.options kw = PDict d
           ∧ ImageOverlay.options (dict_set k v kw) = PDict (dict_set name v d)
  end.
Proof.
  cbv zeta. destruct (option_key k) as [name|] eqn:Hk.
  - eexists. split; [apply ImageOverlay_options_kwarg|].
    rewrite ImageOverlay_options_kwarg. unfold kwarg, option_key in *.
    repeat case_decide; simplify_eq;
      rewrite dict_get_set_eq, !dict_get_set_ne by txt_ne;
      cbn [dict_set fst from_option id];
      repeat (first [ rewrite decide_True by reflexivity
                    | rewrite decide_False by txt_ne ]);
      reflexivity.
  - run_init.
    cbn [with_kwargs ImageOverlay.image ImageOverlay.bounds ImageOverlay.origin
         ImageOverlay.colormap ImageOverlay.mercator_project ImageOverlay.overlay
         ImageOverlay.control ImageOverlay.pixelated ImageOverlay.name
         ImageOverlay.kwargs].
    by rewrite ImageOverlay_options_unknown.
Qed.

(** ** What a JSON parser reads in the options *)

Lemma canon_subdomains sk s :
  canon sk (TileLayer.subdomains_val s) = TileLayer.subdomains_val s.
Proof.
  destruct s as [t|l]; [done|]. simpl TileLayer.subdomains_val.
  rewrite canon_list, <- list_fmap_compose. done.
Qed.

(** The subdomains are text that [json] reads back as written. *)
Definition clean_subdomains (s : TileLayer.subdomains_arg) : bool :=
  match s with
  | TileLayer.Subdomains t => clean t
  | TileLayer.SubdomainList l => forallb clean l
  end.

Lemma jsonable_subdomains s :
  clean_subdomains s = true → jsonable (TileLayer.subdomains_val s) = true.
Proof.
  destruct s as [t|l]; [done|].
  cbn [clean_subdomains TileLayer.subdomains_val]. intros H.
  rewrite jsonable_list. induction l as [|t l IH]; [done|].
  cbn [forallb] in H. apply andb_prop in H as [Ht Hl].
  rewrite fmap_cons. cbn [forallb jsonable]. rewrite Ht. by apply IH.
Qed.

(** X10.  The options text of a [TileLayer] is well-formed JSON, and what a
    parser reads in it is the options dictionary: the six members
    [attribution], [detectRetina], [maxZoom], [minZoom], [noWrap] and
    [subdomains], in that order, with the [attr] argument (not the
    attribution of the provider), the zoom levels, the flags and the
    subdomains as they were passed.  This holds when [attr] is a JSON value
    ([None] or text, say) and the subdomains are text without surrogates. *)
Theorem TileLayer_options_read_back rt env (a : TileLayer.args) self :
  TileLayer.new rt env a = inr self →
  jsonable (TileLayer.attr a) = true →
  clean_subdomains (TileLayer.subdomains a) = true →
  ∃ s, self !! "options" = Some (PStr (txt s))
       ∧ json_loads s
         = inr (PDict [(txt "attribution", canon true (TileLayer.attr a));
                       (txt "detectRetina", PBool (TileLayer.detect_retina a));
                       (txt "maxZoom", PInt (TileLayer.max_zoom a));
                       (txt "minZoom", PInt (TileLayer.min_zoom a));
                       (txt "noWrap", PBool (TileLayer.no_wrap a));
                       (txt "subdomains",
                        TileLayer.subdomains_val (TileLayer.subdomains a))]).
Proof.
  intros Hnew Hattr Hsub.
  destruct (TileLayer_options_written rt env a self Hnew) as (s & Hopt & Hs).
  exists s. split; [done|].
  destruct (json_loads_dumps rt sorted_indent2 (TileLayer.options a))
    as (s' & Hs' & Hl).
  { unfold TileLayer.options. rewrite jsonable_dict.
    apply andb_true_intro. split; [compute_done|].
    cbn [forallb fst snd]. rewrite Hattr, (jsonable_subdomains _ Hsub). done. }
  rewrite Hs in Hs'. injection Hs' as <-. rewrite Hl. f_equal.
  unfold TileLayer.options. rewrite canon_dict.
  cbn [sort_keys sorted_indent2 fmap list_fmap prod_map id fst snd].
  rewrite TileLayer_items_sorted, canon_subdomains. reflexivity.
Qed.

(** ** VideoOverlay: the construction *)

(** X11.  A [VideoOverlay] checks nothing: with bounds, an opacity and an
    attribution that are JSON values, of whatever shape, the construction
    succeeds; the instance holds the URL and the bounds as they were passed,
    and its options text is well-formed JSON in which a parser reads the
    four options [opacity], [attribution], [loop] and [autoplay] with the
    values passed. *)
Theorem VideoOverlay_constructs rt (a : VideoOverlay.args) :
  jsonable (VideoOverlay.bounds a) = true →
  jsonable (VideoOverlay.opacity a) = true →
  jsonable (VideoOverlay.attr a) = true →
  ∃ self s,
    VideoOverlay.new rt a = inr self
    ∧ self !! "video_url" = Some (PStr (VideoOverlay.video_url a))
    ∧ VideoOverlay._get_self_bounds self = inr (VideoOverlay.bounds a)
    ∧ self !! "options" = Some (PStr (txt s))
    ∧ json_loads s = inr (VideoOverlay.options a).
Proof.
  intros Hb Ho Ha.
  destruct (json_loads_dumps rt plain _ Hb) as (sb & Hsb & Hlb).
  destruct (json_loads_dumps rt plain (VideoOverlay.options a)) as (s & Hs & Hl).
  { unfold VideoOverlay.options. rewrite jsonable_dict.
    apply andb_true_intro. split; [compute_done|].
    cbn [forallb fst snd]. rewrite Ho, Ha. done. }
  cbn [sort_keys plain] in Hlb, Hl. rewrite canon_plain in Hlb, Hl.
  run_init. rewrite Hsb, Hlb, Hs. eexists _, s.
  split; [reflexivity|]. unfold VideoOverlay._get_self_bounds. cbn [attrs].
  repeat split; try done; by simplify_map_eq.
Qed.

(** ** ImageOverlay: the construction *)

(** The options of an [ImageOverlay] in the order of their keys. *)
Lemma ImageOverlay_items_sorted {A} (x1 x2 x3 x4 x5 x6 x7 : A) :
  py_sorted [(txt "opacity", x1); (txt "alt", x2); (txt "interactive", x3);
             (txt "crossOrigin", x4); (txt "errorOverlayUrl", x5);
             (txt "zIndex", x6); (txt "className", x7)]
  = [(txt "alt", x2); (txt "className", x7); (txt "crossOrigin", x4);
     (txt "errorOverlayUrl", x5); (txt "interactive", x3); (txt "opacity", x1);
     (txt "zIndex", x6)].
Proof. reflexivity. Qed.

(** X12.  Without [mercator_project] an [ImageOverlay] is constructed as
    soon as [image_to_url] accepts the image and the bounds and the seven
    options are JSON values: the bounds are not inspected, whatever their
    shape.  The instance holds the URL [image_to_url] returned and the bounds
    as passed, and a parser reads in its options text the seven options in
    the order of their keys, each with the keyword argument given for it or
    its default. *)
Theorem ImageOverlay_constructs rt mercator_transform image_to_url
    (a : ImageOverlay.args) (url : text) :
  ImageOverlay.mercator_project a = false →
  image_to_url (ImageOverlay.image a) (ImageOverlay.origin a)
    (ImageOverlay.colormap a) = inr url →
  jsonable (ImageOverlay.bounds a) = true →
  jsonable (ImageOverlay.options (ImageOverlay.kwargs a)) = true →
  ∃ self s,
    let kw := ImageOverlay.kwargs a in
    ImageOverlay.new rt mercator_transform image_to_url a = inr self
    ∧ self !! "url" = Some (PStr url)
    ∧ ImageOverlay._get_self_bounds self = inr (ImageOverlay.bounds a)
    ∧ self !! "options" = Some (PStr (txt s))
    ∧ json_loads s
      = inr (PDict
               [(txt "alt", canon true (kwarg kw (txt "alt") (PStr [])));
                (txt "className", canon true (kwarg kw (txt "class_name") (PStr [])));
                (txt "crossOrigin",
                 canon true (kwarg kw (txt "cross_origin") (PBool false)));
                (txt "errorOverlayUrl",
                 canon true (kwarg kw (txt "error_overlay_url") (PStr [])));
                (txt "interactive",
                 canon true (kwarg kw (txt "interactive") (PBool false)));
                (txt "opacity",
                 canon true (kwarg kw (txt "opacity") (PFloat (FRepr "1.0"))));
                (txt "zIndex", canon true (kwarg kw (txt "zindex") (PInt 1)))]).
Proof.
  intros Hm Hurl Hb Ho.
  destruct (json_loads_dumps rt plain _ Hb) as (sb & Hsb & Hlb).
  destruct (json_loads_dumps rt sorted_indent2 _ Ho) as (s & Hs & Hl).
  cbn [sort_keys plain sorted_indent2] in Hlb, Hl. rewrite canon_plain in Hlb.
  run_init. rewrite Hm, Hurl, Hsb, Hlb, Hs. eexists _, s. cbv zeta.
  split; [reflexivity|]. unfold ImageOverlay._get_self_bounds. cbn [attrs].
  split; [by simplify_map_eq|]. split; [by simplify_map_eq|].
  split; [by simplify_map_eq|]. rewrite Hl, ImageOverlay_options_kwarg.
  rewrite canon_dict. cbn [fmap list_fmap prod_map id fst snd].
  by rewrite ImageOverlay_items_sorted.
Qed.

(** X13.  With [mercator_project] the bounds must have two rows with a
    first element each, the two latitudes.  For bounds that are a list of
    lists without them (an empty list, a single corner, an empty row) the
    construction raises [IndexError] before either helper is called, and no
    URL is assigned. *)
Theorem ImageOverlay_mercator_short_bounds rt mercator_transform image_to_url
    (a : ImageOverlay.args) (rows : list pyval) :
  ImageOverlay.mercator_project a = true →
  ImageOverlay.bounds a = PList rows →
  Forall (λ row, ∃ l, row = PList l) rows →
  (∀ lat0 row0 lat1 row1 rest,
     rows ≠ PList (lat0 :: row0) :: PList (lat1 :: row1) :: rest) →
  let run := ImageOverlay.__init__ rt mercator_transform image_to_url a fresh in
  run.1 = inl IndexError
  ∧ calls run.2 = []
  ∧ attrs run.2 !! "url" = None
  ∧ ImageOverlay.new rt mercator_transform image_to_url a = inl IndexError.
Proof.
  intros Hm Hb Hrows Hshort. cbv zeta. run_init. rewrite Hm, Hb.
  destruct Hrows as [|row0 rows [[|lat0 l0] ->] Hrows];
    cbn [getitem lookup list_lookup fst snd]; [done..|].
  destruct Hrows as [|row1 rows [[|lat1 l1] ->] Hrows];
    cbn [getitem lookup list_lookup fst snd]; [done..|].
  by destruct (Hshort lat0 l0 lat1 l1 rows).
Qed.

(** ** WmsTileLayer: the construction *)

Lemma forallb_dict_set (P : text * pyval → bool) k v d :
  forallb P d = true → P (k, v) = true → forallb P (dict_set k v d) = true.
Proof.
  intros Hd Hkv. induction d as [|kv d IH]; simpl in *.
  - by rewrite Hkv.
  - apply andb_prop in Hd as [Hp Hd]. destruct (decide (kv.1 = k)); simpl.
    + by rewrite Hkv, Hd.
    + by rewrite Hp, IH.
Qed.

(** X14.  A [WmsTileLayer] whose keyword arguments [_parse_wms] turns into
    a dictionary of JSON values is constructed, attribution permitting; it
    keeps the URL as passed, and a parser reads in its options text a
    dictionary, sorted by key, in which [attribution] is the [attr]
    argument, whatever [_parse_wms] had under that key, and every other key
    has the value [_parse_wms] gave it. *)
Theorem WmsTileLayer_constructs rt _parse_wms (a : WmsTileLayer.args)
    (d : list (text * pyval)) :
  _parse_wms (WmsTileLayer.kwargs a) = inr d →
  jsonable (PDict d) = true →
  jsonable (WmsTileLayer.attr a) = true →
  ∃ self s o,
    WmsTileLayer.new rt _parse_wms a = inr self
    ∧ self !! "url" = Some (PStr (WmsTileLayer.url a))
    ∧ self !! "options" = Some (PStr (txt s))
    ∧ json_loads s = inr (PDict o)
    ∧ Sorted key_le o
    ∧ dict_get (txt "attribution") o = Some (canon true (WmsTileLayer.attr a))
    ∧ ∀ k, k ≠ txt "attribution" → dict_get k o = canon true <$> dict_get k d.
Proof.
  intros Hd Hjd Hattr.
  set (d' := dict_set (txt "attribution") (WmsTileLayer.attr a) d).
  rewrite jsonable_dict in Hjd. apply andb_prop in Hjd as [Hnd Hvals].
  apply bool_decide_eq_true in Hnd.
  assert (NoDup d'.*1) as Hnd' by (by apply dict_set_NoDup).
  destruct (json_loads_dumps rt sorted_indent2 (PDict d')) as (s & Hs & Hl).
  { rewrite jsonable_dict. apply andb_true_intro. split.
    - by apply bool_decide_eq_true.
    - apply forallb_dict_set; [done|]. cbn [fst snd]. by rewrite Hattr. }
  rewrite canon_dict in Hl. cbn [sort_keys sorted_indent2] in Hl.
  assert (NoDup (prod_map id (canon true) <$> d').*1) as Hnd''.
  { rewrite <- list_fmap_compose.
    by assert (fst ∘ prod_map id (canon true) = (fst : text * pyval → text))
      as -> by done. }
  run_init. rewrite Hd. cbn [dict_update foldl fst snd]. fold d'. rewrite Hs.
  eexists _, s, _. split; [reflexivity|]. cbn [attrs].
  split; [by simplify_map_eq|]. split; [by simplify_map_eq|].
  split; [exact Hl|]. split; [apply py_sorted_sorted|].
  split.
  - rewrite (dict_get_perm _ _ _ Hnd'' (py_sorted_perm _)), dict_get_fmap.
    subst d'. by rewrite dict_get_set_eq.
  - intros k Hk.
    rewrite (dict_get_perm _ _ _ Hnd'' (py_sorted_perm _)), dict_get_fmap.
    subst d'. by rewrite dict_get_set_ne.
Qed.

(** ** ImageOverlay: rendering twice *)

(** X15.  Rendering an overlay into the document it was already rendered
    into changes nothing: the snippet replaces the one of the same name and
    the style sheet the one already there, so a map that is rendered again
    does not grow. *)
Theorem ImageOverlay_render_idempotent script_macro
    (self : gmap string pyval) (this : text) (root root' : document) :
  ImageOverlay.render script_macro self this root = inr root' →
  ImageOverlay.render script_macro self this root' = inr root'.
Proof.
  unfold ImageOverlay.render, MacroElement_render, add_child.
  destruct (is_figure root); [|done].
  cbn [mbind result_bind bind_result is_figure negb header script].
  destruct (self !! "pixelated") as [p|]; [|done].
  destruct (truthy p) eqn:Hp; intros [= <-];
    cbn [mbind result_bind bind_result is_figure negb header script];
    by rewrite ?Hp, !dict_set_idem.
Qed.

(** ** The characters of the options text *)

Fixpoint all_chars (P : ascii → bool) (s : string) : bool :=
  match s with
  | EmptyString => true
  | String a s' => P a && all_chars P s'
  end.

(** A printable ASCII character or a line break. *)
Definition plain_char (a : ascii) : bool :=
  ((32 <=? cp a) && (cp a <=? 126)) || Ascii.eqb a nl.

Lemma all_chars_app P s1 s2 :
  all_chars P (s1 +:+ s2) = all_chars P s1 && all_chars P s2.
Proof.
  induction s1 as [|a s1 IH]; [done|]. simpl. by rewrite IH, andb_assoc.
Qed.

Lemma plain_hex_digit n : 0 ≤ n < 16 → plain_char (hex_digit n) = true.
Proof.
  intros H.
  assert (n = 0 ∨ n = 1 ∨ n = 2 ∨ n = 3 ∨ n = 4 ∨ n = 5 ∨ n = 6 ∨ n = 7
          ∨ n = 8 ∨ n = 9 ∨ n = 10 ∨ n = 11 ∨ n = 12 ∨ n = 13 ∨ n = 14
          ∨ n = 15) as Hn by lia.
  destruct_or!; subst n; reflexivity.
Qed.

Lemma plain_u_escape n : all_chars plain_char (u_escape n) = true.
Proof.
  unfold u_escape, hex4. cbn [String.append all_chars].
  rewrite !plain_hex_digit by (apply Z.mod_pos_bound; lia). reflexivity.
Qed.

(** Whatever the code point, [json.dumps] writes it in printable ASCII. *)
Lemma plain_escape_cp c : all_chars plain_char (json_escape_cp c) = true.
Proof.
  unfold json_escape_cp. repeat case_match; try reflexivity.
  - cbn [all_chars]. unfold plain_char. rewrite cp_ascii_of by lia.
    rewrite andb_true_r. apply orb_true_intro. by left.
  - apply plain_u_escape.
  - by rewrite all_chars_app, !plain_u_escape.
Qed.

Lemma plain_quote t : all_chars plain_char (json_quote t) = true.
Proof.
  unfold json_quote. cbn [all_chars]. rewrite all_chars_app.
  assert (all_chars plain_char (json_escape t) = true) as ->; [|done].
  induction t as [|c t IH]; [done|]. cbn [json_escape].
  by rewrite all_chars_app, plain_escape_cp, IH.
Qed.

Lemma plain_uint d : all_chars plain_char (NilEmpty.string_of_uint d) = true.
Proof. induction d; simpl; by rewrite ?IHd. Qed.

Lemma plain_string_of_Z z : all_chars plain_char (string_of_Z z) = true.
Proof.
  unfold string_of_Z, NilZero.string_of_int, NilZero.string_of_uint.
  destruct (Z.to_int z) as [d|d]; [|cbn [all_chars]; rewrite andb_true_l];
    destruct d; try reflexivity; apply plain_uint.
Qed.

Lemma plain_spaces n : all_chars plain_char (spaces n) = true.
Proof. induction n as [|n IH]; [done|]. simpl. by rewrite IH. Qed.

Lemma plain_join sep ms :
  all_chars plain_char sep = true →
  Forall (λ m, all_chars plain_char m = true) ms →
  all_chars plain_char (join_strings sep ms) = true.
Proof.
  intros Hsep. induction 1 as [|m ms Hm Hms IH]; [done|].
  destruct ms as [|m' ms]; [done|].
  rewrite join_strings_cons, !all_chars_app, Hm, Hsep. exact IH.
Qed.

Lemma plain_container rt cfg opening closing level ms :
  all_chars plain_char opening = true →
  all_chars plain_char closing = true →
  Forall (λ m, all_chars plain_char m = true) ms →
  all_chars plain_char (encode_container rt cfg opening closing level ms) = true.
Proof.
  intros Ho Hc Hms.
  assert (∀ l, all_chars plain_char (newline_indent cfg l) = true) as Hnl.
  { intros l. unfold newline_indent. destruct (indent cfg); [|done].
    cbn [all_chars]. by rewrite plain_spaces. }
  assert (all_chars plain_char (item_separator rt cfg) = true) as Hsep.
  { unfold item_separator. by destruct (indent cfg), (rt_version rt). }
  unfold encode_container. destruct ms as [|m ms].
  - by rewrite all_chars_app, Ho, Hc.
  - rewrite !all_chars_app, Ho, Hc, !Hnl. rewrite plain_join; [done| |done].
    by rewrite all_chars_app, Hsep, Hnl.
Qed.

(** Values without byte strings whose floats have a printable [repr]. *)
Fixpoint printable (v : pyval) : bool :=
  match v with
  | PNone | PBool _ | PInt _ | PStr _ => true
  | PFloat f => all_chars plain_char (float_repr f)
  | PList l =>
      (fix go (l : list pyval) : bool :=
         match l with
         | [] => true
         | x :: l' => printable x && go l'
         end) l
  | PDict d =>
      (fix go (d : list (text * pyval)) : bool :=
         match d with
         | [] => true
         | kv :: d' => printable kv.2 && go d'
         end) d
  | PBytes _ | PHost _ => false
  end.

Lemma collect_Forall {A} (P : A → Prop) (rs : list (result A)) l :
  Forall (λ r, ∀ x, r = inr x → P x) rs → collect rs = inr l → Forall P l.
Proof.
  intros Hrs. revert l. induction Hrs as [|r rs Hr _ IH]; intros l; simpl.
  - intros [= <-]. constructor.
  - destruct r as [e|x]; [done|]. simpl.
    destruct (collect rs) as [e|l']; [done|]. simpl. intros [= <-].
    constructor; [by apply Hr|by apply IH].
Qed.

Lemma printable_list l : printable (PList l) = forallb printable l.
Proof. reflexivity. Qed.

Lemma printable_dict d : printable (PDict d) = forallb (λ kv, printable kv.2) d.
Proof. reflexivity. Qed.

(** [json.dumps] writes printable ASCII and line breaks, nothing else. *)
Lemma json_encode_plain rt cfg v :
  printable v = true →
  ∀ level s, json_encode rt cfg level v = inr s → all_chars plain_char s = true.
Proof.
  induction v as [|b|z|f|t| |l IH|d IH|] using pyval_ind; try done.
  - by intros _ level s [= <-].
  - by intros _ level s; destruct b; intros [= <-].
  - intros _ level s [= <-]. apply plain_string_of_Z.
  - by intros Hf level s [= <-].
  - intros _ level s [= <-]. apply plain_quote.
  - rewrite printable_list. intros Hl level s. rewrite json_encode_list.
    destruct (collect _) as [e|ms] eqn:E; [done|]. cbn [bind_result].
    intros [= <-]. apply plain_container; [done..|].
    refine (collect_Forall _ _ _ _ E).
    rewrite Forall_fmap. rewrite forallb_forall in Hl.
    rewrite Forall_forall in IH |- *. intros x Hx m Hm.
    apply (IH x Hx (Hl x ltac:(by apply list_elem_of_In)) _ _ Hm).
  - rewrite printable_dict. intros Hd level s. rewrite json_encode_dict.
    destruct (collect _) as [e|ms] eqn:E; [done|]. cbn [bind_result].
    intros [= <-]. apply plain_container; [done..|].
    refine (collect_Forall _ _ _ _ E).
    rewrite Forall_fmap.
    assert ((if sort_keys cfg then py_sorted else id)
              (prod_map id (json_encode rt cfg (S level)) <$> d)
            ≡ₚ prod_map id (json_encode rt cfg (S level)) <$> d) as ->.
    { destruct (sort_keys cfg); [apply py_sorted_perm|done]. }
    rewrite Forall_fmap. rewrite forallb_forall in Hd.
    rewrite Forall_forall in IH |- *. intros [k x] Hx m.
    cbn [compose prod_map fst snd id encode_member].
    destruct (json_encode rt cfg (S level) x) as [e|sx] eqn:Ex; [done|].
    cbn [bind_result]. intros [= <-].
    change (all_chars plain_char (json_quote k +:+ ": " +:+ sx) = true).
    rewrite !all_chars_app, plain_quote.
    specialize (Hd (k, x) ltac:(by apply list_elem_of_In)).
    by rewrite (IH (k, x) Hx Hd _ _ Ex).
Qed.

Lemma plain_txt s :
  all_chars plain_char s = true → Forall (λ c, 32 ≤ c ≤ 126 ∨ c = 10) (txt s).
Proof.
  induction s as [|a s IH]; [constructor|]. cbn [all_chars txt]. intros H.
  apply andb_prop in H as [Ha Hs]. constructor; [|by apply IH].
  unfold plain_char in Ha. apply orb_prop in Ha as [Ha|Ha]; [left; lia|].
  apply Ascii.eqb_eq in Ha as ->. by right.
Qed.

(** X16.  The options text of a layer is printable ASCII and line breaks,
    nothing else, whatever Unicode the attribution and the other strings
    hold: [json.dumps] escapes every other character.  This holds for the
    four layers, provided the values serialised are free of byte strings
    and their floats have a printable [repr]. *)
Theorem options_text_ascii rt :
  (∀ env a self,
     TileLayer.new rt env a = inr self →
     printable (TileLayer.attr a) = true →
     ∃ t, self !! "options" = Some (PStr t)
          ∧ Forall (λ c, 32 ≤ c ≤ 126 ∨ c = 10) t)
  ∧ (∀ _parse_wms a self,
       WmsTileLayer.new rt _parse_wms a = inr self →
       (∀ d, _parse_wms (WmsTileLayer.kwargs a) = inr d →
             printable (PDict d) = true) →
       printable (WmsTileLayer.attr a) = true →
       ∃ t, self !! "options" = Some (PStr t)
            ∧ Forall (λ c, 32 ≤ c ≤ 126 ∨ c = 10) t)
  ∧ (∀ mercator_transform image_to_url a self,
       ImageOverlay.new rt mercator_transform image_to_url a = inr self →
       printable (ImageOverlay.options (ImageOverlay.kwargs a)) = true →
       ∃ t, self !! "options" = Some (PStr t)
            ∧ Forall (λ c, 32 ≤ c ≤ 126 ∨ c = 10) t)
  ∧ (∀ a self,
       VideoOverlay.new rt a = inr self →
       printable (VideoOverlay.opacity a) = true →
       printable (VideoOverlay.attr a) = true →
       ∃ t, self !! "options" = Some (PStr t)
            ∧ Forall (λ c, 32 ≤ c ≤ 126 ∨ c = 10) t).
Proof.
  split; [|split; [|split]].
  - intros env a self Hnew Hattr.
    destruct (TileLayer_options_written rt env a self Hnew) as (s & Hopt & Hs).
    exists (txt s). split; [done|]. apply plain_txt.
    apply (json_encode_plain rt sorted_indent2 (TileLayer.options a)) in Hs; [done|].
    unfold TileLayer.options. rewrite printable_dict. cbn [forallb snd].
    rewrite Hattr. by destruct (TileLayer.subdomains a) as [t|l]; [|induction l].
  - intros pw a self Hnew Hd Hattr. revert Hnew. run_init.
    destruct (pw (WmsTileLayer.kwargs a)) as [?|d]; [done|].
    specialize (Hd d eq_refl). cbn [dict_update foldl fst snd].
    destruct (json_dumps rt sorted_indent2 _) as [?|s] eqn:Hs; [done|].
    intros [= <-]. exists (txt s). split; [by simplify_map_eq|]. apply plain_txt.
    apply (json_encode_plain rt sorted_indent2 _) in Hs; [done|].
    rewrite printable_dict in Hd |- *.
    apply (forallb_dict_set (λ kv, printable kv.2)); done.
  - intros mt itu a self Hnew Hp. revert Hnew. run_init.
    destruct (json_dumps rt sorted_indent2 _) as [e|s] eqn:Hs.
    + run_cases; done.
    + apply (json_encode_plain rt sorted_indent2 _ Hp) in Hs.
      run_cases; try done; intros [= <-]; exists (txt s);
        (split; [by simplify_map_eq|by apply plain_txt]).
  - intros a self Hnew Ho Ha. revert Hnew. run_init.
    destruct (json_dumps rt plain (VideoOverlay.bounds a)) as [?|sb]; [done|].
    destruct (json_loads sb) as [?|b]; [done|].
    destruct (json_dumps rt plain (VideoOverlay.options a)) as [?|s] eqn:Hs;
      [done|].
    intros [= <-]. exists (txt s). split; [by simplify_map_eq|]. apply plain_txt.
    apply (json_encode_plain rt plain _) in Hs; [done|].
    unfold VideoOverlay.options. rewrite printable_dict. cbn [forallb snd].
    by rewrite Ho, Ha.
Qed.

(** * The further properties at concrete inputs *)

(** [TileLayer()] has the URL template and the attribution of the
    registry. *)
Lemma TileLayer_built_in_fields_witness :
  ∃ tiles_txt attr_txt,
    get_template sample_env (txt "tiles/openstreetmap/tiles.txt") = inr tiles_txt
    ∧ get_template sample_env (txt "tiles/openstreetmap/attr.txt") = inr attr_txt
    ∧ osm_layer !! "tiles" = Some (PStr (tiles_txt [(txt "API_key", PNone)]))
    ∧ osm_layer !! "attr" = Some (PStr (attr_txt [])).
Proof.
  apply (TileLayer_built_in_fields py3 sample_env TileLayer.defaults osm_layer).
  - vm_compute. reflexivity.
  - exact osm_layer_new.
Defined.

(** [TileLayer(' Open Street MAP ')] is [TileLayer('OpenStreetMap')]. *)
Lemma TileLayer_built_in_spelling_witness :
  TileLayer.new py3 sample_env
    (with_tiles TileLayer.defaults (txt " Open Street MAP "))
  = TileLayer.new py3 sample_env TileLayer.defaults.
Proof.
  apply (TileLayer_built_in_spelling py3 sample_env TileLayer.defaults).
  - vm_compute. reflexivity.
  - vm_compute. reflexivity.
Defined.

(** A custom URL with the attribution [b'OSM'] under Python 3. *)
Lemma TileLayer_bytes_attr_python3_witness :
  TileLayer.new py3 sample_env (custom_tiles (PBytes [x4f; x53; x4d]))
  = inl (TypeError "Object of type bytes is not JSON serializable").
Proof.
  apply (TileLayer_bytes_attr_python3 py3 sample_env _ [x4f; x53; x4d]).
  - reflexivity.
  - reflexivity.
Defined.

(** The attribution ['é€'] and its UTF-8 bytes under Python 2. *)
Lemma TileLayer_bytes_attr_python2_witness :
  TileLayer.new py2 sample_env
    (with_attr (custom_tiles PNone) (PBytes (utf8_encode [233; 8364])))
  = TileLayer.new py2 sample_env (with_attr (custom_tiles PNone) (PStr [233; 8364])).
Proof.
  apply (TileLayer_bytes_attr_python2 py2 sample_env (custom_tiles PNone)).
  - reflexivity.
  - reflexivity.
Defined.

(** [TileLayer('Mapbox', API_key=...)] with two keys. *)
Definition mapbox_with_key (key : text) : TileLayer.args :=
  with_API_key mapbox_without_key (PStr key).

Lemma TileLayer_API_key_only_in_tiles_witness :
  match TileLayer.new py3 sample_env (mapbox_with_key (txt "k1")) with
  | inl e =>
      TileLayer.new py3 sample_env
        (with_API_key (mapbox_with_key (txt "k1")) (PStr (txt "k2"))) = inl e
  | inr self =>
      ∃ self',
        TileLayer.new py3 sample_env
          (with_API_key (mapbox_with_key (txt "k1")) (PStr (txt "k2"))) = inr self'
        ∧ ∀ k, k ≠ "tiles" → self' !! k = self !! k
  end.
Proof.
  apply (TileLayer_API_key_only_in_tiles py3 sample_env (mapbox_with_key (txt "k1"))).
  reflexivity.
Defined.

(** What a parser reads in the options of [TileLayer()]. *)
Lemma TileLayer_options_read_back_witness :
  ∃ s, osm_layer !! "options" = Some (PStr (txt s))
       ∧ json_loads s
         = inr (PDict [(txt "attribution", PNone);
                       (txt "detectRetina", PBool false);
                       (txt "maxZoom", PInt 18);
                       (txt "minZoom", PInt 1);
                       (txt "noWrap", PBool false);
                       (txt "subdomains", PStr (txt "abc"))]).
Proof.
  exact (TileLayer_options_read_back py3 sample_env TileLayer.defaults osm_layer
           osm_layer_new eq_refl eq_refl).
Defined.

(** [VideoOverlay('a.mp4', [[0, 0], [1, 1]])] *)
Lemma VideoOverlay_constructs_witness :
  ∃ self s,
    VideoOverlay.new py3 (VideoOverlay.defaults (txt "a.mp4") unit_square) = inr self
    ∧ self !! "video_url" = Some (PStr (txt "a.mp4"))
    ∧ VideoOverlay._get_self_bounds self = inr unit_square
    ∧ self !! "options" = Some (PStr (txt s))
    ∧ json_loads s
      = inr (PDict [(txt "opacity", PFloat (FRepr "1.0"));
                    (txt "attribution", PNone);
                    (txt "loop", PBool true);
                    (txt "autoplay", PBool true)]).
Proof.
  exact (VideoOverlay_constructs py3
           (VideoOverlay.defaults (txt "a.mp4") unit_square)
           eq_refl eq_refl eq_refl).
Defined.

(** [ImageOverlay(sample_array, [[0, 0], [10, 10]])] *)
Lemma ImageOverlay_constructs_witness :
  ∃ self s,
    ImageOverlay.new py3 tagging_transform tagging_to_url
      (sample_overlay false true) = inr self
    ∧ self !! "url" = Some (PStr (txt "data:image/png;base64,"))
    ∧ ImageOverlay._get_self_bounds self
      = inr (PList [PList [PInt 0; PInt 0]; PList [PInt 10; PInt 10]])
    ∧ self !! "options" = Some (PStr (txt s))
    ∧ json_loads s
      = inr (PDict [(txt "alt", PStr []);
                    (txt "className", PStr []);
                    (txt "crossOrigin", PBool false);
                    (txt "errorOverlayUrl", PStr []);
                    (txt "interactive", PBool false);
                    (txt "opacity", PFloat (FRepr "1.0"));
                    (txt "zIndex", PInt 1)]).
Proof.
  exact (ImageOverlay_constructs py3 tagging_transform tagging_to_url
           (sample_overlay false true) (txt "data:image/png;base64,")
           eq_refl eq_refl eq_refl eq_refl).
Defined.

(** An overlay with [mercator_project=True] over the single corner
    [[[0, 0]]]. *)
Definition one_corner_overlay : ImageOverlay.args := {|
  ImageOverlay.image := sample_array;
  ImageOverlay.bounds := PList [PList [PInt 0; PInt 0]];
  ImageOverlay.origin := PStr (txt "upper");
  ImageOverlay.colormap := PNone;
  ImageOverlay.mercator_project := true;
  ImageOverlay.overlay := true;
  ImageOverlay.control := true;
  ImageOverlay.pixelated := true;
  ImageOverlay.name := None;
  ImageOverlay.kwargs := [];
|}.

Lemma ImageOverlay_mercator_short_bounds_witness :
  let run := ImageOverlay.__init__ py3 tagging_transform tagging_to_url
               one_corner_overlay fresh in
  run.1 = inl IndexError
  ∧ calls run.2 = []
  ∧ attrs run.2 !! "url" = None
  ∧ ImageOverlay.new py3 tagging_transform tagging_to_url one_corner_overlay
    = inl IndexError.
Proof.
  apply (ImageOverlay_mercator_short_bounds py3 tagging_transform tagging_to_url
           one_corner_overlay [PList [PInt 0; PInt 0]]).
  - reflexivity.
  - reflexivity.
  - repeat constructor. by eexists.
  - intros lat0 row0 lat1 row1 rest H. discriminate H.
Defined.

(** A WMS layer whose keyword arguments bring an attribution of their
    own. *)
Definition keep_kwargs (kw : list (text * pyval)) : result (list (text * pyval)) :=
  inr kw.

Definition sample_wms : WmsTileLayer.args := {|
  WmsTileLayer.url := txt "http://example.org/wms";
  WmsTileLayer.name := None;
  WmsTileLayer.attr := PStr (txt "mine");
  WmsTileLayer.overlay := true;
  WmsTileLayer.control := true;
  WmsTileLayer.kwargs :=
    [(txt "layers", PStr (txt "a")); (txt "attribution", PStr (txt "theirs"))];
|}.

Lemma WmsTileLayer_constructs_witness :
  ∃ self s o,
    WmsTileLayer.new py3 keep_kwargs sample_wms = inr self
    ∧ self !! "url" = Some (PStr (txt "http://example.org/wms"))
    ∧ self !! "options" = Some (PStr (txt s))
    ∧ json_loads s = inr (PDict o)
    ∧ Sorted key_le o
    ∧ dict_get (txt "attribution") o = Some (PStr (txt "mine"))
    ∧ ∀ k, k ≠ txt "attribution" →
        dict_get k o = canon true <$> dict_get k (WmsTileLayer.kwargs sample_wms).
Proof.
  exact (WmsTileLayer_constructs py3 keep_kwargs sample_wms
           (WmsTileLayer.kwargs sample_wms) eq_refl eq_refl eq_refl).
Defined.

(** An overlay rendered a second time. *)
Lemma ImageOverlay_render_idempotent_witness :
  ∃ root',
    ImageOverlay.render (λ _, []) (sample_self true) (txt "image_overlay_1")
      empty_figure = inr root'
    ∧ ImageOverlay.render (λ _, []) (sample_self true) (txt "image_overlay_1")
        root' = inr root'.
Proof.
  eexists. split.
  - vm_compute. reflexivity.
  - apply (ImageOverlay_render_idempotent (λ _, []) (sample_self true)
             (txt "image_overlay_1") empty_figure).
    vm_compute. reflexivity.
Defined.

(** The options of [TileLayer()]. *)
Lemma options_text_ascii_witness :
  ∃ t, osm_layer !! "options" = Some (PStr t)
       ∧ Forall (λ c, 32 ≤ c ≤ 126 ∨ c = 10) t.
Proof.
  exact (proj1 (options_text_ascii py3) sample_env TileLayer.defaults osm_layer
           osm_layer_new eq_refl).
Defined.
